(** * Role-activity monitor: activity counters, snapshots, retention, scheduler

    A shallow embedding of [rolecctv.js] (the store, the snapshot life
    cycle, the retention policy and the snapshot scheduler) and of the
    snapshot routes of [server.js], followed by the properties of the
    written specification, each settled against the embedding.

    The program talks to one SQLite connection.  The SQL statements of the
    source are embedded as functions on a record of tables; [db.run],
    [db.get] and [db.all] are actions of a small state-and-exception monad
    over the connection, so that [try]/[catch], [BEGIN]/[COMMIT]/[ROLLBACK]
    and storage errors are modelled as the code has them. *)

From Stdlib Require Import ZArith Lia List String Ascii Permutation Sorted Bool.
From stdpp Require Import gmap strings list.

Local Open Scope Z_scope.

(** ** JavaScript array helpers used by the source *)

Module Js.

(** [arr.slice(start)] for an integer [start]: a negative start counts
    from the end of the array, and both ends are clamped. *)
Definition slice_from {A} (start : Z) (arr : list A) : list A :=
  let len := Z.of_nat (length arr) in
  let k := if start <? 0 then Z.max (len + start) 0 else Z.min start len in
  drop (Z.to_nat k) arr.

(** [arr.slice(i, i + n)] for natural [i] and [n]. *)
Definition slice {A} (i n : nat) (arr : list A) : list A :=
  take n (drop i arr).

(** [arr.join(sep)]. *)
Definition join (sep : string) (arr : list string) : string :=
  String.concat sep arr.

(** [arr.includes(x)] on strings. *)
Definition includes (arr : list string) (x : string) : bool :=
  existsb (String.eqb x) arr.

(** The property names that an object literal [{}] inherits from
    [Object.prototype]: under such a key [obj[key]] is a function (or the
    prototype itself) although nothing was stored there. *)
Definition Object_prototype_names : list string :=
  [ "constructor"; "hasOwnProperty"; "isPrototypeOf"; "propertyIsEnumerable";
    "toLocaleString"; "toString"; "valueOf"; "__proto__";
    "__defineGetter__"; "__defineSetter__"; "__lookupGetter__";
    "__lookupSetter__" ]%string.

(** The keys under which an object literal behaves as a map. *)
Definition plain_key (key : string) : bool :=
  negb (includes Object_prototype_names key).

End Js.

(** ** The tables *)

(** Row of [channel_activity]; primary key [(user_id, channel_id)].
    Timestamps written by [CURRENT_TIMESTAMP] have a resolution of one
    second and are kept as seconds since the epoch. *)
Record ActivityRecord := {
  ca_user_id : string;
  ca_username : string;
  ca_roles : string;
  ca_channel_id : string;
  ca_channel_name : string;
  ca_message_count : Z;
  ca_last_message : Z
}.

(** Row of [snapshots]; [id INTEGER PRIMARY KEY AUTOINCREMENT], [UNIQUE(name)]. *)
Record Snapshot := {
  s_id : Z;
  s_name : string;
  s_created_at : Z
}.

(** Row of [snapshot_data]; primary key [(snapshot_id, user_id, channel_id)]. *)
Record SnapshotRecord := {
  sd_snapshot_id : Z;
  sd_user_id : string;
  sd_username : string;
  sd_roles : string;
  sd_channel_id : string;
  sd_channel_name : string;
  sd_message_count : Z
}.

(** The database file.  Rows are kept in rowid order, the order a table scan
    visits them.  [sqlite_sequence] is the row that SQLite keeps for the
    AUTOINCREMENT table [snapshots] ([None] before the first insertion). *)
Record DB := {
  channel_activity : list ActivityRecord;
  snapshots : list Snapshot;
  snapshot_data : list SnapshotRecord;
  sqlite_sequence : option Z
}.

Definition empty_db : DB :=
  {| channel_activity := []; snapshots := []; snapshot_data := [];
     sqlite_sequence := None |}.

#[global] Instance ActivityRecord_eq_dec : EqDecision ActivityRecord.
Proof. solve_decision. Defined.
#[global] Instance Snapshot_eq_dec : EqDecision Snapshot.
Proof. solve_decision. Defined.
#[global] Instance SnapshotRecord_eq_dec : EqDecision SnapshotRecord.
Proof. solve_decision. Defined.

(** ** SQL building blocks *)

Module Sql.

(** [ORDER BY]: a stable insertion sort for the order [le]. *)
Fixpoint insert_by {A} (le : A -> A -> bool) (x : A) (l : list A) : list A :=
  match l with
  | [] => [x]
  | y :: l' => if le x y then x :: y :: l' else y :: insert_by le x l'
  end.

Definition order_by {A} (le : A -> A -> bool) (l : list A) : list A :=
  foldr (insert_by le) [] l.

(** [SUM(col)] over integer values. *)
Definition sum (l : list Z) : Z := foldr Z.add 0 l.

(** [MAX(id)]: [None] is SQL [NULL], the maximum of no rows. *)
Definition max_opt (l : list Z) : option Z :=
  match l with
  | [] => None
  | x :: l' => Some (foldr Z.max x l')
  end.

(** The text of [CURRENT_TIMESTAMP] at the instant [now] (milliseconds
    since the epoch): whole seconds, UTC. *)
Definition current_timestamp (now : Z) : Z := now / 1000.

End Sql.

(** ** The connection: transactions, storage errors, asynchronous actions *)

(** Why a call on the connection rejected. *)
Inductive Error :=
  | StorageFault          (* SQLITE_BUSY, I/O error, ...: the statement did nothing *)
  | ConstraintViolation   (* UNIQUE / PRIMARY KEY: the statement was backed out *)
  | TransactionState      (* BEGIN inside a transaction, COMMIT/ROLLBACK outside one *)
  | TypeError.            (* a JavaScript TypeError, e.g. a property of null *)

(** What an awaited call produced: a value, or a thrown error. *)
Inductive Outcome (A : Type) :=
  | Returned (a : A)
  | Thrown (e : Error).
Arguments Returned {A} a.
Arguments Thrown {A} e.

(** What the program asks of its host, in the order it asks: calls of the
    two snapshot procedures (with the instant, resp. the keep count in
    force) and timers armed with [setTimeout] and [setInterval]. *)
Inductive Event :=
  | CalledCreate (now : Z)
  | CalledCleanup (keepCount : Z)
  | ArmedTimeout (delay : Z)
  | ArmedInterval (period : Z).

#[global] Instance Event_eq_dec : EqDecision Event.
Proof. solve_decision. Defined.

(** The connection [db] as the program sees it.
    - [store]: the tables as statements on this connection read and write them;
    - [txn]: [Some d] while a transaction is open, [d] being the tables as
      they were at [BEGIN] (what [ROLLBACK] restores);
    - [faults]: which of the coming calls meet a storage error ([true]),
      one entry per call, none once the list is used up;
    - [issued]: how many calls the program has made on the connection;
    - [trace]: the events so far, oldest first (a ghost log: no statement
      reads it). *)
Record World := {
  store : DB;
  txn : option DB;
  faults : list bool;
  issued : nat;
  trace : list Event
}.

Definition Async (A : Type) : Type := World -> Outcome A * World.

#[global] Instance Async_ret : MRet Async :=
  fun A a w => (Returned a, w).

#[global] Instance Async_bind : MBind Async :=
  fun A B k m w =>
    match m w with
    | (Returned a, w') => k a w'
    | (Thrown e, w') => (Thrown e, w')
    end.

(** [try { body } catch (error) { handler }]. *)
Definition try_catch {A} (body : Async A) (handler : Error -> Async A) : Async A :=
  fun w =>
    match body w with
    | (Returned a, w') => (Returned a, w')
    | (Thrown e, w') => handler e w'
    end.

Module Conn.

(** Every call on the connection is counted and meets the next entry of
    the fault plan. *)
Definition faulty (w : World) : bool := hd false (faults w).

Definition tick (w : World) : World :=
  {| store := store w; txn := txn w;
     faults := tl (faults w); issued := S (issued w); trace := trace w |}.

Definition with_store (w : World) (d : DB) : World :=
  {| store := d; txn := txn w; faults := faults w; issued := issued w;
     trace := trace w |}.

Definition with_txn (w : World) (d : DB) (t : option DB) : World :=
  {| store := d; txn := t; faults := faults w; issued := issued w;
     trace := trace w |}.

(** [db.run] of a data statement; [stmt] is [None] when a constraint
    rejects it, in which case the statement changes nothing and the
    transaction, if any, stays open.  A storage error, too, leaves the
    tables and the transaction as they are. *)
Definition run {A} (stmt : DB -> option (A * DB)) : Async A :=
  fun w =>
    if faulty w then (Thrown StorageFault, tick w)
    else match stmt (store w) with
         | Some (a, d) => (Returned a, with_store (tick w) d)
         | None => (Thrown ConstraintViolation, tick w)
         end.

(** [db.run] of a statement that no constraint can reject. *)
Definition exec (stmt : DB -> DB) : Async unit :=
  run (fun d => Some (tt, stmt d)).

(** [db.get] / [db.all] of a [SELECT]. *)
Definition query {A} (q : DB -> A) : Async A :=
  run (fun d => Some (q d, d)).

(** [db.run("BEGIN TRANSACTION")]. *)
Definition begin_transaction : Async unit :=
  fun w =>
    if faulty w then (Thrown StorageFault, tick w)
    else match txn w with
         | Some _ => (Thrown TransactionState, tick w)
         | None => (Returned tt, with_txn (tick w) (store w) (Some (store w)))
         end.

(** [db.run("COMMIT")]: a commit that fails leaves the transaction open. *)
Definition commit : Async unit :=
  fun w =>
    if faulty w then (Thrown StorageFault, tick w)
    else match txn w with
         | Some _ => (Returned tt, with_txn (tick w) (store w) None)
         | None => (Thrown TransactionState, tick w)
         end.

(** [db.run("ROLLBACK")]: succeeds whenever a transaction is open, and
    puts the tables back as they were at [BEGIN]; SQLite rejects it only
    when no transaction is open, so it passes over its entry of the fault
    plan. *)
Definition rollback : Async unit :=
  fun w =>
    match txn w with
    | Some d0 => (Returned tt, with_txn (tick w) d0 None)
    | None => (Thrown TransactionState, tick w)
    end.

(** A fresh connection to the database [d], with fault plan [fs]. *)
Definition open (d : DB) (fs : list bool) : World :=
  {| store := d; txn := None; faults := fs; issued := 0; trace := [] |}.

(** Appends an event to the ghost log. *)
Definition noted (w : World) (e : Event) : World :=
  {| store := store w; txn := txn w; faults := faults w;
     issued := issued w; trace := trace w ++ [e] |}.

Definition note (e : Event) : Async unit :=
  fun w => (Returned tt, noted w e).

(** [throw]. *)
Definition throw {A} (e : Error) : Async A :=
  fun w => (Thrown e, w).

End Conn.

(** ** [Date.prototype.toISOString] and the snapshot name *)

(** Time values are milliseconds since the epoch, UTC.  The definitions are
    those of the ECMAScript language specification (Day, DayFromYear,
    YearFromTime, MonthFromTime, DateFromTime, ...). *)
Module JsDate.

Definition msPerDay : Z := 86400000.
Definition msPerHour : Z := 3600000.
Definition msPerMinute : Z := 60000.
Definition msPerSecond : Z := 1000.

Definition Day (t : Z) : Z := t / msPerDay.
Definition TimeWithinDay (t : Z) : Z := t mod msPerDay.

Definition DayFromYear (y : Z) : Z :=
  365 * (y - 1970) + (y - 1969) / 4 - (y - 1901) / 100 + (y - 1601) / 400.

Definition isLeap (y : Z) : bool :=
  if negb (y mod 4 =? 0) then false
  else if negb (y mod 100 =? 0) then true
  else if negb (y mod 400 =? 0) then false
  else true.

Definition DaysInYear (y : Z) : Z := if isLeap y then 366 else 365.

(** The largest [y] with [DayFromYear y <= Day t]: the mean-year estimate
    is off by at most one. *)
Definition YearFromDay (d : Z) : Z :=
  let y := 1970 + (400 * d) / 146097 in
  if DayFromYear (y + 1) <=? d then y + 1
  else if DayFromYear y <=? d then y
  else y - 1.

Definition YearFromTime (t : Z) : Z := YearFromDay (Day t).

Definition InLeapYear (t : Z) : Z :=
  if isLeap (YearFromTime t) then 1 else 0.

Definition DayWithinYear (t : Z) : Z :=
  Day t - DayFromYear (YearFromTime t).

(** Month number (0 = January) of the day [dw] within a year, [leap]
    being 1 in a leap year. *)
Definition MonthFromDay (dw leap : Z) : Z :=
  if dw <? 31 then 0
  else if dw <? 59 + leap then 1
  else if dw <? 90 + leap then 2
  else if dw <? 120 + leap then 3
  else if dw <? 151 + leap then 4
  else if dw <? 181 + leap then 5
  else if dw <? 212 + leap then 6
  else if dw <? 243 + leap then 7
  else if dw <? 273 + leap then 8
  else if dw <? 304 + leap then 9
  else if dw <? 334 + leap then 10
  else 11.

(** First day within the year of month [m]. *)
Definition MonthStart (m leap : Z) : Z :=
  if m =? 0 then 0
  else if m =? 1 then 31
  else if m =? 2 then 59 + leap
  else if m =? 3 then 90 + leap
  else if m =? 4 then 120 + leap
  else if m =? 5 then 151 + leap
  else if m =? 6 then 181 + leap
  else if m =? 7 then 212 + leap
  else if m =? 8 then 243 + leap
  else if m =? 9 then 273 + leap
  else if m =? 10 then 304 + leap
  else 334 + leap.

Definition MonthFromTime (t : Z) : Z :=
  MonthFromDay (DayWithinYear t) (InLeapYear t).

Definition DateFromTime (t : Z) : Z :=
  DayWithinYear t - MonthStart (MonthFromTime t) (InLeapYear t) + 1.

Definition HourFromTime (t : Z) : Z := (t / msPerHour) mod 24.
Definition MinFromTime (t : Z) : Z := (t / msPerMinute) mod 60.
Definition SecFromTime (t : Z) : Z := (t / msPerSecond) mod 60.
Definition msFromTime (t : Z) : Z := t mod msPerSecond.

(** Decimal digits, most significant first, zero padded to a width. *)
Definition digit (n : Z) : ascii := ascii_of_N (48 + Z.to_N (n mod 10)).

Fixpoint pad (width : nat) (n : Z) (rest : string) : string :=
  match width with
  | O => rest
  | S w => pad w (n / 10) (String (digit n) rest)
  end.

(** The year: four digits from 0 to 9999, otherwise a sign and six digits. *)
Definition year_field (y : Z) (rest : string) : string :=
  if (0 <=? y) && (y <=? 9999) then pad 4 y rest
  else if y <? 0 then String "-" (pad 6 (- y) rest)
  else String "+" (pad 6 y rest).

(** [new Date(t).toISOString()]: ["YYYY-MM-DDTHH:mm:ss.sssZ"]. *)
Definition toISOString (t : Z) : string :=
  year_field (YearFromTime t)
    (String "-" (pad 2 (MonthFromTime t + 1)
    (String "-" (pad 2 (DateFromTime t)
    (String "T" (pad 2 (HourFromTime t)
    (String ":" (pad 2 (MinFromTime t)
    (String ":" (pad 2 (SecFromTime t)
    (String "." (pad 3 (msFromTime t) "Z")))))))))))).

(** [s.replace(/[:.]/g, '-')]. *)
Fixpoint replace_colon_dot (s : string) : string :=
  match s with
  | EmptyString => EmptyString
  | String c s' =>
      String (if (Ascii.eqb c ":" || Ascii.eqb c ".")%bool then "-"%char else c)
             (replace_colon_dot s')
  end.

(** [new Date(created_at + 'Z')] for a stored [CURRENT_TIMESTAMP] text:
    the stored second, read as UTC, in milliseconds. *)
Definition parse_utc (created_at : Z) : Z := created_at * msPerSecond.

End JsDate.

(** ** The SQL statements of the source *)

Module Stmt.

(** *** [channel_activity] *)

Definition same_identity (userId channelId : string) (r : ActivityRecord) : bool :=
  String.eqb (ca_user_id r) userId && String.eqb (ca_channel_id r) channelId.

(** [INSERT INTO channel_activity (...) VALUES (?, ?, ?, ?, ?, 1,
    CURRENT_TIMESTAMP) ON CONFLICT(user_id, channel_id) DO UPDATE SET
    username = ?, roles = ?, channel_name = ?, message_count =
    message_count + 1, last_message = CURRENT_TIMESTAMP].
    Counts are SQLite integers; they stay far below 2^63 and are kept
    as [Z]. *)
Definition upsert_activity (userId username roles channelId channelName : string)
    (now : Z) (d : DB) : DB :=
  let rows := channel_activity d in
  let rows' :=
    if existsb (same_identity userId channelId) rows then
      map (fun r =>
             if same_identity userId channelId r then
               {| ca_user_id := ca_user_id r;
                  ca_username := username;
                  ca_roles := roles;
                  ca_channel_id := ca_channel_id r;
                  ca_channel_name := channelName;
                  ca_message_count := ca_message_count r + 1;
                  ca_last_message := Sql.current_timestamp now |}
             else r) rows
    else
      rows ++ [ {| ca_user_id := userId;
                   ca_username := username;
                   ca_roles := roles;
                   ca_channel_id := channelId;
                   ca_channel_name := channelName;
                   ca_message_count := 1;
                   ca_last_message := Sql.current_timestamp now |} ]
  in
  {| channel_activity := rows'; snapshots := snapshots d;
     snapshot_data := snapshot_data d; sqlite_sequence := sqlite_sequence d |}.

(** [ORDER BY user_id, message_count DESC]; text compares bytewise. *)
Definition by_user_then_count (u1 : string) (c1 : Z) (u2 : string) (c2 : Z) : bool :=
  match String.compare u1 u2 with
  | Lt => true
  | Eq => c2 <=? c1
  | Gt => false
  end.

(** [SELECT user_id, username, roles, channel_id, channel_name,
    message_count FROM channel_activity ORDER BY user_id, message_count DESC]. *)
Definition select_activity (d : DB) : list ActivityRecord :=
  Sql.order_by
    (fun r1 r2 => by_user_then_count (ca_user_id r1) (ca_message_count r1)
                                     (ca_user_id r2) (ca_message_count r2))
    (channel_activity d).

(** *** [snapshots] *)

(** The rowid an AUTOINCREMENT table gives its next row: one more than
    the larger of the recorded sequence and the largest rowid present. *)
Definition next_id (d : DB) : Z :=
  Z.max (default 0 (sqlite_sequence d))
        (default 0 (Sql.max_opt (map s_id (snapshots d)))) + 1.

(** [INSERT INTO snapshots (name, created_at) VALUES (?, CURRENT_TIMESTAMP)];
    yields [result.lastID].  [UNIQUE(name)] rejects a name already present. *)
Definition insert_snapshot (name : string) (now : Z) (d : DB) : option (Z * DB) :=
  if existsb (fun s => String.eqb (s_name s) name) (snapshots d) then None
  else
    let newId := next_id d in
    Some (newId,
          {| channel_activity := channel_activity d;
             snapshots := snapshots d ++
               [ {| s_id := newId; s_name := name;
                    s_created_at := Sql.current_timestamp now |} ];
             snapshot_data := snapshot_data d;
             sqlite_sequence := Some newId |}).

(** [SELECT id FROM snapshots WHERE id = ?] through [db.get]: the first row. *)
Definition select_snapshot_id (id : Z) (d : DB) : option Z :=
  head (map s_id (List.filter (fun s => s_id s =? id) (snapshots d))).

(** [SELECT id, name, created_at FROM snapshots WHERE id = ?] through [db.get]. *)
Definition select_snapshot (id : Z) (d : DB) : option Snapshot :=
  head (List.filter (fun s => s_id s =? id) (snapshots d)).

(** [SELECT MAX(id) as maxId FROM snapshots]. *)
Definition select_max_id (d : DB) : option Z :=
  Sql.max_opt (map s_id (snapshots d)).

(** [ORDER BY created_at DESC]. *)
Definition newest_first (s1 s2 : Snapshot) : bool :=
  s_created_at s2 <=? s_created_at s1.

(** [SELECT id FROM snapshots ORDER BY created_at DESC]. *)
Definition select_ids_newest_first (d : DB) : list Z :=
  map s_id (Sql.order_by newest_first (snapshots d)).

(** [SELECT created_at FROM snapshots ORDER BY created_at DESC LIMIT 1]
    through [db.get]. *)
Definition select_last_created_at (d : DB) : option Z :=
  head (map s_created_at (Sql.order_by newest_first (snapshots d))).

(** [DELETE FROM snapshots WHERE id = ?]. *)
Definition delete_snapshot (id : Z) (d : DB) : DB :=
  {| channel_activity := channel_activity d;
     snapshots := List.filter (fun s => negb (s_id s =? id)) (snapshots d);
     snapshot_data := snapshot_data d;
     sqlite_sequence := sqlite_sequence d |}.

(** [UPDATE sqlite_sequence SET seq = ? WHERE name = 'snapshots']: changes
    the row if there is one. *)
Definition update_sequence (seq : Z) (d : DB) : DB :=
  {| channel_activity := channel_activity d;
     snapshots := snapshots d;
     snapshot_data := snapshot_data d;
     sqlite_sequence := match sqlite_sequence d with
                        | Some _ => Some seq
                        | None => None
                        end |}.

(** *** [snapshot_data] *)

Definition same_key (r1 r2 : SnapshotRecord) : bool :=
  (sd_snapshot_id r1 =? sd_snapshot_id r2)
  && String.eqb (sd_user_id r1) (sd_user_id r2)
  && String.eqb (sd_channel_id r1) (sd_channel_id r2).

(** Inserts the rows one after the other; the primary key rejects a row
    whose key is already present. *)
Fixpoint insert_rows (rows table : list SnapshotRecord) : option (list SnapshotRecord) :=
  match rows with
  | [] => Some table
  | r :: rows' =>
      if existsb (same_key r) table then None
      else insert_rows rows' (table ++ [r])
  end.

(** [INSERT INTO snapshot_data (snapshot_id, user_id, username, roles,
    channel_id, channel_name, message_count) VALUES (?,?,?,?,?,?,?), ...]:
    all rows of the statement, or none. *)
Definition insert_snapshot_data (rows : list SnapshotRecord) (d : DB) : option (unit * DB) :=
  match insert_rows rows (snapshot_data d) with
  | Some table =>
      Some (tt, {| channel_activity := channel_activity d;
                   snapshots := snapshots d;
                   snapshot_data := table;
                   sqlite_sequence := sqlite_sequence d |})
  | None => None
  end.

(** [DELETE FROM snapshot_data WHERE snapshot_id = ?]. *)
Definition delete_snapshot_data (id : Z) (d : DB) : DB :=
  {| channel_activity := channel_activity d;
     snapshots := snapshots d;
     snapshot_data := List.filter (fun r => negb (sd_snapshot_id r =? id)) (snapshot_data d);
     sqlite_sequence := sqlite_sequence d |}.

End Stmt.

(** ** [rolecctv.js]: ingestion *)

Definition TARGET_ROLES : list string :=
  [ "Super Prover"; "Proofer"; "PROVED UR LUV"; "Prover"; "PROOF OF ART";
    "PROOF OF DEV"; "PROOF OF MUSIC"; "PROOF OF WRITING"; "PROOF OF VIDEO";
    "Proof Verified" ]%string.

(** A guild member: [member.roles], when present, holds the names of the
    roles in [member.roles.cache]. *)
Record Member := {
  member_roles : option (list string)
}.

(** The parts of a gateway message that [processMessage] reads.
    [msg_guild_fetch] is what [message.guild.members.fetch(author.id)] does:
    [None] when [message.guild] is null (the property access throws),
    [Some None] when the fetch rejects and [.catch(() => null)] makes it
    null, [Some (Some m)] when it resolves to the member [m]. *)
Record Message := {
  msg_author_bot : bool;
  msg_author_id : string;
  msg_author_tag : string;
  msg_member : option Member;
  msg_guild_fetch : option (option Member);
  msg_channel_id : string;
  msg_channel_name : string
}.

Definition hasTargetRole (member : option Member) : bool :=
  match member with
  | None => false
  | Some m =>
      match member_roles m with
      | None => false
      | Some cache => existsb (fun role => Js.includes TARGET_ROLES role) cache
      end
  end.

Definition getUserRoles (member : option Member) : string :=
  match member with
  | None => ""%string
  | Some m =>
      match member_roles m with
      | None => ""%string
      | Some cache =>
          Js.join ", " (List.filter (fun role => negb (String.eqb role "@everyone")) cache)
      end
  end.

(** [processMessage(db, message)] at the instant [now]. *)
Definition processMessage (now : Z) (message : Message) : Async unit :=
  if msg_author_bot message then mret tt
  else
    try_catch
      (member ← match msg_member message with
                | Some m => mret (Some m)
                | None =>
                    match msg_guild_fetch message with
                    | None => Conn.throw TypeError
                    | Some fetched => mret fetched
                    end
                end;
       if negb (bool_decide (is_Some member)) || negb (hasTargetRole member)
       then mret tt
       else
         let userId := msg_author_id message in
         let username := msg_author_tag message in
         let roles := getUserRoles member in
         let channelId := msg_channel_id message in
         let channelName := msg_channel_name message in
         Conn.exec (Stmt.upsert_activity userId username roles channelId channelName now))
      (fun _ => mret tt).

(** ** [rolecctv.js]: snapshots *)

(** What [createSnapshot] resolves to when it made a snapshot. *)
Record SnapshotInfo := {
  info_id : Z;
  info_name : string;
  info_count : Z
}.

Definition chunkSize : nat := 1000.

(** The seven values pushed for one item of a chunk. *)
Definition snapshot_row (snapshotId : Z) (item : ActivityRecord) : SnapshotRecord :=
  {| sd_snapshot_id := snapshotId;
     sd_user_id := ca_user_id item;
     sd_username := ca_username item;
     sd_roles := ca_roles item;
     sd_channel_id := ca_channel_id item;
     sd_channel_name := ca_channel_name item;
     sd_message_count := ca_message_count item |}.

(** [for (let i = 0; i < data.length; i += chunkSize) { ... }], started at
    [i]; the loop body runs at most [data.length] times, which bounds the
    recursion. *)
Fixpoint insert_chunks (fuel i : nat) (snapshotId : Z) (data : list ActivityRecord)
    : Async unit :=
  match fuel with
  | O => mret tt
  | S fuel' =>
      if (i <? length data)%nat then
        let chunk := Js.slice i chunkSize data in
        _ ← Conn.run (Stmt.insert_snapshot_data (map (snapshot_row snapshotId) chunk));
        insert_chunks fuel' (i + chunkSize) snapshotId data
      else mret tt
  end.

(** The snapshot name: [now.toISOString().replace(/[:.]/g, '-')]. *)
Definition snapshot_name (now : Z) : string :=
  JsDate.replace_colon_dot (JsDate.toISOString now).

(** [createSnapshot(db)] at the instant [now]; [None] is [null]. *)
Definition createSnapshot (now : Z) : Async (option SnapshotInfo) :=
  _ ← Conn.note (CalledCreate now);
  try_catch
    (let name := snapshot_name now in
     _ ← Conn.begin_transaction;
     try_catch
       (snapshotId ← Conn.run (Stmt.insert_snapshot name now);
        data ← Conn.query Stmt.select_activity;
        if (length data =? 0)%nat then
          _ ← Conn.rollback;
          mret None
        else
          _ ← insert_chunks (length data) 0 snapshotId data;
          _ ← Conn.commit;
          mret (Some {| info_id := snapshotId; info_name := name;
                        info_count := Z.of_nat (length data) |}))
       (fun _ =>
          _ ← Conn.rollback;
          mret None))
    (fun _ => mret None).

(** [for (const id of snapshotsToDelete) { ... }]. *)
Fixpoint delete_each (ids : list Z) : Async unit :=
  match ids with
  | [] => mret tt
  | id :: ids' =>
      _ ← Conn.exec (Stmt.delete_snapshot_data id);
      _ ← Conn.exec (Stmt.delete_snapshot id);
      delete_each ids'
  end.

(** [cleanupOldSnapshots(db, keepCount = 100)]; the argument is [None] when
    the caller leaves it out. *)
Definition cleanupOldSnapshots (keepCountArg : option Z) : Async unit :=
  let keepCount := default 100 keepCountArg in
  _ ← Conn.note (CalledCleanup keepCount);
  try_catch
    (snaps ← Conn.query Stmt.select_ids_newest_first;
     if Z.of_nat (length snaps) <=? keepCount then mret tt
     else
       let snapshotsToDelete := Js.slice_from keepCount snaps in
       _ ← Conn.begin_transaction;
       try_catch
         (_ ← delete_each snapshotsToDelete;
          Conn.commit)
         (fun _ => Conn.rollback))
    (fun _ => mret tt).

(** [getLastSnapshotTime(db)]: the time value of the newest [created_at],
    [None] for [null]. *)
Definition getLastSnapshotTime : Async (option Z) :=
  try_catch
    (lastSnapshot ← Conn.query Stmt.select_last_created_at;
     mret (JsDate.parse_utc <$> lastSnapshot))
    (fun _ => mret None).

(** ** [rolecctv.js]: the scheduler *)

Definition SNAPSHOT_INTERVAL : Z := 1000 * 4 * 60 * 60.

(** The body shared by the interval callback and the first firing:
    [await createSnapshot(db); await cleanupOldSnapshots(db);]. *)
Definition scheduled_firing (now : Z) : Async unit :=
  _ ← createSnapshot now;
  cleanupOldSnapshots None.

(** The delay computed when a last snapshot exists. *)
Definition initial_delay (dateNow lastSnapshotTime : Z) : Z :=
  let now := dateNow - 1 * 60 * 60 * 1000 in
  let timeSinceLastSnapshot := now - lastSnapshotTime in
  if timeSinceLastSnapshot <? SNAPSHOT_INTERVAL
  then SNAPSHOT_INTERVAL - timeSinceLastSnapshot
  else 0.

(** [setupAutomaticSnapshots(db)]: the start-up task, up to and including
    its [setTimeout]; [now] is the clock while it runs. *)
Definition setupAutomaticSnapshots (now : Z) : Async unit :=
  lastSnapshotTime ← getLastSnapshotTime;
  initialDelay ← match lastSnapshotTime with
                 | Some last => mret (initial_delay now last)
                 | None =>
                     _ ← createSnapshot now;
                     _ ← cleanupOldSnapshots None;
                     mret 0
                 end;
  Conn.note (ArmedTimeout initialDelay).

(** The callback given to [setTimeout]: it arms the interval timer and
    runs a firing of its own. *)
Definition on_timeout (now : Z) : Async unit :=
  _ ← Conn.note (ArmedInterval SNAPSHOT_INTERVAL);
  scheduled_firing now.

(** The callback given to [setInterval]. *)
Definition on_interval (now : Z) : Async unit :=
  scheduled_firing now.

(** The host runs the interval callback at the instants [ts], in order. *)
Fixpoint run_intervals (ts : list Z) : Async unit :=
  match ts with
  | [] => mret tt
  | t :: ts' => _ ← on_interval t; run_intervals ts'
  end.

(** The scheduler from process start: the start-up task at [start], the
    timeout callback at [first], the interval callback at [later]. *)
Definition run_scheduler (start first : Z) (later : list Z) : Async unit :=
  _ ← setupAutomaticSnapshots start;
  _ ← on_timeout first;
  run_intervals later.

(** ** [server.js]: the snapshot routes *)

(** The routes run after [apiKeyAuth] has let the request through.  The
    [:id] parameter is the decimal text of an integer; it reaches the
    integer columns as that integer ([parseInt] in the delete route, the
    column affinity in the get route). *)

(** Replies of [DELETE /api/snapshots/:id]. *)
Inductive DeleteResponse :=
  | DeleteOk (autoIncrementReset : bool)   (* 200 { success: true, ... } *)
  | DeleteNotFound                         (* 404 *)
  | DeleteFailed.                          (* 500 *)

(** [newMaxIdResult.maxId || 0]. *)
Definition maxId_or_zero (maxId : option Z) : Z :=
  match maxId with
  | Some m => if m =? 0 then 0 else m
  | None => 0
  end.

(** [snapshotId === maxIdResult.maxId]. *)
Definition is_max_id (snapshotId : Z) (maxId : option Z) : bool :=
  match maxId with
  | Some m => snapshotId =? m
  | None => false
  end.

(** [app.delete('/api/snapshots/:id', ...)]. *)
Definition delete_snapshot_route (snapshotId : Z) : Async DeleteResponse :=
  try_catch
    (snapshot ← Conn.query (Stmt.select_snapshot_id snapshotId);
     match snapshot with
     | None => mret DeleteNotFound
     | Some _ =>
         maxIdResult ← Conn.query Stmt.select_max_id;
         let isLastSnapshot := is_max_id snapshotId maxIdResult in
         _ ← Conn.begin_transaction;
         try_catch
           (_ ← Conn.exec (Stmt.delete_snapshot_data snapshotId);
            _ ← Conn.exec (Stmt.delete_snapshot snapshotId);
            _ ← (if isLastSnapshot then
                   newMaxIdResult ← Conn.query Stmt.select_max_id;
                   let newMaxId := maxId_or_zero newMaxIdResult in
                   Conn.exec (Stmt.update_sequence newMaxId)
                 else mret tt);
            _ ← Conn.commit;
            mret (DeleteOk isLastSnapshot))
           (fun _ =>
              _ ← Conn.rollback;
              mret DeleteFailed)
     end)
    (fun _ => mret DeleteFailed).

(** One element of a user's [channels] array. *)
Record ChannelView := {
  cv_channel_id : string;
  cv_channel_name : string;
  cv_message_count : Z
}.

(** One row of the per-user summary query. *)
Record UserTotal := {
  ut_user_id : string;
  ut_username : string;
  ut_roles : string;
  ut_total_messages : Z
}.

(** One element of [users] in the reply: [{ ...user, channels }]. *)
Record UserView := {
  uv_user : UserTotal;
  uv_channels : list ChannelView
}.

(** One row of the listing. *)
Record SnapshotListing := {
  sl_snapshot : Snapshot;
  sl_record_count : Z
}.

(** Replies of [GET /api/snapshots/:id?]. *)
Inductive GetResponse :=
  | GetList (snapshots : list SnapshotListing)
  | GetOne (snapshot : Snapshot) (users : list UserView)
  | GetNotFound                            (* 404 *)
  | GetFailed.                             (* 500 *)

Module Query.

Definition of_snapshot (id : Z) (d : DB) : list SnapshotRecord :=
  List.filter (fun r => sd_snapshot_id r =? id) (snapshot_data d).

(** [SELECT id, name, created_at, (SELECT COUNT( * ) FROM snapshot_data
    WHERE snapshot_id = snapshots.id) as record_count FROM snapshots
    ORDER BY created_at DESC]. *)
Definition select_listing (d : DB) : list SnapshotListing :=
  map (fun s => {| sl_snapshot := s;
                   sl_record_count := Z.of_nat (length (of_snapshot (s_id s) d)) |})
      (Sql.order_by Stmt.newest_first (snapshots d)).

(** The distinct values of a list, in order of first occurrence. *)
Fixpoint distinct (l : list string) : list string :=
  match l with
  | [] => []
  | x :: l' => x :: List.filter (fun y => negb (String.eqb y x)) (distinct l')
  end.

Definition of_user (user : string) (rows : list SnapshotRecord) : list SnapshotRecord :=
  List.filter (fun r => String.eqb (sd_user_id r) user) rows.

(** The order of the index that the primary key [(snapshot_id, user_id,
    channel_id)] gives [snapshot_data], within one snapshot: by [user_id],
    then [channel_id]; text compares bytewise. *)
Definition by_user_then_channel (r1 r2 : SnapshotRecord) : bool :=
  match String.compare (sd_user_id r1) (sd_user_id r2) with
  | Lt => true
  | Eq => match String.compare (sd_channel_id r1) (sd_channel_id r2) with
          | Gt => false
          | _ => true
          end
  | Gt => false
  end.

(** [FROM snapshot_data WHERE snapshot_id = ?], for a query that groups or
    orders by [user_id]: SQLite answers it through the index of the
    primary key, so the rows of the snapshot are visited in the order of
    that index, whatever their rowids. *)
Definition index_scan (id : Z) (d : DB) : list SnapshotRecord :=
  Sql.order_by by_user_then_channel (of_snapshot id d).

(** One output row of [GROUP BY user_id]: the sum over the group, and the
    bare columns [username], [roles], which SQLite takes from the first
    row of the group that the scan visits. *)
Definition aggregate (user : string) (group : list SnapshotRecord) : UserTotal :=
  {| ut_user_id := user;
     ut_username := default ""%string (head (map sd_username group));
     ut_roles := default ""%string (head (map sd_roles group));
     ut_total_messages := Sql.sum (map sd_message_count group) |}.

(** [SELECT user_id, username, roles, SUM(message_count) as total_messages
    FROM snapshot_data WHERE snapshot_id = ? GROUP BY user_id
    ORDER BY total_messages DESC]; groups with equal totals stay in the
    order of the scan, that of [user_id]. *)
Definition select_user_totals (id : Z) (d : DB) : list UserTotal :=
  let rows := index_scan id d in
  let groups := map (fun user => aggregate user (of_user user rows))
                    (distinct (map sd_user_id rows)) in
  Sql.order_by (fun u1 u2 => ut_total_messages u2 <=? ut_total_messages u1) groups.

(** [SELECT user_id, channel_id, channel_name, message_count FROM
    snapshot_data WHERE snapshot_id = ? ORDER BY user_id, message_count DESC];
    rows of one user with equal counts stay in the order of the scan, that
    of [channel_id]. *)
Definition select_channel_activity (id : Z) (d : DB) : list SnapshotRecord :=
  Sql.order_by
    (fun r1 r2 => Stmt.by_user_then_count (sd_user_id r1) (sd_message_count r1)
                                          (sd_user_id r2) (sd_message_count r2))
    (index_scan id d).

End Query.

Definition channel_view (activity : SnapshotRecord) : ChannelView :=
  {| cv_channel_id := sd_channel_id activity;
     cv_channel_name := sd_channel_name activity;
     cv_message_count := sd_message_count activity |}.

(** The body of [channelActivity.forEach(activity => { ... })] on the object
    [userChannels].  Its keys are user ids, which are strings of decimal
    digits, so no key meets a property inherited from [Object.prototype]:
    every key is a [Js.plain_key], and the object is the map of what was
    stored in it. *)
Definition push_channel (userChannels : gmap string (list ChannelView))
    (activity : SnapshotRecord) : gmap string (list ChannelView) :=
  let present := default [] (userChannels !! sd_user_id activity) in
  <[ sd_user_id activity := present ++ [channel_view activity] ]> userChannels.

Definition group_channels (channelActivity : list SnapshotRecord)
    : gmap string (list ChannelView) :=
  foldl push_channel ∅ channelActivity.

(** [app.get('/api/snapshots/:id?', ...)]; [None] when the path has no id. *)
Definition get_snapshots_route (snapshotId : option Z) : Async GetResponse :=
  try_catch
    (match snapshotId with
     | None =>
         snapshots ← Conn.query Query.select_listing;
         mret (GetList snapshots)
     | Some id =>
         snapshot ← Conn.query (Stmt.select_snapshot id);
         match snapshot with
         | None => mret GetNotFound
         | Some snapshot =>
             users ← Conn.query (Query.select_user_totals id);
             channelActivity ← Conn.query (Query.select_channel_activity id);
             let userChannels := group_channels channelActivity in
             let usersWithChannels :=
               map (fun user =>
                      {| uv_user := user;
                         uv_channels := default [] (userChannels !! ut_user_id user) |})
                   users in
             mret (GetOne snapshot usersWithChannels)
         end
     end)
    (fun _ => mret GetFailed).

(** ** Running the program on a concrete database *)

(** A message from a member holding the monitored role ["Prover"]. *)
Definition prover_message (userId tag channelId channelName : string) : Message :=
  {| msg_author_bot := false;
     msg_author_id := userId;
     msg_author_tag := tag;
     msg_member := Some {| member_roles := Some ["@everyone"; "Prover"]%string |};
     msg_guild_fetch := None;
     msg_channel_id := channelId;
     msg_channel_name := channelName |}.

(** The outcome and the tables after running [m] on a fresh connection. *)
Definition result_of {A} (m : Async A) (d : DB) : Outcome A * DB :=
  let (r, w) := m (Conn.open d []) in (r, store w).

Definition db_after {A} (m : Async A) (d : DB) : DB := snd (result_of m d).

(** ** Outcomes of a run, and what the snapshot procedures commit *)

(** [wp m Q w]: running [m] from [w] ends in an outcome and a world that
    satisfy [Q]. *)
Definition wp {A} (m : Async A) (Q : Outcome A -> World -> Prop) (w : World) : Prop :=
  Q (m w).1 (m w).2.

(** A world without storage errors ahead. *)
Definition quiet (w : World) : Prop := faults w = [].

(** [calm w w']: the calls made on the connection between [w] and [w']
    met no storage error. *)
Definition calm (w w' : World) : Prop :=
  exists n : nat,
    issued w' = (issued w + n)%nat /\
    faults w' = drop n (faults w) /\
    Forall (fun fault => fault = false) (take n (faults w)).

(** Some call made between [w] and [w'] met a storage error. *)
Definition met_storage_error (w w' : World) : Prop :=
  exists k : nat, (k < issued w' - issued w)%nat /\ faults w !! k = Some true.

(** The database [d] with [rows] as its [snapshot_data] table. *)
Definition put_snapshot_data (d : DB) (rows : list SnapshotRecord) : DB :=
  {| channel_activity := channel_activity d; snapshots := snapshots d;
     snapshot_data := rows; sqlite_sequence := sqlite_sequence d |}.

(** What a snapshot taken at [now] commits, and what it reports: the new
    row of [snapshots], the frozen copy of every activity row. *)
Definition snapshot_taken (now : Z) (d : DB) : option (SnapshotInfo * DB) :=
  match Stmt.insert_snapshot (snapshot_name now) now d with
  | None => None
  | Some (id, d1) =>
      let data := Stmt.select_activity d1 in
      if (length data =? 0)%nat then None
      else match Stmt.insert_rows (map (snapshot_row id) data) (snapshot_data d1) with
           | None => None
           | Some rows =>
               Some ({| info_id := id; info_name := snapshot_name now;
                        info_count := Z.of_nat (length data) |},
                     put_snapshot_data d1 rows)
           end
  end.

(** The two [DELETE] statements issued for one snapshot. *)
Definition delete_one (id : Z) (d : DB) : DB :=
  Stmt.delete_snapshot id (Stmt.delete_snapshot_data id d).

(** What [DELETE /api/snapshots/:id] commits for an existing snapshot, and
    the [autoIncrementReset] flag it reports. *)
Definition snapshot_deleted (id : Z) (d : DB) : option (bool * DB) :=
  match Stmt.select_snapshot_id id d with
  | None => None
  | Some _ =>
      let isLastSnapshot := is_max_id id (Stmt.select_max_id d) in
      let d2 := delete_one id d in
      Some (isLastSnapshot,
            if isLastSnapshot
            then Stmt.update_sequence (maxId_or_zero (Stmt.select_max_id d2)) d2
            else d2)
  end.

(** What [cleanupOldSnapshots] commits for the keep count [keepCount]. *)
Definition pruned (keepCount : Z) (d : DB) : DB :=
  let snaps := Stmt.select_ids_newest_first d in
  if Z.of_nat (length snaps) <=? keepCount then d
  else foldl (fun d' id => delete_one id d') d (Js.slice_from keepCount snaps).

(** ** Well-formed databases *)

Definition activity_key (r : ActivityRecord) : string * string :=
  (ca_user_id r, ca_channel_id r).

Definition data_key (r : SnapshotRecord) : Z * string * string :=
  (sd_snapshot_id r, sd_user_id r, sd_channel_id r).

(** What the schema and the AUTOINCREMENT bookkeeping maintain: the
    primary keys and [UNIQUE(name)], every [snapshot_data] row owned by a
    row of [snapshots], ids from 1 up to the recorded sequence. *)
Definition wf_db (d : DB) : Prop :=
  NoDup (map activity_key (channel_activity d)) /\
  NoDup (map s_id (snapshots d)) /\
  NoDup (map s_name (snapshots d)) /\
  NoDup (map data_key (snapshot_data d)) /\
  Forall (fun r => sd_snapshot_id r ∈ map s_id (snapshots d)) (snapshot_data d) /\
  Forall (fun s => 1 <= s_id s /\ s_id s <= default 0 (sqlite_sequence d)) (snapshots d).

#[global] Instance wf_db_dec d : Decision (wf_db d).
Proof. unfold wf_db. apply _. Defined.

(** ** Sample data *)

Definition sample_instant : Z := 1794637245678.

(** Three messages of two members in two channels. *)
Definition sample_activity : DB :=
  db_after (_ ← processMessage sample_instant (prover_message "11" "ann#1" "c1" "general");
            _ ← processMessage (sample_instant + 5) (prover_message "11" "ann#2" "c2" "random");
            _ ← processMessage (sample_instant + 7) (prover_message "22" "bob#1" "c1" "general");
            processMessage (sample_instant + 9) (prover_message "11" "ann#3" "c1" "lobby"))
           empty_db.

(** The same after three snapshots, one second apart: ids 1, 2, 3. *)
Definition sample_three : DB :=
  db_after (_ ← createSnapshot (sample_instant + 1000);
            _ ← createSnapshot (sample_instant + 2000);
            createSnapshot (sample_instant + 3000))
           sample_activity.

(** ** Ingesting a sequence of messages *)

(** The member [processMessage] works with: [message.member], or else what
    the fetch resolved to. *)
Definition resolved_member (message : Message) : option Member :=
  match msg_member message with
  | Some m => Some m
  | None => match msg_guild_fetch message with
            | Some fetched => fetched
            | None => None
            end
  end.

(** The messages that count: not from a bot, from a member with a
    monitored role. *)
Definition qualifies (message : Message) : bool :=
  negb (msg_author_bot message) && hasTargetRole (resolved_member message).

(** The upsert [processMessage] issues for a message that counts. *)
Definition upsert_of (now : Z) (message : Message) : DB -> DB :=
  Stmt.upsert_activity (msg_author_id message) (msg_author_tag message)
    (getUserRoles (resolved_member message))
    (msg_channel_id message) (msg_channel_name message) now.

(** [processMessage] on the messages [msgs], each with its instant, one
    after the other. *)
Fixpoint process_all (msgs : list (Z * Message)) : Async unit :=
  match msgs with
  | [] => mret tt
  | (now, message) :: rest => _ ← processMessage now message; process_all rest
  end.

(** The rows of the identity [(userId, channelId)]. *)
Definition rows_of (userId channelId : string) (d : DB) : list ActivityRecord :=
  List.filter (Stmt.same_identity userId channelId) (channel_activity d).

(** The messages of the identity [(userId, channelId)]. *)
Definition messages_of (userId channelId : string) (msgs : list (Z * Message))
    : list (Z * Message) :=
  List.filter (fun tm => String.eqb (msg_author_id (snd tm)) userId
                         && String.eqb (msg_channel_id (snd tm)) channelId) msgs.

(** The count recorded so far for an identity: zero without a row. *)
Definition prior_count (userId channelId : string) (d : DB) : Z :=
  Sql.sum (map ca_message_count (rows_of userId channelId d)).

(** The upserts of the messages [msgs], in order. *)
Definition record_all (msgs : list (Z * Message)) (d : DB) : DB :=
  foldl (fun d' tm => upsert_of (fst tm) (snd tm) d') d msgs.

(** The four sample messages with their instants. *)
Definition sample_messages : list (Z * Message) :=
  [ (sample_instant, prover_message "11" "ann#1" "c1" "general");
    (sample_instant + 5, prover_message "11" "ann#2" "c2" "random");
    (sample_instant + 7, prover_message "22" "bob#1" "c1" "general");
    (sample_instant + 9, prover_message "11" "ann#3" "c1" "lobby") ].

(** Five snapshots, one second apart: ids 1 to 5. *)
Definition sample_five : DB :=
  db_after (_ ← createSnapshot (sample_instant + 4000);
            createSnapshot (sample_instant + 5000))
           sample_three.

(** A connection to the sample database on which the fourth call from now
    meets a storage error. *)
Definition failing_fourth_call : World :=
  Conn.open sample_three [false; false; false; true].

(** The instants of [n] firings of the interval timer, four hours apart. *)
Definition every_four_hours (n : nat) : list Z :=
  map (fun k => sample_instant + 14400000 * Z.of_nat k) (seq 1 n).

(** ** What the get route shows *)

Definition user_of (uv : UserView) : string := ut_user_id (uv_user uv).

(** The [users] array built for the snapshot [id]. *)
Definition users_view (id : Z) (d : DB) : list UserView :=
  let userChannels := group_channels (Query.select_channel_activity id d) in
  map (fun user => {| uv_user := user;
                      uv_channels := default [] (userChannels !! ut_user_id user) |})
      (Query.select_user_totals id d).

(** The channel entry of an activity row. *)
Definition activity_view (r : ActivityRecord) : ChannelView :=
  {| cv_channel_id := ca_channel_id r;
     cv_channel_name := ca_channel_name r;
     cv_message_count := ca_message_count r |}.

(** The activity rows of a user. *)
Definition activity_of_user (user : string) (d : DB) : list ActivityRecord :=
  List.filter (fun r => String.eqb (ca_user_id r) user) (channel_activity d).

(** ** Orders on names and instants *)

(** Lexicographic composition of comparisons. *)
Definition then_cmp (c1 c2 : comparison) : comparison :=
  match c1 with
  | Eq => c2
  | _ => c1
  end.

(** The instants whose ISO form has a four-digit year: from
    0000-01-01T00:00:00.000Z to 9999-12-31T23:59:59.999Z. *)
Definition four_digit_year (t : Z) : Prop :=
  -62167219200000 <= t <= 253402300799999.

(** ** [rolecctv.js]: the statistics queries *)

(** One row of the per-user statistics. *)
Record UserStats := {
  us_user_id : string;
  us_username : string;
  us_roles : string;
  us_total_messages : Z;
  us_last_seen : Z
}.

(** One row of a user's per-channel statistics. *)
Record ChannelStats := {
  cs_channel_id : string;
  cs_channel_name : string;
  cs_message_count : Z;
  cs_last_message : Z
}.

Module Report.

(** [LIMIT ?]: a negative limit is no limit. *)
Definition limit {A} (n : Z) (rows : list A) : list A :=
  if n <? 0 then rows else take (Z.to_nat n) rows.

(** The row in which [MAX(last_message)] is found, for a group that starts
    with [r]: the first row, in scan order, with the greatest value. *)
Fixpoint latest (r : ActivityRecord) (rest : list ActivityRecord) : ActivityRecord :=
  match rest with
  | [] => r
  | r' :: rest' =>
      latest (if ca_last_message r <? ca_last_message r' then r' else r) rest'
  end.

(** One output row of [GROUP BY user_id]: the sum and the maximum over the
    group; with a single [MAX] in the query, SQLite takes the bare columns
    [username] and [roles] from the row that holds the maximum.  A group
    is never empty. *)
Definition aggregate (user : string) (group : list ActivityRecord) : option UserStats :=
  match group with
  | [] => None
  | r :: rest =>
      Some {| us_user_id := user;
              us_username := ca_username (latest r rest);
              us_roles := ca_roles (latest r rest);
              us_total_messages := Sql.sum (map ca_message_count group);
              us_last_seen := foldr Z.max (ca_last_message r) (map ca_last_message rest) |}
  end.

Definition by_user (r1 r2 : ActivityRecord) : bool :=
  match String.compare (ca_user_id r1) (ca_user_id r2) with
  | Gt => false
  | _ => true
  end.

(** [ORDER BY total_messages DESC]. *)
Definition most_active_first (u1 u2 : UserStats) : bool :=
  us_total_messages u2 <=? us_total_messages u1.

(** [SELECT user_id, username, roles, SUM(message_count) as total_messages,
    MAX(last_message) as last_seen FROM channel_activity GROUP BY user_id
    ORDER BY total_messages DESC LIMIT ?].  Users with equal totals come in
    an order that SQL leaves open; here it is that of [user_id]. *)
Definition select_user_stats (n : Z) (d : DB) : list UserStats :=
  let rows := Sql.order_by by_user (channel_activity d) in
  let groups :=
    omap (fun user =>
            aggregate user (List.filter (fun r => String.eqb (ca_user_id r) user) rows))
         (Query.distinct (map ca_user_id rows)) in
  limit n (Sql.order_by most_active_first groups).

Definition channel_stats (r : ActivityRecord) : ChannelStats :=
  {| cs_channel_id := ca_channel_id r;
     cs_channel_name := ca_channel_name r;
     cs_message_count := ca_message_count r;
     cs_last_message := ca_last_message r |}.

(** [ORDER BY message_count DESC]. *)
Definition busiest_first (r1 r2 : ActivityRecord) : bool :=
  ca_message_count r2 <=? ca_message_count r1.

(** [SELECT channel_id, channel_name, message_count, last_message FROM
    channel_activity WHERE user_id = ? ORDER BY message_count DESC]. *)
Definition select_channel_stats (userId : string) (d : DB) : list ChannelStats :=
  map channel_stats
      (Sql.order_by busiest_first
         (List.filter (fun r => String.eqb (ca_user_id r) userId) (channel_activity d))).

End Report.

(** [getRoleUserStats(db, limit = 20)]; the argument is [None] when the
    caller leaves it out. *)
Definition getRoleUserStats (limitArg : option Z) : Async (list UserStats) :=
  let limit := default 20 limitArg in
  try_catch
    (users ← Conn.query (Report.select_user_stats limit);
     mret users)
    (fun _ => mret []).

(** [getUserChannelStats(db, userId)]. *)
Definition getUserChannelStats (userId : string) : Async (list ChannelStats) :=
  try_catch
    (channels ← Conn.query (Report.select_channel_stats userId);
     mret channels)
    (fun _ => mret []).

(** ** [server.js]: the API key and the guarded routes *)

(** [process.env.API_KEY || 'default-api-key']; [env] is the variable,
    [None] when it is not set. *)
Definition API_KEY (env : option string) : string :=
  match env with
  | Some key => if String.eqb key "" then "default-api-key"%string else key
  | None => "default-api-key"%string
  end.

(** [apiKeyAuth]: [true] when it calls [next()], [false] when it answers
    401.  [providedKey] is the header [x-api-key], [None] when the request
    has none. *)
Definition apiKeyAuth (apiKey : string) (providedKey : option string) : bool :=
  match providedKey with
  | None => false
  | Some key =>
      if String.eqb key "" || negb (String.eqb key apiKey) then false else true
  end.

(** What a guarded route answers: 401 from the middleware, or the reply
    of its handler. *)
Inductive Guarded (A : Type) :=
  | Unauthorized
  | Handled (reply : A).
Arguments Unauthorized {A}.
Arguments Handled {A} reply.

(** [app.METHOD(path, apiKeyAuth, handler)]: the handler runs only when
    the middleware calls [next()]. *)
Definition guarded {A} (env providedKey : option string) (handler : Async A)
    : Async (Guarded A) :=
  if apiKeyAuth (API_KEY env) providedKey then
    reply ← handler;
    mret (Handled reply)
  else mret Unauthorized.

Definition delete_endpoint (env providedKey : option string) (snapshotId : Z)
    : Async (Guarded DeleteResponse) :=
  guarded env providedKey (delete_snapshot_route snapshotId).

Definition get_endpoint (env providedKey : option string) (snapshotId : option Z)
    : Async (Guarded GetResponse) :=
  guarded env providedKey (get_snapshots_route snapshotId).

(** ** [server.js]: what the process reacts to *)

(** [process.on('SIGINT', ...)]: a final snapshot, then the process exits. *)
Definition on_sigint (now : Z) : Async unit :=
  _ ← createSnapshot now;
  mret tt.

(** What the host hands to the program: a gateway message, the start of
    the scheduler, a firing of one of its timers, the interrupt signal, a
    request to one of the two snapshot routes. *)
Inductive Request :=
  | GotMessage (now : Z) (message : Message)
  | SchedulerStarted (now : Z)
  | TimeoutFired (now : Z)
  | IntervalFired (now : Z)
  | Interrupted (now : Z)
  | DeleteRequested (providedKey : option string) (snapshotId : Z)
  | GetRequested (providedKey : option string) (snapshotId : option Z).

Definition serve (env : option string) (request : Request) : Async unit :=
  match request with
  | GotMessage now message => processMessage now message
  | SchedulerStarted now => setupAutomaticSnapshots now
  | TimeoutFired now => on_timeout now
  | IntervalFired now => on_interval now
  | Interrupted now => on_sigint now
  | DeleteRequested providedKey snapshotId =>
      _ ← delete_endpoint env providedKey snapshotId; mret tt
  | GetRequested providedKey snapshotId =>
      _ ← get_endpoint env providedKey snapshotId; mret tt
  end.

(** The handlers of the requests [requests], each run to its end before
    the next starts. *)
Fixpoint serve_all (env : option string) (requests : list Request) : Async unit :=
  match requests with
  | [] => mret tt
  | request :: rest => _ ← serve env request; serve_all env rest
  end.

(** ** Quantities the further properties speak of *)

(** All messages counted in the store. *)
Definition total_messages (d : DB) : Z :=
  Sql.sum (map ca_message_count (channel_activity d)).

(** What the get route answers on the database [d] when no call meets a
    storage error. *)
Definition get_reply (snapshotId : option Z) (d : DB) : GetResponse :=
  match snapshotId with
  | None => GetList (Query.select_listing d)
  | Some id =>
      match Stmt.select_snapshot id d with
      | None => GetNotFound
      | Some snapshot => GetOne snapshot (users_view id d)
      end
  end.

(** The ids of the snapshots ascend in table order. *)
Definition ids_ascending (d : DB) : Prop :=
  StronglySorted Z.lt (map s_id (snapshots d)).

(** The number of [INSERT] statements that write [n] rows in chunks. *)
Definition chunks_of (n : nat) : nat :=
  ((n + chunkSize - 1) / chunkSize)%nat.

(** A database with the sample activity and two snapshots of it, with the
    ids 1 and 3. *)
Definition sample_gap : DB :=
  db_after (delete_snapshot_route 2) sample_three.

(** A database in order: well formed, the ids ascending. *)
Definition in_order (d : DB) : Prop := wf_db d /\ ids_ascending d.

(** [m], run from [w], resolves, and leaves no transaction open and a
    database that satisfies [I]. *)
Definition settles {A} (I : DB -> Prop) (m : Async A) (w : World) : Prop :=
  wp m (fun r w' => (exists a, r = Returned a) /\ txn w' = None /\ I (store w')) w.

(** An activity store with [n] rows of one member, in [n] channels. *)
Definition busy_store (n : nat) : DB :=
  {| channel_activity :=
       map (fun k => {| ca_user_id := "11"; ca_username := "ann#1"; ca_roles := "Prover";
                        ca_channel_id := JsDate.pad 4 (Z.of_nat k) "";
                        ca_channel_name := "general";
                        ca_message_count := Z.of_nat k;
                        ca_last_message := 0 |})
           (seq 1 n);
     snapshots := []; snapshot_data := []; sqlite_sequence := None |}.

(** Requests of every kind, one of them with a wrong key. *)
Definition sample_requests : list Request :=
  [ SchedulerStarted (sample_instant + 4000);
    GotMessage (sample_instant + 4100) (prover_message "33" "cyd#1" "c2" "random");
    DeleteRequested (Some "default-api-key"%string) 2;
    TimeoutFired (sample_instant + 5000);
    GetRequested (Some "default-api-key"%string) (Some 3);
    DeleteRequested (Some "guess"%string) 1;
    IntervalFired (sample_instant + 6000);
    DeleteRequested (Some "default-api-key"%string) 5;
    Interrupted (sample_instant + 7000) ].

(** Of a run of [createSnapshot]: the count it reports, the calls made on
    the connection, the rows that [snapshot_data] holds afterwards. *)
Definition tally (run : Outcome (option SnapshotInfo) * World) : option Z * nat * nat :=
  (match run.1 with
   | Returned (Some info) => Some (info_count info)
   | _ => None
   end,
   issued run.2,
   length (snapshot_data (store run.2))).

(** Every stored count is at least one. *)
Definition counts_positive (d : DB) : Prop :=
  Forall (fun r => 1 <= ca_message_count r) (channel_activity d) /\
  Forall (fun r => 1 <= sd_message_count r) (snapshot_data d).

(** ** What the scheduler leaves when nothing fails *)

(** The tables after a call of [createSnapshot] on a connection with no
    transaction open and no storage error: with the snapshot, when one is
    taken, and as before otherwise. *)
Definition snapshot_or_same (now : Z) (d : DB) : DB :=
  match snapshot_taken now d with
  | Some (_, d1) => d1
  | None => d
  end.

(** The tables after [await createSnapshot(db); await
    cleanupOldSnapshots(db);]: the pruning, with the keep count 100, works
    on what the snapshot has left. *)
Definition fired (now : Z) (d : DB) : DB :=
  pruned 100 (snapshot_or_same now d).

(** The tables after firings at the instants [ts], in order. *)
Definition fired_all (ts : list Z) (d : DB) : DB :=
  foldl (fun d' t => fired t d') d ts.

(** No user of the snapshot [id] has an id that names a property inherited
    from [Object.prototype]. *)
Definition plain_user_ids (id : Z) (d : DB) : Prop :=
  Forall (fun r => Js.plain_key (sd_user_id r) = true) (Query.of_snapshot id d).

(** The sample store after a hundred firings, four hours apart: snapshots
    1 to 100. *)
Definition sample_hundred : DB :=
  db_after (run_intervals (every_four_hours 100)) sample_activity.

(** Eight messages of two members: member 11 writes in [c9] first, then in
    [c1] and [c5], and ends with two messages each in [c9] and [c1]. *)
Definition tied_activity : DB :=
  db_after (process_all
              [ (sample_instant, prover_message "11" "ann#1" "c9" "late");
                (sample_instant + 1, prover_message "22" "bob#1" "c1" "general");
                (sample_instant + 2, prover_message "11" "ann#2" "c1" "general");
                (sample_instant + 3, prover_message "11" "ann#3" "c9" "late");
                (sample_instant + 4, prover_message "11" "ann#4" "c1" "general");
                (sample_instant + 5, prover_message "11" "ann#5" "c5" "random");
                (sample_instant + 6, prover_message "11" "ann#5" "c5" "random");
                (sample_instant + 7, prover_message "11" "ann#6" "c5" "random") ])
           empty_db.

(** A connection to the sample database with a transaction open on it. *)
Definition in_transaction : World :=
  Conn.with_txn (Conn.open sample_three []) sample_three (Some sample_three).


(** * Properties *)

(** ** Reasoning about asynchronous actions *)

Section WpRules.
Context {A B : Type}.

Lemma wp_ret (a : A) (Q : Outcome A -> World -> Prop) w :
  Q (Returned a) w -> wp (mret a) Q w.
Proof. exact (fun H => H). Qed.

Lemma wp_bind (m : Async A) (k : A -> Async B) (Q : Outcome B -> World -> Prop) w :
  wp m (fun r w' => match r with
                    | Returned a => wp (k a) Q w'
                    | Thrown e => Q (Thrown e) w'
                    end) w ->
  wp (m ≫= k) Q w.
Proof.
  unfold wp, mbind, Async_bind.
  destruct (m w) as [[a|e] w']; simpl; auto.
Qed.

Lemma wp_try (body : Async A) (handler : Error -> Async A)
    (Q : Outcome A -> World -> Prop) w :
  wp body (fun r w' => match r with
                       | Returned a => Q (Returned a) w'
                       | Thrown e => wp (handler e) Q w'
                       end) w ->
  wp (try_catch body handler) Q w.
Proof.
  unfold wp, try_catch.
  destruct (body w) as [[a|e] w']; simpl; auto.
Qed.

Lemma wp_mono (m : Async A) (Q Q' : Outcome A -> World -> Prop) w :
  wp m Q w -> (forall r w', Q r w' -> Q' r w') -> wp m Q' w.
Proof. unfold wp. auto. Qed.

Lemma wp_run (stmt : DB -> option (A * DB)) (Q : Outcome A -> World -> Prop) w :
  (Conn.faulty w = true -> Q (Thrown StorageFault) (Conn.tick w)) ->
  (Conn.faulty w = false ->
   match stmt (store w) with
   | Some (a, d) => Q (Returned a) (Conn.with_store (Conn.tick w) d)
   | None => Q (Thrown ConstraintViolation) (Conn.tick w)
   end) ->
  wp (Conn.run stmt) Q w.
Proof.
  unfold wp, Conn.run. intros Hf Hs.
  destruct (Conn.faulty w); [auto|].
  specialize (Hs eq_refl). destruct (stmt (store w)) as [[a d]|]; auto.
Qed.

Lemma wp_query (q : DB -> A) (Q : Outcome A -> World -> Prop) w :
  (Conn.faulty w = true -> Q (Thrown StorageFault) (Conn.tick w)) ->
  (Conn.faulty w = false ->
   Q (Returned (q (store w))) (Conn.with_store (Conn.tick w) (store w))) ->
  wp (Conn.query q) Q w.
Proof. intros Hf Hs. apply wp_run; auto. Qed.

Lemma wp_throw (e : Error) (Q : Outcome A -> World -> Prop) w :
  Q (Thrown e) w -> wp (Conn.throw e) Q w.
Proof. exact (fun H => H). Qed.

End WpRules.

Lemma wp_exec (stmt : DB -> DB) (Q : Outcome unit -> World -> Prop) w :
  (Conn.faulty w = true -> Q (Thrown StorageFault) (Conn.tick w)) ->
  (Conn.faulty w = false ->
   Q (Returned tt) (Conn.with_store (Conn.tick w) (stmt (store w)))) ->
  wp (Conn.exec stmt) Q w.
Proof. intros Hf Hs. apply wp_run; auto. Qed.

Lemma wp_begin (Q : Outcome unit -> World -> Prop) w :
  (Conn.faulty w = true -> Q (Thrown StorageFault) (Conn.tick w)) ->
  (Conn.faulty w = false ->
   match txn w with
   | Some _ => Q (Thrown TransactionState) (Conn.tick w)
   | None => Q (Returned tt) (Conn.with_txn (Conn.tick w) (store w) (Some (store w)))
   end) ->
  wp Conn.begin_transaction Q w.
Proof.
  unfold wp, Conn.begin_transaction. intros Hf Hs.
  destruct (Conn.faulty w); [auto|].
  specialize (Hs eq_refl). destruct (txn w); auto.
Qed.

Lemma wp_commit (Q : Outcome unit -> World -> Prop) w :
  (Conn.faulty w = true -> Q (Thrown StorageFault) (Conn.tick w)) ->
  (Conn.faulty w = false ->
   match txn w with
   | Some _ => Q (Returned tt) (Conn.with_txn (Conn.tick w) (store w) None)
   | None => Q (Thrown TransactionState) (Conn.tick w)
   end) ->
  wp Conn.commit Q w.
Proof.
  unfold wp, Conn.commit. intros Hf Hs.
  destruct (Conn.faulty w); [auto|].
  specialize (Hs eq_refl). destruct (txn w); auto.
Qed.

Lemma wp_rollback (Q : Outcome unit -> World -> Prop) w :
  match txn w with
  | Some d0 => Q (Returned tt) (Conn.with_txn (Conn.tick w) d0 None)
  | None => Q (Thrown TransactionState) (Conn.tick w)
  end ->
  wp Conn.rollback Q w.
Proof. unfold wp, Conn.rollback. destruct (txn w); auto. Qed.

Lemma wp_note (e : Event) (Q : Outcome unit -> World -> Prop) w :
  Q (Returned tt) (Conn.noted w e) -> wp (Conn.note e) Q w.
Proof. exact (fun H => H). Qed.

(** *** Projections of the worlds a call leaves *)

Section Projections.
Variables (w : World) (d : DB) (t : option DB) (e : Event).

Lemma store_tick : store (Conn.tick w) = store w. Proof. reflexivity. Qed.
Lemma txn_tick : txn (Conn.tick w) = txn w. Proof. reflexivity. Qed.
Lemma trace_tick : trace (Conn.tick w) = trace w. Proof. reflexivity. Qed.
Lemma store_with_store : store (Conn.with_store w d) = d. Proof. reflexivity. Qed.
Lemma txn_with_store : txn (Conn.with_store w d) = txn w. Proof. reflexivity. Qed.
Lemma trace_with_store : trace (Conn.with_store w d) = trace w. Proof. reflexivity. Qed.
Lemma store_with_txn : store (Conn.with_txn w d t) = d. Proof. reflexivity. Qed.
Lemma txn_with_txn : txn (Conn.with_txn w d t) = t. Proof. reflexivity. Qed.
Lemma trace_with_txn : trace (Conn.with_txn w d t) = trace w. Proof. reflexivity. Qed.
Lemma store_noted : store (Conn.noted w e) = store w. Proof. reflexivity. Qed.
Lemma txn_noted : txn (Conn.noted w e) = txn w. Proof. reflexivity. Qed.
Lemma trace_noted : trace (Conn.noted w e) = trace w ++ [e]. Proof. reflexivity. Qed.
Lemma faulty_with_store : Conn.faulty (Conn.with_store w d) = Conn.faulty w.
Proof. reflexivity. Qed.
Lemma faulty_with_txn : Conn.faulty (Conn.with_txn w d t) = Conn.faulty w.
Proof. reflexivity. Qed.
Lemma faulty_noted : Conn.faulty (Conn.noted w e) = Conn.faulty w.
Proof. reflexivity. Qed.
End Projections.

Create HintDb conn.
Create Rewrite HintDb conn.

#[global] Hint Rewrite store_tick txn_tick trace_tick store_with_store txn_with_store
  trace_with_store store_with_txn txn_with_txn trace_with_txn store_noted
  txn_noted trace_noted faulty_with_store faulty_with_txn faulty_noted : conn.

Arguments Conn.tick : simpl never.
Arguments Conn.with_store : simpl never.
Arguments Conn.with_txn : simpl never.
Arguments Conn.noted : simpl never.

(** *** Worlds without storage errors *)

Lemma quiet_not_faulty w : quiet w -> Conn.faulty w = true -> False.
Proof. unfold quiet, Conn.faulty. intros ->. discriminate. Qed.

Lemma quiet_tick w : quiet w -> quiet (Conn.tick w).
Proof. unfold quiet, Conn.tick. simpl. intros ->. reflexivity. Qed.

Lemma quiet_with_store w d : quiet w -> quiet (Conn.with_store w d).
Proof. exact (fun H => H). Qed.

Lemma quiet_with_txn w d t : quiet w -> quiet (Conn.with_txn w d t).
Proof. exact (fun H => H). Qed.

Lemma quiet_noted w e : quiet w -> quiet (Conn.noted w e).
Proof. exact (fun H => H). Qed.

Lemma quiet_open d : quiet (Conn.open d []).
Proof. reflexivity. Qed.

Lemma calm_refl w : calm w w.
Proof.
  exists 0%nat. rewrite Nat.add_0_r, drop_0. auto.
Qed.

Lemma tl_drop {X} (n : nat) (l : list X) : tl (drop n l) = drop (S n) l.
Proof.
  revert n. induction l as [|x l IH]; intros [|n]; simpl; auto.
Qed.

Lemma take_S_hd (n : nat) (l : list bool) :
  Forall (fun fault => fault = false) (take n l) ->
  hd false (drop n l) = false ->
  Forall (fun fault => fault = false) (take (S n) l).
Proof.
  revert n. induction l as [|b l IH]; intros n Hall Hok; [constructor|].
  destruct n as [|n]; simpl in *.
  - subst b. repeat constructor.
  - inversion Hall; subst. constructor; [done|]. by apply IH.
Qed.

Lemma calm_tick w0 w : calm w0 w -> Conn.faulty w = false -> calm w0 (Conn.tick w).
Proof.
  intros (n & Hi & Hf & Hall) Hok. exists (S n). unfold Conn.tick. simpl.
  split; [lia|]. split.
  - rewrite Hf. apply tl_drop.
  - apply take_S_hd; [done|]. unfold Conn.faulty in Hok. by rewrite Hf in Hok.
Qed.

Lemma calm_with_store w0 w d : calm w0 w -> calm w0 (Conn.with_store w d).
Proof. exact (fun H => H). Qed.

Lemma calm_with_txn w0 w d t : calm w0 w -> calm w0 (Conn.with_txn w d t).
Proof. exact (fun H => H). Qed.

Lemma calm_noted w0 w e : calm w0 w -> calm w0 (Conn.noted w e).
Proof. exact (fun H => H). Qed.

Lemma calm_from_noted w0 w e : calm w0 w -> calm (Conn.noted w0 e) w.
Proof. exact (fun H => H). Qed.

Lemma calm_trans w0 w1 w2 : calm w0 w1 -> calm w1 w2 -> calm w0 w2.
Proof.
  intros (n & Hi & Hf & Hall) (m & Hi' & Hf' & Hall').
  exists (n + m)%nat. split; [lia|]. split.
  - rewrite Hf', Hf. apply drop_drop.
  - rewrite Hf in Hall'. rewrite <- take_take_drop. apply Forall_app. split; assumption.
Qed.

Lemma calm_no_storage_error w w' : calm w w' -> met_storage_error w w' -> False.
Proof.
  intros (n & Hi & _ & Hall) (k & Hk & Hlook).
  assert (k < n)%nat as Hkn by lia.
  rewrite Forall_lookup in Hall.
  specialize (Hall k true). rewrite lookup_take_lt in Hall by done.
  specialize (Hall Hlook). discriminate.
Qed.

#[global] Hint Resolve quiet_tick quiet_with_store quiet_with_txn quiet_noted
  calm_refl calm_with_store calm_with_txn calm_noted calm_tick : conn.

(** Closes a branch in which a call met a storage error although none was
    to come. *)
Ltac no_fault :=
  match goal with
  | Hf : Conn.faulty ?w = true |- _ =>
      exfalso; apply (quiet_not_faulty w); [solve [auto 20 with conn] | exact Hf]
  end.

(** Settles the bookkeeping of a branch that has reached its final world. *)
Ltac settle :=
  autorewrite with conn; repeat split; auto 20 with conn;
  try (unfold not; intros; no_fault).

(** ** Multi-row insertion *)

Lemma put_snapshot_data_id d : put_snapshot_data d (snapshot_data d) = d.
Proof. destruct d; reflexivity. Qed.

Lemma insert_rows_app l1 l2 table :
  Stmt.insert_rows (l1 ++ l2) table =
  match Stmt.insert_rows l1 table with
  | Some table' => Stmt.insert_rows l2 table'
  | None => None
  end.
Proof.
  revert table. induction l1 as [|r l1 IH]; intros table; simpl; [reflexivity|].
  destruct (existsb (Stmt.same_key r) table); [reflexivity|]. apply IH.
Qed.

Lemma insert_rows_Some rows table table' :
  Stmt.insert_rows rows table = Some table' -> table' = table ++ rows.
Proof.
  revert table. induction rows as [|r rows IH]; intros table; simpl.
  - intros [= <-]. by rewrite app_nil_r.
  - destruct (existsb (Stmt.same_key r) table); [discriminate|].
    intros H. apply IH in H. by rewrite <- app_assoc in H.
Qed.

Lemma chunkSize_pos : (1 <= chunkSize)%nat.
Proof. unfold chunkSize. lia. Qed.

Lemma slice_then_rest {X} (i n : nat) (l : list X) :
  Js.slice i n l ++ drop (i + n) l = drop i l.
Proof.
  unfold Js.slice. rewrite <- drop_drop. apply take_drop.
Qed.

(** The chunked loop inserts what a single statement over the rows from
    [i] on would insert, and stops at the first chunk that is rejected. *)
Lemma insert_chunks_spec id data fuel : forall i w,
  (length data <= i + fuel)%nat ->
  wp (insert_chunks fuel i id data)
     (fun r w' =>
        txn w' = txn w /\ trace w' = trace w /\ (quiet w -> quiet w') /\
        store w' = put_snapshot_data (store w) (snapshot_data (store w')) /\
        match r with
        | Returned _ =>
            calm w w' /\
            Stmt.insert_rows (map (snapshot_row id) (drop i data))
                             (snapshot_data (store w)) = Some (snapshot_data (store w'))
        | Thrown _ =>
            quiet w ->
            Stmt.insert_rows (map (snapshot_row id) (drop i data))
                             (snapshot_data (store w)) = None
        end) w.
Proof.
  induction fuel as [|fuel IH]; intros i w Hlen; simpl.
  - apply wp_ret. rewrite drop_ge by lia. simpl.
    rewrite put_snapshot_data_id. repeat split; auto using calm_refl.
  - destruct (i <? length data)%nat eqn:Hi.
    + apply wp_bind, wp_run.
      * intros Hf. settle. by rewrite put_snapshot_data_id.
      * intros Hf. unfold Stmt.insert_snapshot_data.
        rewrite <- (slice_then_rest i chunkSize data), map_app, insert_rows_app.
        destruct (Stmt.insert_rows (map (snapshot_row id) (Js.slice i chunkSize data))
                    (snapshot_data (store w))) as [table|] eqn:Hins.
        -- eapply wp_mono.
           ++ apply IH. pose proof chunkSize_pos. lia.
           ++ cbv beta. intros r w'. autorewrite with conn.
              intros (Ht & Htr & Hq & Hst & Hr).
              split; [done|]. split; [done|].
              split; [auto with conn|]. split; [done|].
              destruct r as [[]|e].
              ** destruct Hr as [Hc Hr]. split; [|done].
                 eapply calm_trans; [|exact Hc]. auto with conn.
              ** intros Hq0. apply Hr. auto with conn.
        -- settle. by rewrite put_snapshot_data_id.
    + apply wp_ret. apply Nat.ltb_ge in Hi. rewrite drop_ge by lia. simpl.
      rewrite put_snapshot_data_id. repeat split; auto using calm_refl.
Qed.

(** ** [createSnapshot] *)

Lemma createSnapshot_spec now w :
  txn w = None ->
  wp (createSnapshot now)
     (fun r w' =>
        txn w' = None /\ trace w' = trace w ++ [CalledCreate now] /\
        (quiet w -> quiet w') /\
        match r with
        | Returned (Some info) =>
            calm w w' /\ snapshot_taken now (store w) = Some (info, store w')
        | Returned None =>
            store w' = store w /\ (quiet w -> snapshot_taken now (store w) = None)
        | Thrown _ => False
        end) w.
Proof.
  intros Htxn. unfold createSnapshot, snapshot_taken.
  apply wp_bind, wp_note, wp_try, wp_bind, wp_begin.
  { intros Hf. apply wp_ret. settle. }
  intros Hf0. autorewrite with conn. rewrite Htxn.
  apply wp_try, wp_bind, wp_run.
  { intros Hf. apply wp_bind, wp_rollback, wp_ret. settle. }
  intros Hf1. autorewrite with conn.
  destruct (Stmt.insert_snapshot (snapshot_name now) now (store w)) as [[id d1]|] eqn:Hins.
  2: { apply wp_bind, wp_rollback, wp_ret. settle. }
  apply wp_bind, wp_query.
  { intros Hf. apply wp_bind, wp_rollback, wp_ret. settle. }
  intros Hf2. autorewrite with conn.
  destruct (length (Stmt.select_activity d1) =? 0)%nat eqn:Hlen.
  { apply wp_bind, wp_rollback, wp_ret. settle. }
  apply wp_bind.
  eapply wp_mono; [apply insert_chunks_spec; lia|].
  cbv beta. intros r w'. autorewrite with conn. rewrite drop_0.
  intros (Ht & Htr & Hq & Hst & Hr).
  assert (quiet w -> quiet w') as Hq' by auto 20 with conn.
  destruct r as [[]|e].
  - destruct Hr as [Hc Hr]. rewrite Hr.
    assert (calm w w') as Hc'.
    { eapply calm_trans; [|exact Hc]. auto 20 with conn. }
    apply wp_bind, wp_commit.
    + intros Hf. apply wp_bind, wp_rollback. autorewrite with conn. rewrite Ht.
      apply wp_ret. settle.
    + intros Hf. rewrite Ht. apply wp_ret. settle.
      by rewrite Hst.
  - apply wp_bind, wp_rollback. rewrite Ht. apply wp_ret. settle.
    intros Hq0. by rewrite Hr by auto 20 with conn.
Qed.

Lemma createSnapshot_in_txn now w d0 :
  txn w = Some d0 ->
  wp (createSnapshot now)
     (fun r w' =>
        r = Returned None /\ store w' = store w /\ txn w' = Some d0 /\
        trace w' = trace w ++ [CalledCreate now]) w.
Proof.
  intros Htxn. unfold createSnapshot.
  apply wp_bind, wp_note, wp_try, wp_bind, wp_begin.
  - intros _. by apply wp_ret.
  - intros _. autorewrite with conn. rewrite Htxn. by apply wp_ret.
Qed.

(** ** [DELETE /api/snapshots/:id] *)

Lemma delete_snapshot_route_spec id w :
  txn w = None ->
  wp (delete_snapshot_route id)
     (fun r w' =>
        txn w' = None /\ trace w' = trace w /\ (quiet w -> quiet w') /\
        match r with
        | Returned (DeleteOk reset) =>
            calm w w' /\ snapshot_deleted id (store w) = Some (reset, store w')
        | Returned DeleteNotFound =>
            calm w w' /\ store w' = store w /\
            Stmt.select_snapshot_id id (store w) = None
        | Returned DeleteFailed => store w' = store w /\ ~ quiet w
        | Thrown _ => False
        end) w.
Proof.
  intros Htxn. unfold delete_snapshot_route, snapshot_deleted, delete_one.
  apply wp_try, wp_bind, wp_query.
  { intros Hf. apply wp_ret. settle. }
  intros Hf0. autorewrite with conn.
  destruct (Stmt.select_snapshot_id id (store w)) as [found|] eqn:Hsel.
  2: { apply wp_ret. settle. }
  apply wp_bind, wp_query.
  { intros Hf. apply wp_ret. settle. }
  intros Hf1. autorewrite with conn.
  apply wp_bind, wp_begin.
  { intros Hf. apply wp_ret. settle. }
  intros Hf2. autorewrite with conn. rewrite Htxn.
  apply wp_try, wp_bind, wp_exec.
  { intros Hf. apply wp_bind, wp_rollback, wp_ret. settle. }
  intros Hf3. autorewrite with conn.
  apply wp_bind, wp_exec.
  { intros Hf. apply wp_bind, wp_rollback, wp_ret. settle. }
  intros Hf4. autorewrite with conn.
  apply wp_bind.
  destruct (is_max_id id (Stmt.select_max_id (store w))).
  - apply wp_bind, wp_query.
    { intros Hf. apply wp_bind, wp_rollback, wp_ret. settle. }
    intros Hf5. autorewrite with conn. apply wp_exec.
    { intros Hf. apply wp_bind, wp_rollback, wp_ret. settle. }
    intros Hf6. autorewrite with conn. apply wp_bind, wp_commit.
    { intros Hf. apply wp_bind, wp_rollback, wp_ret. settle. }
    intros Hf7. autorewrite with conn. apply wp_ret. settle.
  - apply wp_ret, wp_bind, wp_commit.
    { intros Hf. apply wp_bind, wp_rollback, wp_ret. settle. }
    intros Hf7. autorewrite with conn. apply wp_ret. settle.
Qed.

Lemma delete_snapshot_route_in_txn id w d0 :
  txn w = Some d0 ->
  wp (delete_snapshot_route id)
     (fun r w' =>
        (r = Returned DeleteNotFound \/ r = Returned DeleteFailed) /\
        store w' = store w /\ txn w' = Some d0) w.
Proof.
  intros Htxn. unfold delete_snapshot_route.
  apply wp_try, wp_bind, wp_query.
  { intros _. apply wp_ret. auto. }
  intros _. autorewrite with conn.
  destruct (Stmt.select_snapshot_id id (store w)); [|apply wp_ret; auto].
  apply wp_bind, wp_query.
  { intros _. apply wp_ret. auto. }
  intros _. apply wp_bind, wp_begin.
  { intros _. apply wp_ret. auto. }
  intros _. autorewrite with conn. rewrite Htxn. apply wp_ret. auto.
Qed.

(** ** Retention *)

Lemma delete_each_spec ids : forall w,
  wp (delete_each ids)
     (fun r w' =>
        txn w' = txn w /\ trace w' = trace w /\ (quiet w -> quiet w') /\
        match r with
        | Returned _ =>
            calm w w' /\
            store w' = foldl (fun d' id => delete_one id d') (store w) ids
        | Thrown _ => ~ quiet w
        end) w.
Proof.
  induction ids as [|id ids IH]; intros w; simpl.
  - apply wp_ret. repeat split; auto using calm_refl.
  - apply wp_bind, wp_exec.
    { intros Hf. settle. }
    intros Hf0. apply wp_bind, wp_exec.
    { intros Hf. settle. }
    intros Hf1. eapply wp_mono; [apply IH|].
    cbv beta. intros r w'. autorewrite with conn.
    intros (Ht & Htr & Hq & Hr).
    split; [done|]. split; [done|].
    split; [auto 20 with conn|].
    destruct r as [[]|e].
    + destruct Hr as [Hc Hr]. split; [|done].
      eapply calm_trans; [|exact Hc]. auto 20 with conn.
    + intros Hq0. apply Hr. auto 20 with conn.
Qed.

Lemma cleanupOldSnapshots_spec keepCountArg w :
  txn w = None ->
  wp (cleanupOldSnapshots keepCountArg)
     (fun r w' =>
        r = Returned tt /\ txn w' = None /\
        trace w' = trace w ++ [CalledCleanup (default 100 keepCountArg)] /\
        (quiet w -> quiet w') /\
        (store w' = store w \/
         calm w w' /\ store w' = pruned (default 100 keepCountArg) (store w)) /\
        (quiet w -> store w' = pruned (default 100 keepCountArg) (store w))) w.
Proof.
  intros Htxn. unfold cleanupOldSnapshots, pruned.
  apply wp_bind, wp_note, wp_try, wp_bind, wp_query.
  { intros Hf. apply wp_ret. settle. }
  intros Hf0. autorewrite with conn.
  destruct (Z.of_nat (length (Stmt.select_ids_newest_first (store w)))
            <=? default 100 keepCountArg) eqn:Hcount.
  { apply wp_ret. settle. }
  apply wp_bind, wp_begin.
  { intros Hf. apply wp_ret. settle. }
  intros Hf1. autorewrite with conn. rewrite Htxn.
  apply wp_try, wp_bind.
  eapply wp_mono; [apply delete_each_spec|].
  cbv beta. intros r w'. autorewrite with conn.
  intros (Ht & Htr & Hq & Hr).
  assert (quiet w -> quiet w') as Hq' by auto 20 with conn.
  destruct r as [[]|e].
  - destruct Hr as [Hc Hr].
    assert (calm w w') as Hc'.
    { eapply calm_trans; [|exact Hc]. auto 20 with conn. }
    apply wp_commit.
    + intros Hf. apply wp_rollback. autorewrite with conn. rewrite Ht. settle.
    + intros Hf. rewrite Ht. settle.
  - apply wp_rollback. rewrite Ht. settle.
    intros Hq0. destruct Hr. auto 20 with conn.
Qed.

Lemma cleanupOldSnapshots_in_txn keepCountArg w d0 :
  txn w = Some d0 ->
  wp (cleanupOldSnapshots keepCountArg)
     (fun r w' =>
        r = Returned tt /\ store w' = store w /\ txn w' = Some d0 /\
        trace w' = trace w ++ [CalledCleanup (default 100 keepCountArg)]) w.
Proof.
  intros Htxn. unfold cleanupOldSnapshots.
  apply wp_bind, wp_note, wp_try, wp_bind, wp_query.
  { intros _. by apply wp_ret. }
  intros _. autorewrite with conn.
  destruct (Z.of_nat (length (Stmt.select_ids_newest_first (store w)))
            <=? default 100 keepCountArg); [by apply wp_ret|].
  apply wp_bind, wp_begin.
  { intros _. by apply wp_ret. }
  intros _. autorewrite with conn. rewrite Htxn. by apply wp_ret.
Qed.

(** ** Lists, orders and maxima *)

Lemma insert_by_perm {X} (le : X -> X -> bool) x l :
  Permutation (Sql.insert_by le x l) (x :: l).
Proof.
  induction l as [|y l IH]; simpl; [reflexivity|].
  destruct (le x y); [reflexivity|].
  rewrite IH. apply perm_swap.
Qed.

Lemma order_by_perm {X} (le : X -> X -> bool) l :
  Permutation (Sql.order_by le l) l.
Proof.
  induction l as [|x l IH]; simpl; [reflexivity|].
  unfold Sql.order_by in *. rewrite insert_by_perm. by constructor.
Qed.

Lemma order_by_length {X} (le : X -> X -> bool) l :
  length (Sql.order_by le l) = length l.
Proof. apply Permutation_length, order_by_perm. Qed.

Lemma foldr_max_ge x0 l : x0 <= foldr Z.max x0 l.
Proof. induction l as [|y l IH]; simpl; lia. Qed.

Lemma foldr_max_elem x0 l x : x ∈ l -> x <= foldr Z.max x0 l.
Proof.
  induction l as [|y l IH]; simpl; [by intros ?%elem_of_nil|].
  intros [->|Hin]%elem_of_cons; [lia|]. specialize (IH Hin). lia.
Qed.

Lemma foldr_max_in x0 l : foldr Z.max x0 l = x0 \/ foldr Z.max x0 l ∈ l.
Proof.
  induction l as [|y l IH]; simpl; [by left|].
  destruct (Z.max_spec y (foldr Z.max x0 l)) as [[_ ->]|[_ ->]].
  - destruct IH as [->|IH]; [by left|]. right. by apply elem_of_cons; right.
  - right. apply elem_of_cons. by left.
Qed.

Lemma max_opt_upper l x : x ∈ l -> exists m, Sql.max_opt l = Some m /\ x <= m.
Proof.
  destruct l as [|y l]; [by intros ?%elem_of_nil|].
  simpl. intros [->|Hin]%elem_of_cons; eexists; split; try reflexivity.
  - apply foldr_max_ge.
  - by apply foldr_max_elem.
Qed.

Lemma max_opt_elem l m : Sql.max_opt l = Some m -> m ∈ l.
Proof.
  destruct l as [|y l]; [discriminate|]. simpl. intros [= <-].
  destruct (foldr_max_in y l) as [->|Hin]; apply elem_of_cons; auto.
Qed.

Lemma max_opt_None l : Sql.max_opt l = None -> l = [].
Proof. by destruct l. Qed.

Lemma maxId_or_zero_default m : maxId_or_zero m = default 0 m.
Proof.
  destruct m as [m|]; simpl; [|reflexivity].
  destruct (Z.eqb_spec m 0); congruence.
Qed.

Lemma elem_of_filter_bool {X} (p : X -> bool) (l : list X) x :
  x ∈ List.filter p l <-> x ∈ l /\ p x = true.
Proof. rewrite !list_elem_of_In. apply filter_In. Qed.

Lemma map_filter_comm {X Y} (f : X -> Y) (p : Y -> bool) (l : list X) :
  map f (List.filter (fun x => p (f x)) l) = List.filter p (map f l).
Proof.
  induction l as [|x l IH]; simpl; [reflexivity|].
  destruct (p (f x)); simpl; by rewrite IH.
Qed.

Lemma NoDup_filter_bool {X} (p : X -> bool) (l : list X) :
  NoDup l -> NoDup (List.filter p l).
Proof.
  induction 1 as [|x l Hx Hl IH]; simpl; [constructor|].
  destruct (p x); [|done]. constructor; [|done].
  rewrite elem_of_filter_bool. tauto.
Qed.

Lemma NoDup_map_filter {X Y} (f : X -> Y) (p : X -> bool) (l : list X) :
  NoDup (map f l) -> NoDup (map f (List.filter p l)).
Proof.
  induction l as [|x l IH]; simpl; [done|].
  rewrite NoDup_cons. intros [Hx Hl].
  destruct (p x); simpl; [|auto].
  apply NoDup_cons. split; [|auto].
  intros (y & Hy & Hin)%list_elem_of_fmap. apply Hx.
  apply list_elem_of_fmap. exists y. split; [done|].
  by apply elem_of_filter_bool in Hin as [? _].
Qed.

Lemma Forall_filter_bool {X} (P : X -> Prop) (p : X -> bool) (l : list X) :
  Forall P l -> Forall P (List.filter p l).
Proof.
  rewrite !Forall_forall. intros H x Hx. apply H.
  by apply elem_of_filter_bool in Hx as [? _].
Qed.

Lemma same_identity_key u c r :
  Stmt.same_identity u c r = true <-> activity_key r = (u, c).
Proof.
  unfold Stmt.same_identity, activity_key.
  rewrite andb_true_iff, !String.eqb_eq. split; [by intros [-> ->]|by intros [= -> ->]].
Qed.

Lemma same_key_data_key r1 r2 :
  Stmt.same_key r1 r2 = true <-> data_key r1 = data_key r2.
Proof.
  unfold Stmt.same_key, data_key.
  rewrite !andb_true_iff, Z.eqb_eq, !String.eqb_eq.
  split; [by intros [[-> ->] ->]|by intros [= -> -> ->]].
Qed.

Lemma existsb_false_iff {X} (p : X -> bool) (l : list X) :
  existsb p l = false <-> forall x, x ∈ l -> p x = false.
Proof.
  rewrite <- not_true_iff_false, existsb_exists. split.
  - intros H x Hx. apply not_true_iff_false. intros Hp. apply H.
    exists x. by rewrite <- list_elem_of_In.
  - intros H (x & Hx & Hp). rewrite <- list_elem_of_In in Hx.
    rewrite (H x Hx) in Hp. discriminate.
Qed.

(** ** Rows accepted by the primary key of [snapshot_data] *)

Lemma insert_rows_fresh rows : forall table,
  NoDup (map data_key (table ++ rows)) ->
  Stmt.insert_rows rows table = Some (table ++ rows).
Proof.
  induction rows as [|r rows IH]; intros table Hnd; simpl.
  - by rewrite app_nil_r.
  - replace (table ++ r :: rows) with ((table ++ [r]) ++ rows) in *
      by (by rewrite <- app_assoc).
    destruct (existsb (Stmt.same_key r) table) eqn:Hex.
    + exfalso. apply existsb_exists in Hex as (t & Ht & Hk).
      apply same_key_data_key in Hk.
      rewrite !map_app in Hnd. apply NoDup_app in Hnd as [Hnd _].
      apply NoDup_app in Hnd as (_ & Hdisj & _).
      apply (Hdisj (data_key t)).
      * apply list_elem_of_fmap. exists t. by rewrite list_elem_of_In.
      * rewrite <- Hk. simpl. apply elem_of_cons. by left.
    + by apply IH.
Qed.

Lemma snapshot_rows_keys id data :
  NoDup (map activity_key data) ->
  NoDup (map data_key (map (snapshot_row id) data)).
Proof.
  rewrite map_map. induction data as [|r data IH]; simpl; [constructor|].
  rewrite !NoDup_cons. intros [Hr Hnd]. split; [|auto].
  intros (r' & Hk & Hin)%list_elem_of_fmap. apply Hr.
  apply list_elem_of_fmap. exists r'. split; [|done].
  unfold data_key, activity_key in *. simpl in Hk. congruence.
Qed.

(** ** Taking a snapshot *)

Lemma order_by_nil {X} (le : X -> X -> bool) : Sql.order_by le [] = [].
Proof. reflexivity. Qed.

Lemma insert_snapshot_activity name now d id d1 :
  Stmt.insert_snapshot name now d = Some (id, d1) ->
  channel_activity d1 = channel_activity d /\
  snapshot_data d1 = snapshot_data d /\
  id = Stmt.next_id d /\
  snapshots d1 = snapshots d ++
    [ {| s_id := id; s_name := name; s_created_at := Sql.current_timestamp now |} ] /\
  sqlite_sequence d1 = Some id /\
  name ∉ map s_name (snapshots d).
Proof.
  unfold Stmt.insert_snapshot.
  destruct (existsb _ _) eqn:Hex; [discriminate|].
  intros [= <- <-]. simpl. repeat split; auto.
  intros Hin. apply list_elem_of_fmap in Hin as (s & -> & Hs).
  apply not_true_iff_false in Hex. apply Hex.
  apply existsb_exists. exists s. split; [by apply list_elem_of_In|].
  apply String.eqb_refl.
Qed.

Lemma snapshot_taken_empty now d :
  channel_activity d = [] -> snapshot_taken now d = None.
Proof.
  intros Hempty. unfold snapshot_taken.
  destruct (Stmt.insert_snapshot _ _ _) as [[id d1]|] eqn:Hins; [|reflexivity].
  apply insert_snapshot_activity in Hins as (Hact & _).
  unfold Stmt.select_activity. by rewrite Hact, Hempty.
Qed.


(** ** The invariant is kept *)

Lemma wf_db_empty : wf_db empty_db.
Proof. repeat split; constructor. Qed.

Lemma next_id_above d s : s ∈ snapshots d -> s_id s < Stmt.next_id d.
Proof.
  intros Hs. unfold Stmt.next_id.
  destruct (max_opt_upper (map s_id (snapshots d)) (s_id s)) as (m & -> & Hm).
  { apply list_elem_of_fmap. eauto. }
  simpl. lia.
Qed.

Lemma next_id_positive d : wf_db d -> 1 <= Stmt.next_id d.
Proof.
  intros (_ & _ & _ & _ & _ & Hrange). unfold Stmt.next_id.
  destruct (Sql.max_opt (map s_id (snapshots d))) as [m|] eqn:Hmax; simpl.
  - apply max_opt_elem, list_elem_of_fmap in Hmax as (s & -> & Hs).
    rewrite Forall_forall in Hrange. specialize (Hrange s Hs). lia.
  - destruct (snapshots d) as [|s l] eqn:Hsn; [|discriminate].
    destruct (sqlite_sequence d) as [seq|]; simpl; lia.
Qed.

Lemma wf_db_sequence d s :
  wf_db d -> s ∈ snapshots d -> exists seq, sqlite_sequence d = Some seq /\ s_id s <= seq.
Proof.
  intros (_ & _ & _ & _ & _ & Hrange) Hs.
  rewrite Forall_forall in Hrange. destruct (Hrange s Hs) as [Hlo Hhi].
  destruct (sqlite_sequence d) as [seq|]; simpl in *; [eauto|lia].
Qed.

Lemma select_activity_perm d :
  Permutation (Stmt.select_activity d) (channel_activity d).
Proof. apply order_by_perm. Qed.

(** A snapshot of a non-empty store under a fresh name is accepted. *)
Lemma snapshot_taken_wf now d :
  wf_db d ->
  channel_activity d <> [] ->
  snapshot_name now ∉ map s_name (snapshots d) ->
  exists info d',
    snapshot_taken now d = Some (info, d') /\
    info = {| info_id := Stmt.next_id d; info_name := snapshot_name now;
              info_count := Z.of_nat (length (channel_activity d)) |} /\
    d' = {| channel_activity := channel_activity d;
            snapshots := snapshots d ++
              [ {| s_id := Stmt.next_id d; s_name := snapshot_name now;
                   s_created_at := Sql.current_timestamp now |} ];
            snapshot_data := snapshot_data d ++
              map (snapshot_row (Stmt.next_id d)) (Stmt.select_activity d);
            sqlite_sequence := Some (Stmt.next_id d) |} /\
    wf_db d'.
Proof.
  intros Hwf Hne Hfresh.
  pose proof Hwf as (Hact & Hid & Hname & Hkey & Hown & Hrange).
  assert (existsb (fun s => String.eqb (s_name s) (snapshot_name now)) (snapshots d)
          = false) as Hex.
  { apply existsb_false_iff. intros s Hs. apply String.eqb_neq. intros Heq.
    apply Hfresh, list_elem_of_fmap. eauto. }
  assert (NoDup (map data_key (snapshot_data d ++
            map (snapshot_row (Stmt.next_id d)) (Stmt.select_activity d)))) as Hkeys.
  { rewrite map_app. apply NoDup_app. split; [done|]. split.
    - intros k (r & -> & Hr)%list_elem_of_fmap.
      intros (r' & Hk & (a & -> & Ha)%list_elem_of_fmap)%list_elem_of_fmap.
      rewrite Forall_forall in Hown. specialize (Hown r Hr).
      apply list_elem_of_fmap in Hown as (s & Hs & Hin).
      pose proof (next_id_above d s Hin).
      unfold data_key in Hk. simpl in Hk. injection Hk as Hk _ _. lia.
    - apply snapshot_rows_keys.
      by rewrite (Permutation_map activity_key (select_activity_perm d)). }
  destruct (Stmt.insert_snapshot (snapshot_name now) now d) as [[id d1]|] eqn:Hins.
  2: { unfold Stmt.insert_snapshot in Hins. by rewrite Hex in Hins. }
  pose proof (insert_snapshot_activity _ _ _ _ _ Hins)
    as (Hact1 & Hdata1 & -> & Hsn1 & Hseq1 & _).
  assert (Stmt.select_activity d1 = Stmt.select_activity d) as Hsel
    by (unfold Stmt.select_activity; by rewrite Hact1).
  unfold snapshot_taken. rewrite Hins, Hsel, Hdata1.
  destruct (Nat.eqb_spec (length (Stmt.select_activity d)) 0) as [Hzero|_].
  { unfold Stmt.select_activity in Hzero. rewrite order_by_length in Hzero.
    by destruct (channel_activity d). }
  rewrite (insert_rows_fresh _ _ Hkeys).
  replace (length (Stmt.select_activity d)) with (length (channel_activity d))
    by (symmetry; apply order_by_length).
  eexists _, _. split; [reflexivity|]. split; [reflexivity|].
  split. { destruct d1; simpl in *; by subst. }
  unfold wf_db. simpl. rewrite Hact1, Hsn1, Hseq1. simpl.
  split; [done|].
  split.
  { rewrite map_app. apply NoDup_app. split; [done|]. split; [|apply NoDup_singleton].
    intros x (s & -> & Hs)%list_elem_of_fmap [Hx|[]%elem_of_nil]%elem_of_cons.
    pose proof (next_id_above d s Hs). simpl in Hx. lia. }
  split.
  { rewrite map_app. apply NoDup_app. split; [done|]. split; [|apply NoDup_singleton].
    intros x Hx [->|[]%elem_of_nil]%elem_of_cons. done. }
  split; [done|].
  split.
  { apply Forall_app. split.
    - eapply Forall_impl; [exact Hown|]. cbv beta. intros r Hr.
      rewrite map_app. apply elem_of_app. by left.
    - apply Forall_forall. intros r (a' & -> & _)%list_elem_of_fmap.
      rewrite map_app. apply elem_of_app. right. simpl. apply elem_of_cons. by left. }
  apply Forall_app. split.
  - apply Forall_forall. intros s Hs.
    rewrite Forall_forall in Hrange. specialize (Hrange s Hs).
    pose proof (next_id_above d s Hs). lia.
  - constructor; [|constructor]. simpl. pose proof (next_id_positive d Hwf). lia.
Qed.

(** ** Deleting a snapshot *)

Lemma select_snapshot_id_Some id d :
  id ∈ map s_id (snapshots d) -> Stmt.select_snapshot_id id d = Some id.
Proof.
  unfold Stmt.select_snapshot_id.
  induction (snapshots d) as [|s l IH]; simpl; [by intros ?%elem_of_nil|].
  destruct (Z.eqb_spec (s_id s) id) as [Heq|Hne]; simpl.
  - intros _. by rewrite Heq.
  - intros [?|Hin]%elem_of_cons; [congruence|auto].
Qed.

Lemma select_snapshot_id_None id d :
  Stmt.select_snapshot_id id d = None -> id ∉ map s_id (snapshots d).
Proof.
  intros Hnone Hin. by rewrite (select_snapshot_id_Some _ _ Hin) in Hnone.
Qed.

Lemma is_max_id_true id l :
  is_max_id id (Sql.max_opt l) = true <-> Sql.max_opt l = Some id.
Proof.
  unfold is_max_id. destruct (Sql.max_opt l) as [m|]; [|done].
  rewrite Z.eqb_eq. split; congruence.
Qed.

Lemma delete_one_tables id d :
  channel_activity (delete_one id d) = channel_activity d /\
  snapshots (delete_one id d) = List.filter (fun s => negb (s_id s =? id)) (snapshots d) /\
  snapshot_data (delete_one id d) =
    List.filter (fun r => negb (sd_snapshot_id r =? id)) (snapshot_data d) /\
  sqlite_sequence (delete_one id d) = sqlite_sequence d.
Proof. done. Qed.

Lemma delete_one_ids id d :
  map s_id (snapshots (delete_one id d)) =
  List.filter (fun x => negb (x =? id)) (map s_id (snapshots d)).
Proof. simpl. apply (map_filter_comm s_id (fun x => negb (x =? id))). Qed.

Lemma delete_one_wf id d : wf_db d -> wf_db (delete_one id d).
Proof.
  intros (Hact & Hid & Hname & Hkey & Hown & Hrange).
  unfold wf_db. rewrite delete_one_ids. simpl.
  split; [done|].
  split; [by apply NoDup_filter_bool|].
  split; [by apply NoDup_map_filter|].
  split; [by apply NoDup_map_filter|].
  split; [|by apply Forall_filter_bool].
  apply Forall_forall. intros r [Hr Hne]%elem_of_filter_bool.
  apply elem_of_filter_bool. split; [|done].
  rewrite Forall_forall in Hown. auto.
Qed.

(** The sequence is reset to the largest id left. *)
Lemma update_sequence_wf d :
  wf_db d ->
  wf_db (Stmt.update_sequence (maxId_or_zero (Stmt.select_max_id d)) d).
Proof.
  intros (Hact & Hid & Hname & Hkey & Hown & Hrange).
  unfold wf_db. simpl. repeat (split; [done|]).
  apply Forall_forall. intros s Hs.
  rewrite Forall_forall in Hrange. destruct (Hrange s Hs) as [Hlo Hhi].
  split; [done|].
  destruct (sqlite_sequence d) as [seq|]; simpl in *; [|lia].
  rewrite maxId_or_zero_default. unfold Stmt.select_max_id.
  destruct (max_opt_upper (map s_id (snapshots d)) (s_id s)) as (m & -> & Hm); [|done].
  apply list_elem_of_fmap. eauto.
Qed.

Lemma snapshot_deleted_wf id d :
  wf_db d ->
  id ∈ map s_id (snapshots d) ->
  exists d',
    snapshot_deleted id d
      = Some (is_max_id id (Sql.max_opt (map s_id (snapshots d))), d') /\
    channel_activity d' = channel_activity d /\
    snapshots d' = List.filter (fun s => negb (s_id s =? id)) (snapshots d) /\
    snapshot_data d' =
      List.filter (fun r => negb (sd_snapshot_id r =? id)) (snapshot_data d) /\
    sqlite_sequence d' =
      (if is_max_id id (Sql.max_opt (map s_id (snapshots d)))
       then Some (default 0 (Sql.max_opt
                    (List.filter (fun x => negb (x =? id)) (map s_id (snapshots d)))))
       else sqlite_sequence d) /\
    wf_db d'.
Proof.
  intros Hwf Hin. unfold snapshot_deleted.
  rewrite (select_snapshot_id_Some _ _ Hin). unfold Stmt.select_max_id.
  destruct (is_max_id id (Sql.max_opt (map s_id (snapshots d)))) eqn:Hmax.
  - eexists. split; [reflexivity|].
    pose proof (update_sequence_wf (delete_one id d) (delete_one_wf id d Hwf)) as Hwf'.
    split; [done|]. split; [done|]. split; [done|]. split; [|exact Hwf'].
    apply list_elem_of_fmap in Hin as (s & -> & Hs).
    destruct (wf_db_sequence d s Hwf Hs) as (seq & Hseq & _).
    unfold Stmt.select_max_id. rewrite delete_one_ids. simpl.
    by rewrite Hseq, maxId_or_zero_default.
  - eexists. split; [reflexivity|]. simpl. repeat (split; [done|]).
    by apply delete_one_wf.
Qed.

(** ** Runs without storage errors *)

(** A snapshot of a non-empty store under a fresh name, on a connection
    without storage errors ahead: it is taken, and reported. *)
Lemma createSnapshot_succeeds now w :
  txn w = None -> quiet w -> wf_db (store w) ->
  channel_activity (store w) <> [] ->
  snapshot_name now ∉ map s_name (snapshots (store w)) ->
  wp (createSnapshot now)
     (fun r w' =>
        r = Returned (Some {| info_id := Stmt.next_id (store w);
                              info_name := snapshot_name now;
                              info_count := Z.of_nat (length (channel_activity (store w))) |}) /\
        store w' =
          {| channel_activity := channel_activity (store w);
             snapshots := snapshots (store w) ++
               [ {| s_id := Stmt.next_id (store w); s_name := snapshot_name now;
                    s_created_at := Sql.current_timestamp now |} ];
             snapshot_data := snapshot_data (store w) ++
               map (snapshot_row (Stmt.next_id (store w))) (Stmt.select_activity (store w));
             sqlite_sequence := Some (Stmt.next_id (store w)) |} /\
        wf_db (store w') /\ txn w' = None /\ quiet w' /\
        trace w' = trace w ++ [CalledCreate now]) w.
Proof.
  intros Htxn Hquiet Hwf Hne Hfresh.
  destruct (snapshot_taken_wf now (store w) Hwf Hne Hfresh)
    as (info & d' & Htaken & -> & -> & Hwf').
  eapply wp_mono; [apply (createSnapshot_spec now w Htxn)|].
  cbv beta. intros r w' (Ht & Htr & Hq & Hr).
  destruct r as [[info|]|e]; [| |done].
  - destruct Hr as [_ Hr]. rewrite Htaken in Hr. injection Hr as <- <-. auto 10.
  - destruct Hr as [_ Hr]. rewrite Hr in Htaken by done. discriminate.
Qed.

(** The delete route for a snapshot that exists, on a connection without
    storage errors ahead. *)
Lemma delete_snapshot_route_succeeds id w :
  txn w = None -> quiet w -> wf_db (store w) ->
  id ∈ map s_id (snapshots (store w)) ->
  wp (delete_snapshot_route id)
     (fun r w' =>
        r = Returned (DeleteOk (is_max_id id (Sql.max_opt (map s_id (snapshots (store w)))))) /\
        snapshot_deleted id (store w)
          = Some (is_max_id id (Sql.max_opt (map s_id (snapshots (store w)))), store w') /\
        wf_db (store w') /\ txn w' = None /\ quiet w' /\ trace w' = trace w) w.
Proof.
  intros Htxn Hquiet Hwf Hin.
  destruct (snapshot_deleted_wf id (store w) Hwf Hin) as (d' & Hdel & _ & _ & _ & _ & Hwf').
  eapply wp_mono; [apply (delete_snapshot_route_spec id w Htxn)|].
  cbv beta. intros r w' (Ht & Htr & Hq & Hr).
  destruct r as [[reset| |]|e]; [| | |done].
  - destruct Hr as [_ Hr]. rewrite Hdel in Hr. injection Hr as <- <-. auto 10.
  - destruct Hr as (_ & _ & Hr). by rewrite (select_snapshot_id_Some _ _ Hin) in Hr.
  - by destruct Hr as [_ []].
Qed.

Lemma max_opt_filter_other l M id :
  Sql.max_opt l = Some M -> M <> id ->
  Sql.max_opt (List.filter (fun x => negb (x =? id)) l) = Some M.
Proof.
  intros HM Hne.
  assert (M ∈ List.filter (fun x => negb (x =? id)) l) as Hin.
  { apply elem_of_filter_bool. split; [by apply max_opt_elem|].
    apply negb_true_iff, Z.eqb_neq, Hne. }
  destruct (max_opt_upper _ _ Hin) as (M' & HM' & Hle).
  rewrite HM'. f_equal.
  apply max_opt_elem, elem_of_filter_bool in HM' as [HM' _].
  destruct (max_opt_upper _ _ HM') as (M'' & HM'' & Hle').
  rewrite HM in HM''. injection HM'' as <-. lia.
Qed.

Lemma max_opt_filter_below l id :
  Sql.max_opt l = Some id -> (forall x, x ∈ l -> 1 <= x) ->
  default 0 (Sql.max_opt (List.filter (fun x => negb (x =? id)) l)) + 1 <= id.
Proof.
  intros Hmax Hpos.
  destruct (Sql.max_opt (List.filter _ l)) as [m|] eqn:Hm; simpl.
  - apply max_opt_elem, elem_of_filter_bool in Hm as [Hm Hne].
    apply negb_true_iff, Z.eqb_neq in Hne.
    destruct (max_opt_upper _ _ Hm) as (M & HM & Hle).
    rewrite Hmax in HM. injection HM as <-. lia.
  - apply max_opt_elem in Hmax. specialize (Hpos id Hmax). lia.
Qed.

(** ** [ORDER BY] sorts *)

Section OrderBy.
Context {X : Type} (le : X -> X -> bool).
Hypothesis le_total : forall a b, le a b = false -> le b a = true.
Hypothesis le_trans : forall a b c, le a b = true -> le b c = true -> le a c = true.

Let ordered (a b : X) : Prop := le a b = true.

Lemma insert_by_sorted x l :
  StronglySorted ordered l -> StronglySorted ordered (Sql.insert_by le x l).
Proof.
  induction 1 as [|y l Hl IH Hy]; simpl.
  - repeat constructor.
  - destruct (le x y) eqn:Hxy.
    + constructor; [by constructor|].
      constructor; [done|].
      eapply Forall_impl; [exact Hy|]. intros z Hz. by apply (le_trans x y z).
    + constructor; [done|].
      rewrite (insert_by_perm le x l). constructor; [|done].
      by apply le_total.
Qed.

Lemma order_by_sorted l : StronglySorted ordered (Sql.order_by le l).
Proof.
  induction l as [|x l IH]; simpl; [constructor|].
  by apply insert_by_sorted.
Qed.

Lemma sorted_app_ordered l1 l2 a b :
  StronglySorted ordered (l1 ++ l2) -> a ∈ l1 -> b ∈ l2 -> ordered a b.
Proof.
  induction l1 as [|x l1 IH]; simpl; [by intros _ ?%elem_of_nil|].
  intros Hs [->|Ha]%elem_of_cons Hb.
  - inversion Hs as [|? ? _ Hall]; subst.
    rewrite Forall_forall in Hall. apply Hall, elem_of_app. by right.
  - inversion Hs; subst. by apply IH.
Qed.

End OrderBy.

Lemma newest_first_sorted l a b k :
  a ∈ take k (Sql.order_by Stmt.newest_first l) ->
  b ∈ drop k (Sql.order_by Stmt.newest_first l) ->
  s_created_at b <= s_created_at a.
Proof.
  intros Ha Hb.
  assert (Stmt.newest_first a b = true) as Hab.
  { apply (sorted_app_ordered Stmt.newest_first
             (take k (Sql.order_by Stmt.newest_first l))
             (drop k (Sql.order_by Stmt.newest_first l))); [|done|done].
    rewrite take_drop. apply order_by_sorted; unfold Stmt.newest_first; intros *.
    - rewrite Z.leb_gt, Z.leb_le. lia.
    - rewrite !Z.leb_le. lia. }
  unfold Stmt.newest_first in Hab. by apply Z.leb_le.
Qed.

(** ** Deleting a list of snapshots *)

Lemma filter_none_bool {X} (p : X -> bool) (l : list X) :
  (forall x, x ∈ l -> p x = false) -> List.filter p l = [].
Proof.
  induction l as [|x l IH]; simpl; [done|]. intros H.
  rewrite (H x) by (apply elem_of_cons; by left).
  apply IH. intros y Hy. apply H, elem_of_cons. by right.
Qed.

Lemma filter_all_bool {X} (p : X -> bool) (l : list X) :
  (forall x, x ∈ l -> p x = true) -> List.filter p l = l.
Proof.
  induction l as [|x l IH]; simpl; [done|]. intros H.
  rewrite (H x) by (apply elem_of_cons; by left). f_equal.
  apply IH. intros y Hy. apply H, elem_of_cons. by right.
Qed.

Lemma filter_filter_bool {X} (p q : X -> bool) (l : list X) :
  List.filter p (List.filter q l) = List.filter (fun x => q x && p x) l.
Proof.
  induction l as [|x l IH]; simpl; [done|].
  destruct (q x); simpl; [destruct (p x)|]; by rewrite IH.
Qed.

Lemma filter_ext_bool {X} (p q : X -> bool) (l : list X) :
  (forall x, p x = q x) -> List.filter p l = List.filter q l.
Proof. intros H. induction l as [|x l IH]; simpl; [done|]. by rewrite H, IH. Qed.

Lemma not_in_cons_bool (x id : Z) (ids : list Z) :
  negb (x =? id) && negb (bool_decide (x ∈ ids)) = negb (bool_decide (x ∈ id :: ids)).
Proof.
  destruct (Z.eqb_spec x id) as [->|Hne]; simpl.
  - rewrite bool_decide_eq_true_2; [done|]. apply elem_of_cons. by left.
  - f_equal. apply bool_decide_ext. rewrite elem_of_cons. tauto.
Qed.

Lemma delete_all_tables ids : forall d,
  let d' := foldl (fun d' id => delete_one id d') d ids in
  channel_activity d' = channel_activity d /\
  sqlite_sequence d' = sqlite_sequence d /\
  snapshots d' =
    List.filter (fun s => negb (bool_decide (s_id s ∈ ids))) (snapshots d) /\
  snapshot_data d' =
    List.filter (fun r => negb (bool_decide (sd_snapshot_id r ∈ ids))) (snapshot_data d).
Proof.
  induction ids as [|id ids IH]; intros d; cbn [foldl].
  - repeat split; auto; symmetry; apply filter_all_bool;
      intros x _; apply negb_true_iff, bool_decide_eq_false_2, not_elem_of_nil.
  - destruct (IH (delete_one id d)) as (Hact & Hseq & Hsn & Hdata).
    cbv zeta. rewrite Hact, Hseq, Hsn, Hdata. simpl. rewrite !filter_filter_bool.
    repeat split; auto; apply filter_ext_bool; intros x; apply not_in_cons_bool.
Qed.

Lemma delete_all_wf ids : forall d,
  wf_db d -> wf_db (foldl (fun d' id => delete_one id d') d ids).
Proof.
  induction ids as [|id ids IH]; intros d Hwf; simpl; [done|].
  by apply IH, delete_one_wf.
Qed.

Lemma slice_from_drop {X} (k : Z) (l : list X) :
  0 <= k -> Js.slice_from k l = drop (Z.to_nat k) l.
Proof.
  intros Hk. unfold Js.slice_from.
  destruct (Z.ltb_spec k 0); [lia|].
  destruct (Z.min_spec k (Z.of_nat (length l))) as [[_ ->]|[Hle ->]]; [done|].
  rewrite Nat2Z.id, !drop_ge; auto; lia.
Qed.

Lemma filter_perm_bool {X} (p : X -> bool) (l1 l2 : list X) :
  Permutation l1 l2 -> Permutation (List.filter p l1) (List.filter p l2).
Proof.
  induction 1 as [|x l1 l2 _ IH|x y l|l1 l2 l3 _ IH1 _ IH2]; simpl.
  - done.
  - destruct (p x); [by constructor|done].
  - destruct (p x), (p y); try done. apply perm_swap.
  - by etrans.
Qed.

(** Deleting, by id, what lies beyond the first [k] of a list without
    duplicate ids leaves those first [k]. *)
Lemma filter_ids_take_drop (k : nat) (table sorted : list Snapshot) :
  NoDup (map s_id table) ->
  Permutation sorted table ->
  Permutation
    (List.filter (fun s => negb (bool_decide (s_id s ∈ map s_id (drop k sorted)))) table)
    (take k sorted).
Proof.
  intros Hnd Hperm.
  rewrite <- (filter_perm_bool _ _ _ Hperm).
  rewrite <- (Permutation_map s_id Hperm) in Hnd.
  rewrite <- (take_drop k sorted) in Hnd at 1.
  rewrite <- (take_drop k sorted) at 1.
  rewrite map_app in Hnd. apply NoDup_app in Hnd as (_ & Hdisj & _).
  rewrite List.filter_app.
  rewrite (filter_all_bool _ (take k sorted)).
  - rewrite (filter_none_bool _ (drop k sorted)); [by rewrite app_nil_r|].
    intros s Hs. apply negb_false_iff, bool_decide_eq_true_2.
    apply list_elem_of_fmap. eauto.
  - intros s Hs. apply negb_true_iff, bool_decide_eq_false_2.
    apply Hdisj, list_elem_of_fmap. eauto.
Qed.

(** ** What pruning leaves *)

Lemma pruned_spec (keepCount : Z) (d : DB) :
  NoDup (map s_id (snapshots d)) ->
  0 <= keepCount ->
  let n := Z.of_nat (length (snapshots d)) in
  let newest := Sql.order_by Stmt.newest_first (snapshots d) in
  let kept := take (Z.to_nat keepCount) newest in
  let deleted := drop (Z.to_nat keepCount) newest in
  (n <= keepCount -> pruned keepCount d = d) /\
  (keepCount < n ->
   Permutation (snapshots (pruned keepCount d)) kept /\
   snapshots (pruned keepCount d) =
     List.filter (fun s => negb (bool_decide (s_id s ∈ map s_id deleted))) (snapshots d) /\
   snapshot_data (pruned keepCount d) =
     List.filter (fun r => negb (bool_decide (sd_snapshot_id r ∈ map s_id deleted)))
                 (snapshot_data d) /\
   Z.of_nat (length (snapshots (pruned keepCount d))) = keepCount /\
   Z.of_nat (length deleted) = n - keepCount /\
   (forall k x, k ∈ kept -> x ∈ deleted -> s_created_at x <= s_created_at k) /\
   channel_activity (pruned keepCount d) = channel_activity d /\
   sqlite_sequence (pruned keepCount d) = sqlite_sequence d).
Proof.
  intros Hnd Hkeep n newest kept deleted.
  unfold pruned, Stmt.select_ids_newest_first.
  rewrite length_map, order_by_length. fold n.
  split.
  - intros Hle. apply Z.leb_le in Hle. by rewrite Hle.
  - intros Hlt. apply Z.leb_gt in Hlt as Hlt'. rewrite Hlt'.
    rewrite slice_from_drop, skipn_map by done.
    fold newest. fold deleted.
    destruct (delete_all_tables (map s_id deleted) d) as (Hact & Hseq & Hsn & Hdata).
    cbv zeta in Hact, Hseq, Hsn, Hdata.
    assert (Permutation
              (snapshots (foldl (fun d' id => delete_one id d') d (map s_id deleted)))
              kept) as Hperm.
    { rewrite Hsn. apply filter_ids_take_drop; [done|apply order_by_perm]. }
    assert (length newest = length (snapshots d)) as Hlen by apply order_by_length.
    repeat split; auto.
    + rewrite (Permutation_length Hperm). unfold kept. rewrite length_take. lia.
    + unfold deleted. rewrite length_drop. lia.
    + intros k x. apply newest_first_sorted.
Qed.

Lemma pruned_wf keepCount d : wf_db d -> wf_db (pruned keepCount d).
Proof.
  intros Hwf. unfold pruned.
  destruct (_ <=? _); [done|]. by apply delete_all_wf.
Qed.

Lemma pruned_length keepCount d :
  NoDup (map s_id (snapshots d)) -> 0 <= keepCount ->
  Z.of_nat (length (snapshots (pruned keepCount d)))
  = Z.min (Z.of_nat (length (snapshots d))) keepCount.
Proof.
  intros Hnd Hkeep.
  destruct (pruned_spec keepCount d Hnd Hkeep) as [Hle Hgt].
  destruct (Z.le_gt_cases (Z.of_nat (length (snapshots d))) keepCount) as [H|H].
  - rewrite (Hle H). lia.
  - destruct (Hgt ltac:(lia)) as (_ & _ & _ & Hlen & _). lia.
Qed.

(** ** The scheduler *)

(** Whatever the connection does, [createSnapshot] and
    [cleanupOldSnapshots] resolve, leave one event each, and leave the
    transaction state as they found it. *)
Lemma createSnapshot_trace now w :
  wp (createSnapshot now)
     (fun r w' =>
        (exists res, r = Returned res) /\
        trace w' = trace w ++ [CalledCreate now] /\ txn w' = txn w) w.
Proof.
  destruct (txn w) as [d0|] eqn:Htxn.
  - eapply wp_mono; [apply (createSnapshot_in_txn now w d0 Htxn)|].
    cbv beta. intros r w' (-> & _ & -> & ->). eauto.
  - eapply wp_mono; [apply (createSnapshot_spec now w Htxn)|].
    cbv beta. intros r w' (-> & -> & _ & Hr).
    destruct r as [res|e]; [eauto|done].
Qed.

Lemma cleanupOldSnapshots_trace keepCountArg w :
  wp (cleanupOldSnapshots keepCountArg)
     (fun r w' =>
        r = Returned tt /\
        trace w' = trace w ++ [CalledCleanup (default 100 keepCountArg)] /\
        txn w' = txn w) w.
Proof.
  destruct (txn w) as [d0|] eqn:Htxn.
  - eapply wp_mono; [apply (cleanupOldSnapshots_in_txn keepCountArg w d0 Htxn)|].
    cbv beta. intros r w' (-> & _ & -> & ->). auto.
  - eapply wp_mono; [apply (cleanupOldSnapshots_spec keepCountArg w Htxn)|].
    cbv beta. intros r w' (-> & -> & -> & _). auto.
Qed.

Lemma scheduled_firing_trace now w :
  wp (scheduled_firing now)
     (fun r w' =>
        r = Returned tt /\
        trace w' = trace w ++ [CalledCreate now; CalledCleanup 100] /\
        txn w' = txn w) w.
Proof.
  unfold scheduled_firing. apply wp_bind.
  eapply wp_mono; [apply createSnapshot_trace|].
  cbv beta. intros r w1 ((res & ->) & Htr & Ht).
  eapply wp_mono; [apply cleanupOldSnapshots_trace|].
  cbv beta. intros r w' (-> & Htr' & Ht').
  split; [done|]. rewrite Htr', Htr, Ht', Ht, <- app_assoc. done.
Qed.

Lemma getLastSnapshotTime_spec w :
  wp getLastSnapshotTime
     (fun r w' =>
        store w' = store w /\ txn w' = txn w /\ trace w' = trace w /\
        (quiet w -> quiet w') /\
        exists res, r = Returned res /\
          (res = None \/
           res = JsDate.parse_utc <$> Stmt.select_last_created_at (store w)) /\
          (quiet w -> res = JsDate.parse_utc <$> Stmt.select_last_created_at (store w))) w.
Proof.
  unfold getLastSnapshotTime. apply wp_try, wp_bind, wp_query.
  - intros Hf. apply wp_ret. settle. eexists. split; [done|]. split; [by left|].
    intros Hq. no_fault.
  - intros Hf. apply wp_ret. settle. eauto.
Qed.

Lemma run_intervals_trace later : forall w,
  wp (run_intervals later)
     (fun r w' =>
        r = Returned tt /\
        trace w' = trace w ++
          flat_map (fun t => [CalledCreate t; CalledCleanup 100]) later /\
        txn w' = txn w) w.
Proof.
  induction later as [|t later IH]; intros w; simpl.
  - apply wp_ret. by rewrite app_nil_r.
  - apply wp_bind. unfold on_interval.
    eapply wp_mono; [apply scheduled_firing_trace|].
    cbv beta. intros r w1 (-> & Htr & Ht).
    eapply wp_mono; [apply IH|].
    cbv beta. intros r w' (-> & Htr' & Ht').
    split; [done|]. rewrite Htr', Htr, Ht', Ht, <- app_assoc. done.
Qed.

Lemma on_timeout_trace now w :
  wp (on_timeout now)
     (fun r w' =>
        r = Returned tt /\
        trace w' = trace w ++
          [ArmedInterval SNAPSHOT_INTERVAL; CalledCreate now; CalledCleanup 100] /\
        txn w' = txn w) w.
Proof.
  unfold on_timeout. apply wp_bind, wp_note.
  eapply wp_mono; [apply scheduled_firing_trace|].
  cbv beta. intros r w' (-> & Htr & Ht).
  split; [done|]. autorewrite with conn in *. rewrite Htr, <- app_assoc. done.
Qed.

Lemma select_last_created_at_Some d :
  snapshots d <> [] ->
  exists s, s ∈ snapshots d /\
    Stmt.select_last_created_at d = Some (s_created_at s) /\
    forall s', s' ∈ snapshots d -> s_created_at s' <= s_created_at s.
Proof.
  intros Hne. unfold Stmt.select_last_created_at.
  pose proof (order_by_perm Stmt.newest_first (snapshots d)) as Hperm.
  pose proof (newest_first_sorted (snapshots d)) as Hsorted.
  destruct (Sql.order_by Stmt.newest_first (snapshots d)) as [|s rest] eqn:Hord.
  - apply Permutation_nil in Hperm. done.
  - exists s. split; [rewrite <- Hperm; apply elem_of_cons; by left|].
    split; [done|].
    intros s' Hs'. rewrite <- Hperm in Hs'.
    apply elem_of_cons in Hs' as [->|Hs']; [lia|].
    apply (Hsorted s s' 1%nat); simpl; [apply elem_of_cons; by left|].
    by rewrite drop_0.
Qed.

(** The start-up task with a snapshot in the table, without storage
    error: no snapshot procedure is called, one timer is armed. *)
Lemma setup_with_snapshot now w last :
  quiet w ->
  Stmt.select_last_created_at (store w) = Some last ->
  wp (setupAutomaticSnapshots now)
     (fun r w' =>
        r = Returned tt /\
        trace w' = trace w ++ [ArmedTimeout (initial_delay now (JsDate.parse_utc last))] /\
        store w' = store w /\ txn w' = txn w) w.
Proof.
  intros Hq Hlast. unfold setupAutomaticSnapshots. apply wp_bind.
  eapply wp_mono; [apply getLastSnapshotTime_spec|].
  cbv beta. intros r w0 (Hst & Ht & Htr & _ & res & -> & _ & Hres).
  rewrite (Hres Hq), Hlast. simpl.
  apply wp_bind, wp_ret, wp_note. autorewrite with conn.
  by rewrite Htr, Hst, Ht.
Qed.

Lemma snapshot_taken_keeps_wf now d info d' :
  wf_db d -> snapshot_taken now d = Some (info, d') ->
  wf_db d' /\ length (snapshots d') = S (length (snapshots d)) /\
  info_id info = Stmt.next_id d /\ info_name info = snapshot_name now /\
  (snapshot_name now ∉ map s_name (snapshots d)) /\
  channel_activity d <> [] /\
  snapshots d' = snapshots d ++
    [ {| s_id := Stmt.next_id d; s_name := snapshot_name now;
         s_created_at := Sql.current_timestamp now |} ].
Proof.
  intros Hwf Htaken.
  assert ((snapshot_name now ∉ map s_name (snapshots d)) /\ channel_activity d <> [])
    as [Hfresh Hne].
  { unfold snapshot_taken in Htaken.
    destruct (Stmt.insert_snapshot _ _ _) as [[id d1]|] eqn:Hins; [|discriminate].
    apply insert_snapshot_activity in Hins as (Hact & _ & _ & _ & _ & Hfresh).
    split; [done|]. intros Hempty.
    unfold Stmt.select_activity in Htaken. rewrite Hact, Hempty in Htaken.
    simpl in Htaken. discriminate. }
  destruct (snapshot_taken_wf now d Hwf Hne Hfresh) as (info0 & d0 & Htaken0 & -> & -> & Hwf0).
  rewrite Htaken in Htaken0. injection Htaken0 as -> ->.
  split; [done|]. split; [|done].
  simpl. rewrite length_app. simpl. lia.
Qed.

(** What the start-up task leaves in the log, in general. *)
Lemma setup_trace now w :
  wp (setupAutomaticSnapshots now)
     (fun r w' =>
        r = Returned tt /\ txn w' = txn w /\
        (trace w' = trace w ++ [CalledCreate now; CalledCleanup 100; ArmedTimeout 0] \/
         exists delay, trace w' = trace w ++ [ArmedTimeout delay])) w.
Proof.
  unfold setupAutomaticSnapshots. apply wp_bind.
  eapply wp_mono; [apply getLastSnapshotTime_spec|].
  cbv beta. intros r w0 (Hst & Ht & Htr & _ & res & -> & _ & _).
  destruct res as [last|].
  - apply wp_bind, wp_ret, wp_note. autorewrite with conn.
    rewrite Htr, Ht. eauto.
  - apply wp_bind, wp_bind.
    eapply wp_mono; [apply createSnapshot_trace|].
    cbv beta. intros r w1 ((res & ->) & Htr1 & Ht1).
    apply wp_bind.
    eapply wp_mono; [apply cleanupOldSnapshots_trace|].
    cbv beta. intros r w2 (-> & Htr2 & Ht2).
    apply wp_ret, wp_note. split; [done|].
    autorewrite with conn. rewrite Htr2, Htr1, Htr, Ht2, Ht1, Ht, <- !app_assoc. auto.
Qed.

(** ** Calls on the connection *)

Lemma issued_tick w : issued (Conn.tick w) = S (issued w).
Proof. reflexivity. Qed.

Lemma issued_with_store w d : issued (Conn.with_store w d) = issued w.
Proof. reflexivity. Qed.

Lemma issued_with_txn w d t : issued (Conn.with_txn w d t) = issued w.
Proof. reflexivity. Qed.

Lemma issued_noted w e : issued (Conn.noted w e) = issued w.
Proof. reflexivity. Qed.

Lemma chunks_of_step (m : nat) :
  (1 <= m)%nat -> chunks_of m = S (chunks_of (m - chunkSize)).
Proof.
  intros Hm. unfold chunks_of.
  assert (chunkSize = 1000%nat) as -> by reflexivity.
  apply Nat2Z.inj. rewrite Nat2Z.inj_succ, !Nat2Z.inj_div.
  zify. Z.div_mod_to_equations. lia.
Qed.

Lemma chunks_of_zero : chunks_of 0 = 0%nat.
Proof. reflexivity. Qed.

(** The loop makes one call per chunk. *)
Lemma insert_chunks_calls id data fuel : forall i w,
  (length data <= i + fuel)%nat ->
  wp (insert_chunks fuel i id data)
     (fun r w' =>
        match r with
        | Returned _ => issued w' = (issued w + chunks_of (length data - i))%nat
        | Thrown _ => True
        end) w.
Proof.
  induction fuel as [|fuel IH]; intros i w Hlen; simpl.
  - apply wp_ret. replace (length data - i)%nat with 0%nat by lia.
    rewrite chunks_of_zero. lia.
  - destruct (i <? length data)%nat eqn:Hi.
    + apply Nat.ltb_lt in Hi. apply wp_bind, wp_run; [done|].
      intros _. destruct (Stmt.insert_snapshot_data _ (store w)) as [[[] d1]|]; [|done].
      eapply wp_mono; [apply IH; pose proof chunkSize_pos; lia|].
      cbv beta. intros r w'. destruct r as [[]|e]; [|done].
      rewrite issued_with_store, issued_tick. intros ->.
      rewrite (chunks_of_step (length data - i)) by lia.
      replace (length data - (i + chunkSize))%nat
        with (length data - i - chunkSize)%nat by lia.
      lia.
    + apply wp_ret. apply Nat.ltb_ge in Hi.
      replace (length data - i)%nat with 0%nat by lia.
      rewrite chunks_of_zero. lia.
Qed.

Lemma wp_and {A} (m : Async A) (Q1 Q2 : Outcome A -> World -> Prop) w :
  wp m Q1 w -> wp m Q2 w -> wp m (fun r w' => Q1 r w' /\ Q2 r w') w.
Proof. unfold wp. auto. Qed.

(** The calls of a snapshot that is taken: [BEGIN], the [INSERT] into
    [snapshots], the [SELECT], one [INSERT] per chunk, [COMMIT]. *)
Lemma createSnapshot_calls now w :
  wp (createSnapshot now)
     (fun r w' =>
        match r with
        | Returned (Some _) =>
            issued w' = (issued w + 4 + chunks_of (length (channel_activity (store w))))%nat
        | _ => True
        end) w.
Proof.
  unfold createSnapshot.
  apply wp_bind, wp_note, wp_try, wp_bind, wp_begin; [intros _; by apply wp_ret|].
  intros _. rewrite txn_noted.
  destruct (txn w) as [d0|]; [by apply wp_ret|].
  apply wp_try, wp_bind, wp_run.
  { intros _. apply wp_bind, wp_rollback. autorewrite with conn. by apply wp_ret. }
  intros _. autorewrite with conn.
  destruct (Stmt.insert_snapshot (snapshot_name now) now (store w)) as [[id d1]|] eqn:Hins.
  2: { apply wp_bind, wp_rollback. autorewrite with conn. by apply wp_ret. }
  destruct (insert_snapshot_activity _ _ _ _ _ Hins) as (Hact & _).
  apply wp_bind, wp_query.
  { intros _. apply wp_bind, wp_rollback. autorewrite with conn. by apply wp_ret. }
  intros _. autorewrite with conn.
  assert (length (Stmt.select_activity d1) = length (channel_activity (store w))) as Hlen
    by (unfold Stmt.select_activity; by rewrite order_by_length, Hact).
  destruct (length (Stmt.select_activity d1) =? 0)%nat.
  { apply wp_bind, wp_rollback. autorewrite with conn. by apply wp_ret. }
  apply wp_bind.
  eapply wp_mono;
    [apply wp_and; [apply insert_chunks_spec; lia|apply insert_chunks_calls; lia]|].
  cbv beta. intros r w2 [(Ht & _) Hcalls]. autorewrite with conn in Ht.
  destruct r as [[]|e].
  - apply wp_bind, wp_commit.
    + intros _. apply wp_bind, wp_rollback. autorewrite with conn. rewrite Ht.
      by apply wp_ret.
    + intros _. rewrite Ht. apply wp_ret.
      rewrite issued_with_txn, issued_tick, Hcalls, Nat.sub_0_r, Hlen.
      rewrite issued_with_store, issued_tick, issued_with_store, issued_tick,
        issued_with_txn, issued_tick, issued_noted.
      lia.
  - apply wp_bind, wp_rollback. rewrite Ht. by apply wp_ret.
Qed.

(** ** Firings without storage error *)

(** On a connection with no transaction open and no storage error ahead,
    [createSnapshot] reports the snapshot that [snapshot_taken] gives, and
    leaves its tables. *)
Lemma createSnapshot_quiet now w :
  txn w = None -> quiet w ->
  wp (createSnapshot now)
     (fun r w' =>
        r = Returned (fst <$> snapshot_taken now (store w)) /\
        store w' = snapshot_or_same now (store w) /\
        txn w' = None /\ quiet w' /\
        trace w' = trace w ++ [CalledCreate now]) w.
Proof.
  intros Htxn Hq.
  eapply wp_mono; [apply (createSnapshot_spec now w Htxn)|].
  cbv beta. intros r w' (Ht & Htr & Hq' & Hr). unfold snapshot_or_same.
  destruct r as [[info|]|e]; [| |done].
  - destruct Hr as [_ ->]. auto 10.
  - destruct Hr as [-> Hr]. rewrite (Hr Hq). auto 10.
Qed.

Lemma cleanupOldSnapshots_quiet keepCountArg w :
  txn w = None -> quiet w ->
  wp (cleanupOldSnapshots keepCountArg)
     (fun r w' =>
        r = Returned tt /\
        store w' = pruned (default 100 keepCountArg) (store w) /\
        txn w' = None /\ quiet w' /\
        trace w' = trace w ++ [CalledCleanup (default 100 keepCountArg)]) w.
Proof.
  intros Htxn Hq.
  eapply wp_mono; [apply (cleanupOldSnapshots_spec keepCountArg w Htxn)|].
  cbv beta. intros r w' (-> & Ht & Htr & Hq' & _ & Hst). auto 10.
Qed.

Lemma scheduled_firing_quiet now w :
  txn w = None -> quiet w ->
  wp (scheduled_firing now)
     (fun r w' =>
        r = Returned tt /\
        store w' = fired now (store w) /\
        txn w' = None /\ quiet w' /\
        trace w' = trace w ++ [CalledCreate now; CalledCleanup 100]) w.
Proof.
  intros Htxn Hq. unfold scheduled_firing. apply wp_bind.
  eapply wp_mono; [apply (createSnapshot_quiet now w Htxn Hq)|].
  cbv beta. intros r w1 (-> & Hst1 & Ht1 & Hq1 & Htr1).
  eapply wp_mono; [apply (cleanupOldSnapshots_quiet None w1 Ht1 Hq1)|].
  cbv beta. intros r w' (-> & Hst & Ht & Hq' & Htr).
  split; [done|]. split; [by rewrite Hst, Hst1|]. split; [done|]. split; [done|].
  by rewrite Htr, Htr1, <- app_assoc.
Qed.

Lemma on_timeout_quiet now w :
  txn w = None -> quiet w ->
  wp (on_timeout now)
     (fun r w' =>
        r = Returned tt /\
        store w' = fired now (store w) /\
        txn w' = None /\ quiet w' /\
        trace w' = trace w ++
          [ArmedInterval SNAPSHOT_INTERVAL; CalledCreate now; CalledCleanup 100]) w.
Proof.
  intros Htxn Hq. unfold on_timeout. apply wp_bind, wp_note.
  eapply wp_mono; [apply scheduled_firing_quiet; autorewrite with conn; auto with conn|].
  cbv beta. intros r w' (-> & Hst & Ht & Hq' & Htr).
  autorewrite with conn in Hst, Htr.
  split; [done|]. split; [done|]. split; [done|]. split; [done|].
  by rewrite Htr, <- app_assoc.
Qed.

Lemma run_intervals_quiet later : forall w,
  txn w = None -> quiet w ->
  wp (run_intervals later)
     (fun r w' =>
        r = Returned tt /\
        store w' = fired_all later (store w) /\
        txn w' = None /\ quiet w' /\
        trace w' = trace w ++
          flat_map (fun t => [CalledCreate t; CalledCleanup 100]) later) w.
Proof.
  induction later as [|t later IH]; intros w Htxn Hq; simpl.
  - apply wp_ret. by rewrite app_nil_r.
  - apply wp_bind. unfold on_interval.
    eapply wp_mono; [apply (scheduled_firing_quiet t w Htxn Hq)|].
    cbv beta. intros r w1 (-> & Hst1 & Ht1 & Hq1 & Htr1).
    eapply wp_mono; [apply (IH w1 Ht1 Hq1)|].
    cbv beta. intros r w' (-> & Hst & Ht & Hq' & Htr).
    split; [done|]. split; [by rewrite Hst, Hst1|]. split; [done|]. split; [done|].
    by rewrite Htr, Htr1, <- app_assoc.
Qed.

(** The start-up task when [getLastSnapshotTime] answers [null] -- the
    table is empty, or the query met a storage error -- and no later call
    meets one. *)
Lemma setup_first_run now w :
  txn w = None -> quiet (Conn.tick w) ->
  Conn.faulty w = true \/ snapshots (store w) = [] ->
  wp (setupAutomaticSnapshots now)
     (fun r w' =>
        r = Returned tt /\
        store w' = fired now (store w) /\
        txn w' = None /\ quiet w' /\
        trace w' = trace w ++ [CalledCreate now; CalledCleanup 100; ArmedTimeout 0]) w.
Proof.
  intros Htxn Hq Hnull. unfold setupAutomaticSnapshots, getLastSnapshotTime.
  assert (forall w0, store w0 = store w -> txn w0 = None -> quiet w0 ->
            trace w0 = trace w ->
            wp (initialDelay ← (_ ← createSnapshot now;
                                _ ← cleanupOldSnapshots None;
                                mret 0);
                Conn.note (ArmedTimeout initialDelay))
               (fun r w' =>
                  r = Returned tt /\
                  store w' = fired now (store w) /\
                  txn w' = None /\ quiet w' /\
                  trace w' = trace w ++
                    [CalledCreate now; CalledCleanup 100; ArmedTimeout 0]) w0) as Hrest.
  { intros w0 Hs0 Ht0 Hq0 Htr0. apply wp_bind, wp_bind.
    eapply wp_mono; [apply (createSnapshot_quiet now w0 Ht0 Hq0)|].
    cbv beta. intros r w1 (-> & Hst1 & Ht1 & Hq1 & Htr1).
    apply wp_bind.
    eapply wp_mono; [apply (cleanupOldSnapshots_quiet None w1 Ht1 Hq1)|].
    cbv beta. intros r w2 (-> & Hst2 & Ht2 & Hq2 & Htr2).
    apply wp_ret, wp_note. autorewrite with conn.
    split; [done|]. split; [by rewrite Hst2, Hst1, Hs0|]. split; [done|].
    split; [auto with conn|]. by rewrite Htr2, Htr1, Htr0, <- !app_assoc. }
  apply wp_bind, wp_try, wp_bind, wp_query.
  - intros Hf. apply wp_ret. cbv beta iota. apply Hrest; by autorewrite with conn.
  - intros Hf. destruct Hnull as [Hfault|Hnone]; [congruence|].
    apply wp_ret. unfold Stmt.select_last_created_at. rewrite Hnone.
    cbv beta iota. simpl. apply Hrest; autorewrite with conn; auto with conn.
Qed.

Lemma pruned_nothing keepCount d :
  Z.of_nat (length (snapshots d)) <= keepCount -> pruned keepCount d = d.
Proof.
  intros Hle. unfold pruned, Stmt.select_ids_newest_first.
  rewrite length_map, order_by_length.
  by rewrite (proj2 (Z.leb_le _ _) Hle).
Qed.

Lemma snapshot_taken_name_taken now d :
  snapshot_name now ∈ map s_name (snapshots d) -> snapshot_taken now d = None.
Proof.
  intros Htaken. unfold snapshot_taken.
  destruct (Stmt.insert_snapshot _ _ _) as [[id d1]|] eqn:Hins; [|done].
  by apply insert_snapshot_activity in Hins as (_ & _ & _ & _ & _ & Hfresh).
Qed.

(** What a snapshot of a non-empty store under a fresh name adds. *)
Lemma snapshot_or_same_taken now d :
  wf_db d -> channel_activity d <> [] ->
  snapshot_name now ∉ map s_name (snapshots d) ->
  snapshot_or_same now d =
    {| channel_activity := channel_activity d;
       snapshots := snapshots d ++
         [ {| s_id := Stmt.next_id d; s_name := snapshot_name now;
              s_created_at := Sql.current_timestamp now |} ];
       snapshot_data := snapshot_data d ++
         map (snapshot_row (Stmt.next_id d)) (Stmt.select_activity d);
       sqlite_sequence := Some (Stmt.next_id d) |}.
Proof.
  intros Hwf Hne Hfresh.
  destruct (snapshot_taken_wf now d Hwf Hne Hfresh) as (info & d' & Htaken & _ & -> & _).
  unfold snapshot_or_same. by rewrite Htaken.
Qed.

Lemma snapshot_or_same_wf now d : wf_db d -> wf_db (snapshot_or_same now d).
Proof.
  intros Hwf. unfold snapshot_or_same.
  destruct (snapshot_taken now d) as [[info d1]|] eqn:Htaken; [|done].
  by destruct (snapshot_taken_keeps_wf now d info d1 Hwf Htaken).
Qed.

Lemma snapshot_or_same_length now d :
  wf_db d ->
  (length (snapshots d) <= length (snapshots (snapshot_or_same now d))
   <= S (length (snapshots d)))%nat.
Proof.
  intros Hwf. unfold snapshot_or_same.
  destruct (snapshot_taken now d) as [[info d1]|] eqn:Htaken; [|lia].
  destruct (snapshot_taken_keeps_wf now d info d1 Hwf Htaken) as (_ & -> & _). lia.
Qed.

Lemma fired_wf now d : wf_db d -> wf_db (fired now d).
Proof. intros Hwf. by apply pruned_wf, snapshot_or_same_wf. Qed.

(** A firing leaves at most 100 snapshots: exactly 100 when there were 100
    or more, and all of them when the snapshot makes no more than 100. *)
Lemma fired_bound now d :
  wf_db d ->
  Z.of_nat (length (snapshots (fired now d))) <= 100 /\
  (100 <= Z.of_nat (length (snapshots d)) ->
   Z.of_nat (length (snapshots (fired now d))) = 100) /\
  (Z.of_nat (length (snapshots (snapshot_or_same now d))) <= 100 ->
   fired now d = snapshot_or_same now d).
Proof.
  intros Hwf. unfold fired.
  pose proof (snapshot_or_same_wf now d Hwf) as Hwf1.
  pose proof (snapshot_or_same_length now d Hwf) as Hlen.
  assert (NoDup (map s_id (snapshots (snapshot_or_same now d)))) as Hnd by apply Hwf1.
  rewrite (pruned_length 100 _ Hnd) by lia.
  split; [lia|]. split; [lia|]. apply pruned_nothing.
Qed.

Lemma fired_all_bound later : forall d,
  wf_db d -> Z.of_nat (length (snapshots d)) <= 100 ->
  wf_db (fired_all later d) /\
  Z.of_nat (length (snapshots (fired_all later d))) <= 100.
Proof.
  induction later as [|t later IH]; intros d Hwf Hle; [done|].
  simpl. apply IH; [by apply fired_wf|]. by apply fired_bound.
Qed.

(** The one call of a pruning that finds no more snapshots than it keeps. *)
Lemma cleanupOldSnapshots_one_call keepCountArg w :
  Conn.faulty w = false ->
  Z.of_nat (length (snapshots (store w))) <= default 100 keepCountArg ->
  wp (cleanupOldSnapshots keepCountArg)
     (fun r w' => r = Returned tt /\ issued w' = S (issued w)) w.
Proof.
  intros Hf Hle. unfold cleanupOldSnapshots.
  apply wp_bind, wp_note, wp_try, wp_bind, wp_query.
  - rewrite faulty_noted. congruence.
  - intros _. autorewrite with conn.
    unfold Stmt.select_ids_newest_first. rewrite length_map, order_by_length.
    rewrite (proj2 (Z.leb_le _ _) Hle). apply wp_ret.
    by rewrite issued_with_store, issued_tick, issued_noted.
Qed.

(** The calls of the start-up task that finds no snapshot: the query for
    the last snapshot, the calls of the snapshot, the query of the
    pruning. *)
Lemma setup_first_run_calls now w :
  txn w = None -> quiet w -> snapshots (store w) = [] ->
  wf_db (store w) -> channel_activity (store w) <> [] ->
  wp (setupAutomaticSnapshots now)
     (fun _ w' =>
        issued w' = (issued w + 6 + chunks_of (length (channel_activity (store w))))%nat) w.
Proof.
  intros Htxn Hq Hnone Hwf Hact. unfold setupAutomaticSnapshots, getLastSnapshotTime.
  apply wp_bind, wp_try, wp_bind, wp_query; [intros; no_fault|].
  intros _. apply wp_ret. unfold Stmt.select_last_created_at. rewrite Hnone.
  cbn [Sql.order_by foldr map head fmap option_fmap option_map].
  set (w0 := Conn.with_store (Conn.tick w) (store w)).
  assert (store w0 = store w /\ txn w0 = None /\ quiet w0 /\ issued w0 = S (issued w))
    as (Hs0 & Ht0 & Hq0 & Hi0).
  { unfold w0. autorewrite with conn. rewrite issued_with_store, issued_tick.
    auto 10 with conn. }
  clearbody w0. rewrite <- Hs0 in Hwf, Hact, Hnone.
  assert (snapshot_name now ∉ map s_name (snapshots (store w0))) as Hfresh
    by (rewrite Hnone; apply not_elem_of_nil).
  apply wp_bind, wp_bind.
  eapply wp_mono;
    [apply wp_and;
       [apply (createSnapshot_succeeds now w0 Ht0 Hq0 Hwf Hact Hfresh)
       |apply createSnapshot_calls]|].
  cbv beta. intros r w1 [(-> & Hst1 & _ & Ht1 & Hq1 & _) Hcalls1].
  apply wp_bind.
  eapply wp_mono; [apply (cleanupOldSnapshots_one_call None w1)|].
  - destruct (Conn.faulty w1) eqn:Hf; [no_fault|done].
  - rewrite Hst1, Hnone. simpl. lia.
  - cbv beta. intros r w2 [-> Hcalls2].
    apply wp_ret, wp_note. rewrite issued_noted, Hcalls2, Hcalls1, Hi0, Hs0. lia.
Qed.

(** The start-up task on a connection with no transaction open and no
    storage error ahead: it leaves the tables as they are, or as a firing
    leaves them. *)
Lemma setup_quiet now w :
  txn w = None -> quiet w ->
  wp (setupAutomaticSnapshots now)
     (fun r w' =>
        r = Returned tt /\ txn w' = None /\ quiet w' /\
        (store w' = store w \/ store w' = fired now (store w))) w.
Proof.
  intros Htxn Hq.
  destruct (snapshots (store w)) as [|s l] eqn:Hsn.
  - eapply wp_mono;
      [apply (setup_first_run now w Htxn ltac:(auto with conn) (or_intror Hsn))|].
    cbv beta. intros r w' (-> & Hst & Ht & Hq' & _). auto.
  - assert (snapshots (store w) <> []) as Hne by (by rewrite Hsn).
    destruct (select_last_created_at_Some (store w) Hne) as (newest & _ & Hlast & _).
    unfold setupAutomaticSnapshots, getLastSnapshotTime.
    apply wp_bind, wp_try, wp_bind, wp_query; [intros; no_fault|].
    intros _. apply wp_ret. rewrite Hlast. cbn [fmap option_fmap option_map].
    apply wp_bind, wp_ret, wp_note. autorewrite with conn. auto 10 with conn.
Qed.

(** After the scheduler has run -- the start-up task, the callback of its
    timer, any firings of the interval timer -- on a well-formed database
    and without storage error, at most 100 snapshots are left. *)
Lemma run_scheduler_bound start first later w :
  txn w = None -> quiet w -> wf_db (store w) ->
  wp (run_scheduler start first later)
     (fun _ w' => Z.of_nat (length (snapshots (store w'))) <= 100) w.
Proof.
  intros Htxn Hq Hwf. unfold run_scheduler. apply wp_bind.
  eapply wp_mono; [apply (setup_quiet start w Htxn Hq)|].
  cbv beta. intros r w1 (-> & Ht1 & Hq1 & Hst1).
  assert (wf_db (store w1)) as Hwf1
    by (destruct Hst1 as [-> | ->]; [done|by apply fired_wf]).
  apply wp_bind.
  eapply wp_mono; [apply (on_timeout_quiet first w1 Ht1 Hq1)|].
  cbv beta. intros r w2 (-> & Hst2 & Ht2 & Hq2 & _).
  eapply wp_mono; [apply (run_intervals_quiet later w2 Ht2 Hq2)|].
  cbv beta. intros r w3 (_ & -> & _). rewrite Hst2.
  apply fired_all_bound; [by apply fired_wf|]. by apply fired_bound.
Qed.

(** ** The get route *)

Lemma get_snapshots_route_quiet id w :
  quiet w ->
  wp (get_snapshots_route (Some id))
     (fun r w' =>
        store w' = store w /\ txn w' = txn w /\ quiet w' /\
        r = Returned (match Stmt.select_snapshot id (store w) with
                      | None => GetNotFound
                      | Some snapshot => GetOne snapshot (users_view id (store w))
                      end)) w.
Proof.
  intros Hq. unfold get_snapshots_route, users_view.
  apply wp_try, wp_bind, wp_query; [intros; no_fault|].
  intros _. autorewrite with conn.
  destruct (Stmt.select_snapshot id (store w)) as [snapshot|].
  2: { apply wp_ret. settle. }
  apply wp_bind, wp_query; [intros; no_fault|].
  intros _. autorewrite with conn.
  apply wp_bind, wp_query; [intros; no_fault|].
  intros _. autorewrite with conn.
  apply wp_ret. settle.
Qed.

Lemma select_snapshot_None id d :
  id ∉ map s_id (snapshots d) -> Stmt.select_snapshot id d = None.
Proof.
  intros Hid. unfold Stmt.select_snapshot.
  rewrite (filter_none_bool _ (snapshots d)); [done|].
  intros s Hs. apply Z.eqb_neq. intros Heq. apply Hid, list_elem_of_fmap. eauto.
Qed.

Lemma distinct_spec l :
  NoDup (Query.distinct l) /\ forall x, x ∈ Query.distinct l <-> x ∈ l.
Proof.
  induction l as [|y l [IHnd IHin]]; simpl; [split; [constructor|done]|].
  split.
  - constructor; [|by apply NoDup_filter_bool].
    rewrite elem_of_filter_bool, String.eqb_refl. simpl. by intros [_ [=]].
  - intros x. rewrite !elem_of_cons, elem_of_filter_bool, IHin.
    rewrite negb_true_iff, String.eqb_neq.
    destruct (decide (x = y)); tauto.
Qed.

Lemma sum_perm l l' : Permutation l l' -> Sql.sum l = Sql.sum l'.
Proof.
  unfold Sql.sum. induction 1; simpl; lia.
Qed.

Lemma of_user_perm u l l' :
  Permutation l l' -> Permutation (Query.of_user u l) (Query.of_user u l').
Proof. apply filter_perm_bool. Qed.

(** The object [userChannels]: under each user id, that user's channel
    entries in the order of the query. *)
Lemma group_channels_from acc l u :
  foldl push_channel acc l !! u =
  match Query.of_user u l with
  | [] => acc !! u
  | rows => Some (default [] (acc !! u) ++ map channel_view rows)
  end.
Proof.
  revert acc. induction l as [|a l IH]; intros acc; simpl; [done|].
  rewrite IH. unfold push_channel at 1 2.
  destruct (String.eqb_spec (sd_user_id a) u) as [->|Hne].
  - rewrite lookup_insert_eq. simpl.
    destruct (Query.of_user u l) as [|r rows]; [done|].
    by rewrite <- app_assoc.
  - by rewrite lookup_insert_ne.
Qed.

Lemma group_channels_lookup l u :
  default [] (group_channels l !! u) = map channel_view (Query.of_user u l).
Proof.
  unfold group_channels. rewrite group_channels_from, lookup_empty.
  by destruct (Query.of_user u l).
Qed.

(** The [users] array: one entry per user with rows in the snapshot, the
    total summed over that user's rows, the channels those rows. *)
Lemma users_view_spec id d :
  let rows := Query.of_snapshot id d in
  NoDup (map user_of (users_view id d)) /\
  (forall u, u ∈ map user_of (users_view id d) <-> u ∈ map sd_user_id rows) /\
  (forall uv, uv ∈ users_view id d ->
     ut_total_messages (uv_user uv)
       = Sql.sum (map sd_message_count (Query.of_user (user_of uv) rows)) /\
     Permutation (uv_channels uv) (map channel_view (Query.of_user (user_of uv) rows))).
Proof.
  intros rows. unfold users_view.
  set (sorted := Query.index_scan id d).
  assert (Permutation sorted rows) as Hsorted by apply order_by_perm.
  set (groups := map (fun user => Query.aggregate user (Query.of_user user sorted))
                     (Query.distinct (map sd_user_id sorted))).
  assert (Query.select_user_totals id d
          = Sql.order_by (fun u1 u2 => ut_total_messages u2 <=? ut_total_messages u1) groups)
    as Htotals by reflexivity.
  assert (Permutation (Query.select_user_totals id d) groups) as Hperm
    by (rewrite Htotals; apply order_by_perm).
  destruct (distinct_spec (map sd_user_id sorted)) as [Hnd Hin].
  assert (map ut_user_id groups = Query.distinct (map sd_user_id sorted)) as Hids.
  { unfold groups. rewrite map_map. simpl. apply map_id. }
  assert (map user_of
            (map (fun user =>
                    {| uv_user := user;
                       uv_channels :=
                         default [] (group_channels (Query.select_channel_activity id d)
                                       !! ut_user_id user) |})
                 (Query.select_user_totals id d))
          = map ut_user_id (Query.select_user_totals id d)) as Hmap
    by (by rewrite map_map).
  assert (Permutation (map ut_user_id (Query.select_user_totals id d))
                      (Query.distinct (map sd_user_id sorted))) as Hidp
    by (by rewrite (Permutation_map ut_user_id Hperm), Hids).
  rewrite Hmap.
  split; [by rewrite Hidp|]. split.
  - intros u. rewrite Hidp, Hin. by rewrite (Permutation_map sd_user_id Hsorted).
  - intros uv (user & -> & Huser)%list_elem_of_fmap. simpl.
    rewrite Hperm in Huser. apply list_elem_of_fmap in Huser as (u & -> & Hu).
    unfold user_of. simpl.
    split.
    + apply sum_perm, Permutation_map, of_user_perm, Hsorted.
    + rewrite group_channels_lookup.
      apply Permutation_map, of_user_perm.
      unfold Query.select_channel_activity.
      etransitivity; [apply order_by_perm|exact Hsorted].
Qed.

(** ** The calendar fields of an instant *)

Section DateArithmetic.
Import JsDate.

Lemma DayFromYear_step y : DayFromYear (y + 1) = DayFromYear y + DaysInYear y.
Proof.
  unfold DayFromYear, DaysInYear, isLeap.
  destruct (Z.eqb_spec (y mod 4) 0); destruct (Z.eqb_spec (y mod 100) 0);
    destruct (Z.eqb_spec (y mod 400) 0); simpl; Z.div_mod_to_equations; lia.
Qed.

Lemma DayFromYear_mono y1 y2 : y1 <= y2 -> DayFromYear y1 <= DayFromYear y2.
Proof. unfold DayFromYear. intros. Z.div_mod_to_equations. lia. Qed.

(** [YearFromDay] is the year of the day: the largest year that starts
    on or before it. *)
Lemma YearFromDay_spec d :
  DayFromYear (YearFromDay d) <= d < DayFromYear (YearFromDay d + 1).
Proof.
  unfold YearFromDay.
  set (y := 1970 + 400 * d / 146097).
  assert (DayFromYear (y - 1) <= d < DayFromYear (y + 2)) as Hb.
  { unfold y, DayFromYear. Z.div_mod_to_equations. lia. }
  destruct (Z.leb_spec (DayFromYear (y + 1)) d).
  - replace (y + 1 + 1) with (y + 2) by lia. lia.
  - destruct (Z.leb_spec (DayFromYear y) d).
    + lia.
    + replace (y - 1 + 1) with y by lia. lia.
Qed.

Lemma DayWithinYear_range t :
  0 <= DayWithinYear t < 365 + InLeapYear t.
Proof.
  unfold DayWithinYear, InLeapYear, YearFromTime.
  pose proof (YearFromDay_spec (Day t)) as Hy.
  rewrite DayFromYear_step in Hy. unfold DaysInYear in Hy.
  destruct (isLeap (YearFromDay (Day t))); lia.
Qed.

Lemma InLeapYear_cases t : InLeapYear t = 0 \/ InLeapYear t = 1.
Proof. unfold InLeapYear. destruct (isLeap _); auto. Qed.

Lemma YearFromTime_range t : four_digit_year t -> 0 <= YearFromTime t <= 9999.
Proof.
  unfold four_digit_year, YearFromTime. intros Ht.
  pose proof (YearFromDay_spec (Day t)) as Hy.
  assert (DayFromYear 0 <= Day t < DayFromYear 10000) as Hd.
  { unfold Day, msPerDay. change (DayFromYear 0) with (-719528).
    change (DayFromYear 10000) with 2932897. Z.div_mod_to_equations. lia. }
  split.
  - destruct (Z.le_gt_cases 0 (YearFromDay (Day t))) as [|Hneg]; [done|].
    pose proof (DayFromYear_mono (YearFromDay (Day t) + 1) 0 ltac:(lia)). lia.
  - destruct (Z.le_gt_cases (YearFromDay (Day t)) 9999) as [|Hbig]; [done|].
    pose proof (DayFromYear_mono 10000 (YearFromDay (Day t)) ltac:(lia)). lia.
Qed.

Lemma MonthFromTime_range t : 0 <= MonthFromTime t <= 11.
Proof.
  unfold MonthFromTime, MonthFromDay.
  repeat match goal with
         | |- context [?a <? ?b] => destruct (Z.ltb_spec a b)
         end; lia.
Qed.

Lemma DateFromTime_range t : 1 <= DateFromTime t <= 31.
Proof.
  unfold DateFromTime, MonthFromTime.
  pose proof (DayWithinYear_range t) as Hdw.
  set (dw := DayWithinYear t) in *. clearbody dw.
  destruct (InLeapYear_cases t) as [Hl|Hl]; rewrite Hl in *; clear Hl;
    unfold MonthFromDay;
    repeat match goal with
           | |- context [?a <? ?b] => destruct (Z.ltb_spec a b); simpl
           end; unfold MonthStart; simpl; lia.
Qed.

End DateArithmetic.

(** ** Names compare as their instants *)

Section NameOrder.
Import JsDate.

Lemma then_cmp_assoc a b c : then_cmp (then_cmp a b) c = then_cmp a (then_cmp b c).
Proof. by destruct a. Qed.

Lemma then_cmp_Eq_r a : then_cmp a Eq = a.
Proof. by destruct a. Qed.

(** Comparing integers by quotient, then by remainder. *)
Lemma compare_div_mod a1 a2 b :
  0 < b ->
  (a1 ?= a2) = then_cmp (a1 / b ?= a2 / b) (a1 mod b ?= a2 mod b).
Proof.
  intros Hb.
  destruct (Z.compare_spec (a1 / b) (a2 / b)) as [Hq|Hq|Hq]; simpl.
  - destruct (Z.compare_spec (a1 mod b) (a2 mod b)) as [Hr|Hr|Hr].
    + apply Z.compare_eq_iff. Z.div_mod_to_equations. nia.
    + apply Z.compare_lt_iff. Z.div_mod_to_equations. nia.
    + apply Z.compare_gt_iff. Z.div_mod_to_equations. nia.
  - apply Z.compare_lt_iff. Z.div_mod_to_equations. nia.
  - apply Z.compare_gt_iff. Z.div_mod_to_equations. nia.
Qed.

Lemma compare_String c1 c2 s1 s2 :
  String.compare (String c1 s1) (String c2 s2)
  = then_cmp (Ascii.compare c1 c2) (String.compare s1 s2).
Proof. simpl. by destruct (Ascii.compare c1 c2). Qed.

Lemma compare_separator c s1 s2 :
  String.compare (String c s1) (String c s2) = String.compare s1 s2.
Proof.
  rewrite compare_String. unfold Ascii.compare. by rewrite N.compare_refl.
Qed.

Lemma N_of_digit n : N_of_ascii (digit n) = (48 + Z.to_N (n mod 10))%N.
Proof.
  unfold digit. apply N_ascii_embedding.
  pose proof (Z.mod_pos_bound n 10 ltac:(lia)). lia.
Qed.

Lemma compare_digit a b :
  Ascii.compare (digit a) (digit b) = (a mod 10 ?= b mod 10).
Proof.
  unfold Ascii.compare. rewrite !N_of_digit.
  pose proof (Z.mod_pos_bound a 10 ltac:(lia)).
  pose proof (Z.mod_pos_bound b 10 ltac:(lia)).
  rewrite <- N2Z.inj_compare, !N2Z.inj_add, !Z2N.id by lia.
  apply Z.add_compare_mono_l.
Qed.

Lemma digit_not_separator n :
  (Ascii.eqb (digit n) ":" || Ascii.eqb (digit n) ".")%bool = false.
Proof.
  unfold digit.
  pose proof (Z.mod_pos_bound n 10 ltac:(lia)) as Hk.
  assert (n mod 10 = 0 \/ n mod 10 = 1 \/ n mod 10 = 2 \/ n mod 10 = 3 \/
          n mod 10 = 4 \/ n mod 10 = 5 \/ n mod 10 = 6 \/ n mod 10 = 7 \/
          n mod 10 = 8 \/ n mod 10 = 9) as Hcases by lia.
  repeat destruct Hcases as [->|Hcases]; try reflexivity.
  by rewrite Hcases.
Qed.

Lemma replace_colon_dot_pad width : forall n rest,
  replace_colon_dot (pad width n rest) = pad width n (replace_colon_dot rest).
Proof.
  induction width as [|width IH]; intros n rest; simpl; [done|].
  rewrite IH. simpl. by rewrite digit_not_separator.
Qed.

(** Zero-padded decimal numbers of one width compare as the numbers do. *)
Lemma compare_pad width : forall n1 n2 rest1 rest2,
  0 <= n1 < 10 ^ Z.of_nat width ->
  0 <= n2 < 10 ^ Z.of_nat width ->
  String.compare (pad width n1 rest1) (pad width n2 rest2)
  = then_cmp (n1 ?= n2) (String.compare rest1 rest2).
Proof.
  induction width as [|width IH]; intros n1 n2 rest1 rest2 H1 H2.
  - simpl in *. assert (n1 = 0) as -> by lia. assert (n2 = 0) as -> by lia. done.
  - rewrite Nat2Z.inj_succ, Z.pow_succ_r in H1, H2 by lia.
    cbn [pad]. rewrite IH by (Z.div_mod_to_equations; lia).
    rewrite compare_String, compare_digit, <- then_cmp_assoc.
    by rewrite <- (compare_div_mod n1 n2 10) by lia.
Qed.

(** The name of an instant with a four-digit year, field by field. *)
Lemma snapshot_name_fields t :
  four_digit_year t ->
  snapshot_name t =
  pad 4 (YearFromTime t)
    (String "-" (pad 2 (MonthFromTime t + 1)
    (String "-" (pad 2 (DateFromTime t)
    (String "T" (pad 2 (HourFromTime t)
    (String "-" (pad 2 (MinFromTime t)
    (String "-" (pad 2 (SecFromTime t)
    (String "-" (pad 3 (msFromTime t) "Z")))))))))))).
Proof.
  intros Ht. pose proof (YearFromTime_range t Ht) as [Hlo Hhi].
  unfold snapshot_name, toISOString, year_field.
  apply Z.leb_le in Hlo, Hhi. rewrite Hlo, Hhi. cbn [andb].
  repeat (rewrite replace_colon_dot_pad; cbn [replace_colon_dot Ascii.eqb orb Bool.eqb]).
  reflexivity.
Qed.

End NameOrder.

Section InstantOrder.
Import JsDate.

(** Within a year, days compare as (month, day of month) does. *)
Lemma compare_month_date leap dw1 dw2 :
  leap = 0 \/ leap = 1 ->
  (dw1 ?= dw2)
  = then_cmp (MonthFromDay dw1 leap + 1 ?= MonthFromDay dw2 leap + 1)
      (dw1 - MonthStart (MonthFromDay dw1 leap) leap + 1
       ?= dw2 - MonthStart (MonthFromDay dw2 leap) leap + 1).
Proof.
  intros Hleap.
  assert (forall a b : Z, a < b -> forall c, then_cmp (a + 1 ?= b + 1) c = Lt) as Hlt.
  { intros a b Hab c. by rewrite (proj2 (Z.compare_lt_iff (a + 1) (b + 1))) by lia. }
  assert (forall a b : Z, b < a -> forall c, then_cmp (a + 1 ?= b + 1) c = Gt) as Hgt.
  { intros a b Hab c. by rewrite (proj2 (Z.compare_gt_iff (a + 1) (b + 1))) by lia. }
  assert (forall m c, then_cmp (m + 1 ?= m + 1) c = c) as Heq.
  { intros m c. by rewrite Z.compare_refl. }
  assert (forall k, (dw1 ?= dw2) = (dw1 - k + 1 ?= dw2 - k + 1)) as Hshift.
  { intros k. destruct (Z.compare_spec dw1 dw2);
      destruct (Z.compare_spec (dw1 - k + 1) (dw2 - k + 1)); try reflexivity; lia. }
  unfold MonthFromDay at 1 3.
  repeat match goal with
         | |- context [dw1 <? ?b] => destruct (Z.ltb_spec dw1 b); cbn [MonthStart]
         end;
    unfold MonthFromDay;
    repeat match goal with
           | |- context [dw2 <? ?b] => destruct (Z.ltb_spec dw2 b); cbn [MonthStart]
           end;
    first [ rewrite Heq; unfold MonthStart; simpl; apply Hshift
          | rewrite Hlt by lia; apply Z.compare_lt_iff; lia
          | rewrite Hgt by lia; apply Z.compare_gt_iff; lia ].
Qed.

(** Days compare as (year, month, day of month) does. *)
Lemma compare_day t1 t2 :
  (Day t1 ?= Day t2)
  = then_cmp (YearFromTime t1 ?= YearFromTime t2)
      (then_cmp (MonthFromTime t1 + 1 ?= MonthFromTime t2 + 1)
                (DateFromTime t1 ?= DateFromTime t2)).
Proof.
  unfold DateFromTime, MonthFromTime, DayWithinYear, InLeapYear, YearFromTime.
  pose proof (YearFromDay_spec (Day t1)) as H1.
  pose proof (YearFromDay_spec (Day t2)) as H2.
  destruct (Z.compare_spec (YearFromDay (Day t1)) (YearFromDay (Day t2))) as [Hy|Hy|Hy];
    cbn [then_cmp].
  - rewrite Hy in *.
    rewrite <- compare_month_date by (destruct (isLeap _); auto).
    destruct (Z.compare_spec (Day t1) (Day t2));
      destruct (Z.compare_spec (Day t1 - DayFromYear (YearFromDay (Day t2)))
                               (Day t2 - DayFromYear (YearFromDay (Day t2))));
      try reflexivity; lia.
  - apply Z.compare_lt_iff.
    pose proof (DayFromYear_mono (YearFromDay (Day t1) + 1) (YearFromDay (Day t2))
                  ltac:(lia)). lia.
  - apply Z.compare_gt_iff.
    pose proof (DayFromYear_mono (YearFromDay (Day t2) + 1) (YearFromDay (Day t1))
                  ltac:(lia)). lia.
Qed.

(** Instants compare as their calendar fields do. *)
Lemma compare_instant t1 t2 :
  (t1 ?= t2)
  = then_cmp (YearFromTime t1 ?= YearFromTime t2)
      (then_cmp (MonthFromTime t1 + 1 ?= MonthFromTime t2 + 1)
      (then_cmp (DateFromTime t1 ?= DateFromTime t2)
      (then_cmp (HourFromTime t1 ?= HourFromTime t2)
      (then_cmp (MinFromTime t1 ?= MinFromTime t2)
      (then_cmp (SecFromTime t1 ?= SecFromTime t2)
                (msFromTime t1 ?= msFromTime t2)))))).
Proof.
  unfold HourFromTime, MinFromTime, SecFromTime, msFromTime,
    msPerHour, msPerMinute, msPerSecond.
  rewrite (compare_div_mod t1 t2 1000) by lia.
  rewrite (compare_div_mod (t1 / 1000) (t2 / 1000) 60) by lia.
  rewrite !Z.div_div by lia. change (1000 * 60) with 60000.
  rewrite (compare_div_mod (t1 / 60000) (t2 / 60000) 60) by lia.
  rewrite !Z.div_div by lia. change (60000 * 60) with 3600000.
  rewrite (compare_div_mod (t1 / 3600000) (t2 / 3600000) 24) by lia.
  rewrite !Z.div_div by lia. change (3600000 * 24) with 86400000.
  change (t1 / 86400000) with (Day t1). change (t2 / 86400000) with (Day t2).
  rewrite compare_day. by rewrite !then_cmp_assoc.
Qed.

(** Names of instants with four-digit years compare, as strings, the way
    the instants do. *)
Lemma compare_snapshot_name t1 t2 :
  four_digit_year t1 -> four_digit_year t2 ->
  String.compare (snapshot_name t1) (snapshot_name t2) = (t1 ?= t2).
Proof.
  intros Ht1 Ht2.
  rewrite (snapshot_name_fields t1 Ht1), (snapshot_name_fields t2 Ht2), compare_instant.
  pose proof (YearFromTime_range t1 Ht1). pose proof (YearFromTime_range t2 Ht2).
  pose proof (MonthFromTime_range t1). pose proof (MonthFromTime_range t2).
  pose proof (DateFromTime_range t1). pose proof (DateFromTime_range t2).
  assert (forall t, 0 <= HourFromTime t < 24) as Hh
    by (intros t; apply Z.mod_pos_bound; lia).
  assert (forall t, 0 <= MinFromTime t < 60) as Hm
    by (intros t; apply Z.mod_pos_bound; lia).
  assert (forall t, 0 <= SecFromTime t < 60) as Hs
    by (intros t; apply Z.mod_pos_bound; lia).
  assert (forall t, 0 <= msFromTime t < 1000) as Hms
    by (intros t; apply Z.mod_pos_bound; unfold msPerSecond; lia).
  pose proof (Hh t1). pose proof (Hh t2). pose proof (Hm t1). pose proof (Hm t2).
  pose proof (Hs t1). pose proof (Hs t2). pose proof (Hms t1). pose proof (Hms t2).
  change (10 ^ Z.of_nat 4) with 10000 in *.
  repeat (rewrite compare_pad by (simpl; lia); rewrite ?compare_separator).
  simpl String.compare. by rewrite then_cmp_Eq_r.
Qed.

Lemma snapshot_name_injective t1 t2 :
  four_digit_year t1 -> four_digit_year t2 ->
  snapshot_name t1 = snapshot_name t2 -> t1 = t2.
Proof.
  intros Ht1 Ht2 Heq. apply Z.compare_eq_iff.
  rewrite <- (compare_snapshot_name t1 t2 Ht1 Ht2), Heq.
  generalize (snapshot_name t2). intros s.
  induction s as [|c s IH]; simpl; [done|].
  unfold Ascii.compare. by rewrite N.compare_refl.
Qed.

End InstantOrder.

(** ** The upsert *)

Lemma processMessage_counts now message w :
  quiet w -> qualifies message = true ->
  processMessage now message w
  = (Returned tt, Conn.with_store (Conn.tick w) (upsert_of now message (store w))).
Proof.
  unfold quiet, qualifies, processMessage, upsert_of.
  intros Hq [Hbot Hrole]%andb_true_iff.
  apply negb_true_iff in Hbot. rewrite Hbot.
  assert (Conn.exec
            (Stmt.upsert_activity (msg_author_id message) (msg_author_tag message)
               (getUserRoles (resolved_member message)) (msg_channel_id message)
               (msg_channel_name message) now) w
          = (Returned tt,
             Conn.with_store (Conn.tick w)
               (Stmt.upsert_activity (msg_author_id message) (msg_author_tag message)
                  (getUserRoles (resolved_member message)) (msg_channel_id message)
                  (msg_channel_name message) now (store w)))) as Hexec.
  { unfold Conn.exec, Conn.run, Conn.faulty. by rewrite Hq. }
  unfold resolved_member in *.
  destruct (msg_member message) as [m|].
  - unfold try_catch, mbind, Async_bind, mret, Async_ret.
    cbn -[hasTargetRole getUserRoles Conn.exec Stmt.upsert_activity].
    rewrite Hrole. cbn -[hasTargetRole getUserRoles Conn.exec Stmt.upsert_activity].
    by rewrite Hexec.
  - destruct (msg_guild_fetch message) as [[m|]|]; try discriminate.
    unfold try_catch, mbind, Async_bind, mret, Async_ret.
    cbn -[hasTargetRole getUserRoles Conn.exec Stmt.upsert_activity].
    rewrite Hrole. cbn -[hasTargetRole getUserRoles Conn.exec Stmt.upsert_activity].
    by rewrite Hexec.
Qed.

(** A message that does not count makes no call on the connection. *)
Lemma processMessage_ignores now message w :
  qualifies message = false ->
  processMessage now message w = (Returned tt, w).
Proof.
  unfold qualifies, resolved_member, processMessage.
  destruct (msg_author_bot message); [done|]. simpl.
  unfold try_catch, mbind, Async_bind, Conn.throw, mret, Async_ret.
  destruct (msg_member message) as [m|].
  - intros ->. reflexivity.
  - destruct (msg_guild_fetch message) as [[m|]|]; try reflexivity.
    intros ->. reflexivity.
Qed.

Lemma rows_of_unique u c d :
  NoDup (map activity_key (channel_activity d)) ->
  rows_of u c d = [] \/ exists r, rows_of u c d = [r].
Proof.
  unfold rows_of. induction (channel_activity d) as [|r rows IH]; simpl; [auto|].
  rewrite NoDup_cons. intros [Hr Hnd].
  destruct (Stmt.same_identity u c r) eqn:Hk; [|auto].
  right. exists r. f_equal.
  destruct (List.filter (Stmt.same_identity u c) rows) as [|r' l] eqn:Hf; [done|].
  exfalso. apply Hr.
  assert (r' ∈ List.filter (Stmt.same_identity u c) rows) as Hin
    by (rewrite Hf; apply elem_of_cons; by left).
  apply elem_of_filter_bool in Hin as [Hin Hk'].
  apply same_identity_key in Hk, Hk'. rewrite Hk, <- Hk'.
  apply list_elem_of_fmap. eauto.
Qed.

Lemma filter_map_preserving {X} (p : X -> bool) (f : X -> X) (l : list X) :
  (forall x, p (f x) = p x) ->
  List.filter p (map f l) = map f (List.filter p l).
Proof.
  intros Hp. induction l as [|x l IH]; simpl; [done|].
  rewrite Hp. destruct (p x); simpl; by rewrite IH.
Qed.

(** The upsert on its own identity: one row, the count one higher, the
    descriptive fields as supplied. *)
Lemma upsert_same u un ro c cn now d :
  NoDup (map activity_key (channel_activity d)) ->
  exists r,
    rows_of u c (Stmt.upsert_activity u un ro c cn now d) = [r] /\
    ca_message_count r = prior_count u c d + 1 /\
    ca_username r = un /\ ca_roles r = ro /\ ca_channel_name r = cn /\
    ca_last_message r = Sql.current_timestamp now.
Proof.
  intros Hnd. unfold prior_count.
  destruct (rows_of_unique u c d Hnd) as [Hnone|[r0 Hone]].
  - assert (existsb (Stmt.same_identity u c) (channel_activity d) = false) as Hex.
    { apply existsb_false_iff. intros r Hr. apply not_true_iff_false. intros Hk.
      assert (r ∈ rows_of u c d) as Hin by (by apply elem_of_filter_bool).
      rewrite Hnone in Hin. by apply elem_of_nil in Hin. }
    unfold rows_of, Stmt.upsert_activity in *. simpl. rewrite Hex.
    rewrite List.filter_app, Hnone. simpl.
    unfold Stmt.same_identity at 1. simpl. rewrite !String.eqb_refl. simpl.
    eexists. split; [reflexivity|]. simpl. auto.
  - assert (existsb (Stmt.same_identity u c) (channel_activity d) = true) as Hex.
    { apply existsb_exists. exists r0.
      assert (r0 ∈ rows_of u c d) as Hin by (rewrite Hone; apply elem_of_cons; by left).
      apply elem_of_filter_bool in Hin as [Hin Hk]. by rewrite <- list_elem_of_In. }
    unfold rows_of, Stmt.upsert_activity in *. simpl. rewrite Hex.
    rewrite filter_map_preserving.
    + rewrite Hone. simpl.
      assert (Stmt.same_identity u c r0 = true) as Hk.
      { assert (r0 ∈ List.filter (Stmt.same_identity u c) (channel_activity d)) as Hin
          by (rewrite Hone; apply elem_of_cons; by left).
        by apply elem_of_filter_bool in Hin as [_ ?]. }
      rewrite Hk. eexists. split; [reflexivity|]. simpl. repeat split; lia.
    + intros r. destruct (Stmt.same_identity u c r) eqn:Hk; [|done].
      unfold Stmt.same_identity in *. simpl. exact Hk.
Qed.

(** The upsert leaves every other identity alone. *)
Lemma upsert_other u c u' un ro c' cn now d :
  (u', c') <> (u, c) ->
  rows_of u c (Stmt.upsert_activity u' un ro c' cn now d) = rows_of u c d.
Proof.
  intros Hne. unfold rows_of, Stmt.upsert_activity. simpl.
  destruct (existsb (Stmt.same_identity u' c') (channel_activity d)).
  - induction (channel_activity d) as [|r rows IH]; simpl; [done|].
    destruct (Stmt.same_identity u' c' r) eqn:Hk'.
    + apply same_identity_key in Hk'.
      assert (Stmt.same_identity u c r = false) as Hk.
      { apply not_true_iff_false. intros Hk%same_identity_key. congruence. }
      rewrite Hk.
      assert (forall r', ca_user_id r' = ca_user_id r -> ca_channel_id r' = ca_channel_id r ->
                         Stmt.same_identity u c r' = false) as Hsame.
      { intros r' Hu Hc. unfold Stmt.same_identity in *. by rewrite Hu, Hc. }
      rewrite Hsame by done. exact IH.
    + destruct (Stmt.same_identity u c r); simpl; by rewrite IH.
  - rewrite List.filter_app. simpl.
    assert (Stmt.same_identity u c
              {| ca_user_id := u'; ca_username := un; ca_roles := ro;
                 ca_channel_id := c'; ca_channel_name := cn; ca_message_count := 1;
                 ca_last_message := Sql.current_timestamp now |} = false) as Hk.
    { apply not_true_iff_false. intros Hk%same_identity_key.
      unfold activity_key in Hk. simpl in Hk. congruence. }
    rewrite Hk. apply app_nil_r.
Qed.

Lemma upsert_keys u un ro c cn now d :
  NoDup (map activity_key (channel_activity d)) ->
  NoDup (map activity_key (channel_activity (Stmt.upsert_activity u un ro c cn now d))).
Proof.
  intros Hnd. unfold Stmt.upsert_activity. simpl.
  destruct (existsb (Stmt.same_identity u c) (channel_activity d)) eqn:Hex.
  - rewrite map_map.
    erewrite map_ext; [exact Hnd|].
    intros r. by destruct (Stmt.same_identity u c r).
  - rewrite map_app. apply NoDup_app. split; [done|]. split; [|apply NoDup_singleton].
    intros k (r & -> & Hr)%list_elem_of_fmap [Hk|[]%elem_of_nil]%elem_of_cons.
    rewrite existsb_false_iff in Hex. specialize (Hex r Hr).
    apply not_true_iff_false in Hex. apply Hex, same_identity_key. exact Hk.
Qed.

Lemma upsert_wf u un ro c cn now d :
  wf_db d -> wf_db (Stmt.upsert_activity u un ro c cn now d).
Proof.
  intros (Hact & Hrest). split; [by apply upsert_keys|exact Hrest].
Qed.

(** ** Every procedure keeps the database well formed *)

Lemma processMessage_spec now message w :
  wp (processMessage now message)
     (fun r w' =>
        r = Returned tt /\ txn w' = txn w /\
        (store w' = store w \/ store w' = upsert_of now message (store w))) w.
Proof.
  unfold processMessage, upsert_of, resolved_member.
  destruct (msg_author_bot message); [apply wp_ret; auto|].
  apply wp_try, wp_bind.
  destruct (msg_member message) as [m|].
  - apply wp_ret.
    destruct (negb (bool_decide (is_Some (Some m))) || negb (hasTargetRole (Some m))).
    + apply wp_ret. auto.
    + apply wp_exec; intros _; [apply wp_ret|]; autorewrite with conn; auto.
  - destruct (msg_guild_fetch message) as [fetched|].
    + apply wp_ret.
      destruct (negb (bool_decide (is_Some fetched)) || negb (hasTargetRole fetched)).
      * apply wp_ret. auto.
      * apply wp_exec; intros _; [apply wp_ret|]; autorewrite with conn; auto.
    + apply wp_throw, wp_ret. auto.
Qed.

Lemma select_snapshot_id_in id d x :
  Stmt.select_snapshot_id id d = Some x -> id ∈ map s_id (snapshots d).
Proof.
  intros Hsel. destruct (decide (id ∈ map s_id (snapshots d))) as [|Hno]; [done|].
  unfold Stmt.select_snapshot_id in Hsel.
  rewrite (filter_none_bool _ (snapshots d)) in Hsel; [done|].
  intros s Hs. apply Z.eqb_neq. intros Heq. apply Hno, list_elem_of_fmap. eauto.
Qed.

(** From a well-formed database, on a connection with no transaction open,
    each procedure ends with a well-formed database and no transaction
    open -- whatever storage errors it meets. *)
Lemma wf_db_preserved w :
  txn w = None -> wf_db (store w) ->
  (forall now message,
     wp (processMessage now message) (fun _ w' => wf_db (store w') /\ txn w' = None) w) /\
  (forall now,
     wp (createSnapshot now) (fun _ w' => wf_db (store w') /\ txn w' = None) w) /\
  (forall id,
     wp (delete_snapshot_route id) (fun _ w' => wf_db (store w') /\ txn w' = None) w) /\
  (forall keepCountArg,
     wp (cleanupOldSnapshots keepCountArg)
        (fun _ w' => wf_db (store w') /\ txn w' = None) w).
Proof.
  intros Htxn Hwf. split; [|split; [|split]].
  - intros now message.
    eapply wp_mono; [apply processMessage_spec|].
    cbv beta. intros r w' (_ & -> & [-> | ->]); [done|].
    split; [|done]. by apply upsert_wf.
  - intros now.
    eapply wp_mono; [apply (createSnapshot_spec now w Htxn)|].
    cbv beta. intros r w' (Ht & _ & _ & Hr). split; [|done].
    destruct r as [[info|]|e]; [| |done].
    + destruct Hr as [_ Hr]. by destruct (snapshot_taken_keeps_wf _ _ _ _ Hwf Hr).
    + by destruct Hr as [-> _].
  - intros id.
    eapply wp_mono; [apply (delete_snapshot_route_spec id w Htxn)|].
    cbv beta. intros r w' (Ht & _ & _ & Hr). split; [|done].
    destruct r as [[reset| |]|e]; [| | |done].
    + destruct Hr as [_ Hr].
      assert (id ∈ map s_id (snapshots (store w))) as Hin.
      { unfold snapshot_deleted in Hr.
        destruct (Stmt.select_snapshot_id id (store w)) eqn:Hsel; [|discriminate].
        by eapply select_snapshot_id_in. }
      destruct (snapshot_deleted_wf id (store w) Hwf Hin) as (d' & Hdel & _ & _ & _ & _ & Hwf').
      rewrite Hdel in Hr. by injection Hr as _ <-.
    + by destruct Hr as (_ & -> & _).
    + by destruct Hr as [-> _].
  - intros keepCountArg.
    eapply wp_mono; [apply (cleanupOldSnapshots_spec keepCountArg w Htxn)|].
    cbv beta. intros r w' (_ & Ht & _ & _ & [-> | [_ ->]] & _); [done|].
    split; [|done]. by apply pruned_wf.
Qed.

(** ** The snapshot name *)

Example toISOString_epoch :
  JsDate.toISOString 0 = "1970-01-01T00:00:00.000Z"%string.
Proof. reflexivity. Qed.

Example toISOString_sample :
  JsDate.toISOString 1794637245678 = "2026-11-14T06:20:45.678Z"%string.
Proof. vm_compute. reflexivity. Qed.

Example toISOString_leap_day :
  JsDate.toISOString 951782400000 = "2000-02-29T00:00:00.000Z"%string.
Proof. vm_compute. reflexivity. Qed.

Example toISOString_before_epoch :
  JsDate.toISOString (-1) = "1969-12-31T23:59:59.999Z"%string.
Proof. vm_compute. reflexivity. Qed.

(** * The properties of the specification *)

(** ** Empty store *)

(** C3.  Whenever [channel_activity] holds no row, [createSnapshot] resolves
    to [null], and the tables [snapshots] and [snapshot_data] (indeed the
    whole database, the id sequence included) are as they were: the row
    inserted into [snapshots] inside the transaction is rolled back.  This
    holds on any connection, whatever storage errors are to come. *)
Theorem createSnapshot_empty_store (now : Z) (w : World) :
  channel_activity (store w) = [] ->
  wp (createSnapshot now)
     (fun r w' =>
        r = Returned None /\
        snapshots (store w') = snapshots (store w) /\
        snapshot_data (store w') = snapshot_data (store w) /\
        store w' = store w /\
        txn w' = txn w) w.
Proof.
  intros Hempty. destruct (txn w) as [d0|] eqn:Htxn.
  - eapply wp_mono; [apply (createSnapshot_in_txn now w d0 Htxn)|].
    cbv beta. intros r w' (-> & -> & -> & _). auto.
  - eapply wp_mono; [apply (createSnapshot_spec now w Htxn)|].
    cbv beta. intros r w' (Ht & _ & _ & Hr).
    destruct r as [[info|]|e]; [| |done].
    + destruct Hr as [_ Hr]. by rewrite snapshot_taken_empty in Hr.
    + destruct Hr as [-> _]. auto.
Qed.

Lemma createSnapshot_empty_store_witness :
  wp (createSnapshot sample_instant)
     (fun r w' =>
        r = Returned None /\
        snapshots (store w') = snapshots (store (Conn.open empty_db [])) /\
        snapshot_data (store w') = snapshot_data (store (Conn.open empty_db [])) /\
        store w' = store (Conn.open empty_db []) /\
        txn w' = txn (Conn.open empty_db [])) (Conn.open empty_db []).
Proof.
  apply (createSnapshot_empty_store sample_instant (Conn.open empty_db [])).
  reflexivity.
Defined.

(** The insertion does take place before it is undone: on the empty
    database the run makes four calls ([BEGIN], [INSERT], [SELECT],
    [ROLLBACK]), and the id sequence is still absent afterwards. *)
Example createSnapshot_empty_store_calls :
  let (r, w') := createSnapshot sample_instant (Conn.open empty_db []) in
  r = Returned None /\ issued w' = 4%nat /\ store w' = empty_db.
Proof. vm_compute. auto. Qed.

(** ** All-or-nothing transactions *)

(** C6.  On a connection with no transaction open, whatever storage errors
    and constraint rejections occur: [createSnapshot] and the delete route
    end with the transaction closed, and either they report success and the
    database holds the complete snapshot (resp. the complete deletion), or
    they report failure ([null]; 404 or 500) and the database -- [snapshots],
    [snapshot_data] and the id sequence -- is exactly as before the call.
    In particular a run in which some call met a storage error reports
    failure and changes nothing. *)
Theorem snapshot_transactions_all_or_nothing (now id : Z) (w : World) :
  txn w = None ->
  wp (createSnapshot now)
     (fun r w' =>
        txn w' = None /\
        (met_storage_error w w' -> r = Returned None /\ store w' = store w) /\
        match r with
        | Returned (Some info) => snapshot_taken now (store w) = Some (info, store w')
        | Returned None => store w' = store w
        | Thrown _ => False
        end) w /\
  wp (delete_snapshot_route id)
     (fun r w' =>
        txn w' = None /\
        (met_storage_error w w' -> r = Returned DeleteFailed /\ store w' = store w) /\
        match r with
        | Returned (DeleteOk reset) =>
            snapshot_deleted id (store w) = Some (reset, store w')
        | Returned DeleteNotFound | Returned DeleteFailed => store w' = store w
        | Thrown _ => False
        end) w.
Proof.
  intros Htxn. split.
  - eapply wp_mono; [apply (createSnapshot_spec now w Htxn)|].
    cbv beta. intros r w' (Ht & _ & _ & Hr).
    split; [done|].
    destruct r as [[info|]|e]; [| |done].
    + destruct Hr as [Hc Hr]. split; [|done].
      intros Hmet. destruct (calm_no_storage_error _ _ Hc Hmet).
    + destruct Hr as [Hr _]. auto.
  - eapply wp_mono; [apply (delete_snapshot_route_spec id w Htxn)|].
    cbv beta. intros r w' (Ht & _ & _ & Hr).
    split; [done|].
    destruct r as [[reset| |]|e]; [| | |done].
    + destruct Hr as [Hc Hr]. split; [|done].
      intros Hmet. destruct (calm_no_storage_error _ _ Hc Hmet).
    + destruct Hr as (Hc & Hr & _). split; [|done].
      intros Hmet. destruct (calm_no_storage_error _ _ Hc Hmet).
    + destruct Hr as [Hr _]. auto.
Qed.

Lemma snapshot_transactions_all_or_nothing_witness :
  wp (createSnapshot (sample_instant + 4000))
     (fun r w' =>
        txn w' = None /\
        (met_storage_error failing_fourth_call w' ->
         r = Returned None /\ store w' = store failing_fourth_call) /\
        match r with
        | Returned (Some info) =>
            snapshot_taken (sample_instant + 4000) (store failing_fourth_call)
            = Some (info, store w')
        | Returned None => store w' = store failing_fourth_call
        | Thrown _ => False
        end) failing_fourth_call /\
  wp (delete_snapshot_route 3)
     (fun r w' =>
        txn w' = None /\
        (met_storage_error failing_fourth_call w' ->
         r = Returned DeleteFailed /\ store w' = store failing_fourth_call) /\
        match r with
        | Returned (DeleteOk reset) =>
            snapshot_deleted 3 (store failing_fourth_call) = Some (reset, store w')
        | Returned DeleteNotFound | Returned DeleteFailed =>
            store w' = store failing_fourth_call
        | Thrown _ => False
        end) failing_fourth_call.
Proof.
  apply (snapshot_transactions_all_or_nothing (sample_instant + 4000) 3
           failing_fourth_call).
  reflexivity.
Defined.

(** The bulk insertion of a snapshot fails (fourth call: [BEGIN], [INSERT],
    [SELECT], then the chunk): the new row of [snapshots] is gone again. *)
Example createSnapshot_rolls_back :
  let (r, w') := createSnapshot (sample_instant + 4000) failing_fourth_call in
  r = Returned None /\ store w' = sample_three /\ txn w' = None /\
  met_storage_error failing_fourth_call w'.
Proof.
  vm_compute. repeat split. exists 3%nat. split; [lia|reflexivity].
Qed.

(** The deletion of snapshot 3 fails at its first [DELETE] (fourth call:
    two [SELECT]s, [BEGIN], then the [DELETE]); and at the update of the
    sequence, after both [DELETE]s went through (seventh call). *)
Example delete_snapshot_route_rolls_back :
  (let (r, w') := delete_snapshot_route 3 failing_fourth_call in
   r = Returned DeleteFailed /\ store w' = sample_three /\ txn w' = None) /\
  (let (r, w') := delete_snapshot_route 3
       (Conn.open sample_three [false; false; false; false; false; false; true]) in
   r = Returned DeleteFailed /\ store w' = sample_three /\ txn w' = None).
Proof. vm_compute. auto 10. Qed.

(** ** Reclaiming ids on deletion *)

Lemma sample_three_wf : wf_db sample_three.
Proof. apply (bool_decide_unpack _). vm_compute. reflexivity. Qed.

(** The sample database holds the snapshots 1, 2 and 3, and its sequence
    stands at 3. *)
Example sample_three_ids :
  map s_id (snapshots sample_three) = [1; 2; 3] /\
  sqlite_sequence sample_three = Some 3.
Proof. vm_compute. auto. Qed.

(** C1 as stated fails where the ids below the deleted maximum are not
    contiguous: with the live ids 1 and 3 (snapshot 2 deleted before),
    deleting snapshot 3, the maximum, resets the sequence to 1, and the
    next snapshot receives the id 2, not the freed id 3. *)
Lemma delete_max_does_not_always_reuse_freed_id :
  let run := (_ ← delete_snapshot_route 2;
              r ← delete_snapshot_route 3;
              s ← createSnapshot (sample_instant + 4000);
              mret (r, info_id <$> s)) in
  fst (result_of run sample_three) = Returned (DeleteOk true, Some 2) /\
  ~ (fst (result_of run sample_three) = Returned (DeleteOk true, Some 3)).
Proof. vm_compute. split; [reflexivity|discriminate]. Qed.

(** C1, amended.  On a well-formed database, for a snapshot [id] that
    exists: if [id] is the largest id, the delete route reports a reset and
    leaves the sequence at the largest remaining id (zero if none remains),
    so that the next snapshot receives that id plus one, which is at most
    the freed id (and is the freed id when the remaining maximum is one
    less); if [id] is not the largest id, the sequence is as before, and the
    next snapshot receives the id it would have received without the
    deletion. *)
Theorem delete_resets_sequence_for_max_only (id now : Z) (w : World) :
  txn w = None -> quiet w -> wf_db (store w) ->
  id ∈ map s_id (snapshots (store w)) ->
  channel_activity (store w) <> [] ->
  snapshot_name now ∉ map s_name (snapshots (store w)) ->
  let ids := map s_id (snapshots (store w)) in
  let remaining := List.filter (fun x => negb (x =? id)) ids in
  wp (delete_snapshot_route id)
     (fun r1 w1 =>
        map s_id (snapshots (store w1)) = remaining /\
        (Sql.max_opt ids = Some id ->
         r1 = Returned (DeleteOk true) /\
         sqlite_sequence (store w1) = Some (default 0 (Sql.max_opt remaining)) /\
         wp (createSnapshot now)
            (fun r2 w2 =>
               exists info, r2 = Returned (Some info) /\
                 info_id info = default 0 (Sql.max_opt remaining) + 1 /\
                 info_id info <= id) w1) /\
        (Sql.max_opt ids <> Some id ->
         r1 = Returned (DeleteOk false) /\
         sqlite_sequence (store w1) = sqlite_sequence (store w) /\
         wp (createSnapshot now)
            (fun r2 w2 =>
               exists info, r2 = Returned (Some info) /\
                 info_id info = Stmt.next_id (store w)) w1)) w.
Proof.
  intros Htxn Hquiet Hwf Hin Hne Hfresh ids remaining. subst ids remaining.
  destruct (snapshot_deleted_wf id (store w) Hwf Hin)
    as (d' & Hdel & Hact' & Hsn' & _ & Hseq' & _).
  eapply wp_mono; [apply (delete_snapshot_route_succeeds id w Htxn Hquiet Hwf Hin)|].
  cbv beta. intros r1 w1 (-> & Hdel1 & Hwf1 & Htxn1 & Hquiet1 & _).
  rewrite Hdel in Hdel1. injection Hdel1 as Hst. subst d'.
  assert (map s_id (snapshots (store w1))
          = List.filter (fun x => negb (x =? id)) (map s_id (snapshots (store w)))) as Hids.
  { rewrite Hsn'. apply (map_filter_comm s_id (fun x => negb (x =? id))). }
  assert (snapshot_name now ∉ map s_name (snapshots (store w1))) as Hfresh'.
  { rewrite Hsn'. intros (s & Hs & [Hs' _]%elem_of_filter_bool)%list_elem_of_fmap.
    apply Hfresh, list_elem_of_fmap. eauto. }
  assert (channel_activity (store w1) <> []) as Hne' by (by rewrite Hact').
  pose proof (createSnapshot_succeeds now w1 Htxn1 Hquiet1 Hwf1 Hne' Hfresh') as Hcreate.
  split; [done|]. split.
  - intros Hmax. apply is_max_id_true in Hmax as Hmax'. rewrite Hmax' in Hseq' |- *.
    split; [done|]. split; [done|].
    eapply wp_mono; [exact Hcreate|].
    cbv beta. intros r2 w2 (-> & _). eexists. split; [reflexivity|]. simpl.
    unfold Stmt.next_id. rewrite Hseq', Hids. simpl.
    split; [lia|]. rewrite Z.max_id.
    apply max_opt_filter_below; [done|].
    intros x (s & -> & Hs)%list_elem_of_fmap.
    destruct Hwf as (_ & _ & _ & _ & _ & Hrange).
    rewrite Forall_forall in Hrange. by destruct (Hrange s Hs).
  - intros Hmax.
    assert (is_max_id id (Sql.max_opt (map s_id (snapshots (store w)))) = false) as Hmax'.
    { apply not_true_iff_false. by rewrite is_max_id_true. }
    rewrite Hmax' in Hseq' |- *.
    split; [done|]. split; [done|].
    eapply wp_mono; [exact Hcreate|].
    cbv beta. intros r2 w2 (-> & _). eexists. split; [reflexivity|]. simpl.
    unfold Stmt.next_id. rewrite Hseq', Hids.
    destruct (max_opt_upper _ id Hin) as (M & HM & _).
    rewrite HM in Hmax |- *.
    rewrite (max_opt_filter_other _ M id HM); [done|congruence].
Qed.

(** With the live ids 1, 2, 3: after deleting 3 the next snapshot receives
    the id 3 again. *)
Lemma delete_resets_sequence_for_max_only_witness :
  wp (delete_snapshot_route 3)
     (fun r1 w1 =>
        r1 = Returned (DeleteOk true) /\
        sqlite_sequence (store w1) = Some 2 /\
        wp (createSnapshot (sample_instant + 4000))
           (fun r2 w2 => exists info, r2 = Returned (Some info) /\ info_id info = 3) w1)
     (Conn.open sample_three []).
Proof.
  eapply wp_mono.
  - apply (delete_resets_sequence_for_max_only 3 (sample_instant + 4000)
             (Conn.open sample_three [])).
    + reflexivity.
    + reflexivity.
    + apply (bool_decide_unpack _). vm_compute. reflexivity.
    + apply (bool_decide_unpack _). vm_compute. reflexivity.
    + vm_compute. discriminate.
    + apply (bool_decide_unpack _). vm_compute. reflexivity.
  - cbv beta. intros r1 w1 (_ & Hmax & _).
    destruct Hmax as (-> & Hseq & Hnext); [reflexivity|].
    split; [reflexivity|]. split; [exact Hseq|].
    eapply wp_mono; [exact Hnext|].
    cbv beta. intros r2 w2 (info & -> & Hid & _). exists info. split; [reflexivity|].
    exact Hid.
Defined.

(** With the live ids 1, 2, 3: after deleting 2 the sequence is untouched
    and the next snapshot receives the id 4. *)
Example delete_non_max_then_create :
  let run := (r ← delete_snapshot_route 2;
              s ← createSnapshot (sample_instant + 4000);
              mret (r, info_id <$> s)) in
  fst (result_of run sample_three) = Returned (DeleteOk false, Some 4) /\
  sqlite_sequence (db_after (delete_snapshot_route 2) sample_three) = Some 3.
Proof. vm_compute. auto. Qed.

Example delete_max_then_create :
  let run := (r ← delete_snapshot_route 3;
              s ← createSnapshot (sample_instant + 4000);
              mret (r, info_id <$> s)) in
  fst (result_of run sample_three) = Returned (DeleteOk true, Some 3) /\
  sqlite_sequence (db_after (delete_snapshot_route 3) sample_three) = Some 2.
Proof. vm_compute. auto. Qed.

(** ** Counting messages *)

Lemma process_all_quiet msgs : forall w,
  quiet w ->
  Forall (fun tm => qualifies (snd tm) = true) msgs ->
  wp (process_all msgs)
     (fun r w' =>
        r = Returned tt /\ store w' = record_all msgs (store w) /\
        issued w' = (issued w + length msgs)%nat /\ quiet w' /\ txn w' = txn w) w.
Proof.
  induction msgs as [|[now message] rest IH]; intros w Hq Hall; simpl.
  - apply wp_ret. repeat split; auto.
  - inversion Hall as [|? ? Hm Hrest]; subst. simpl in Hm.
    apply wp_bind. unfold wp at 1. rewrite (processMessage_counts now message w Hq Hm).
    simpl. eapply wp_mono; [apply IH; auto with conn|].
    cbv beta. intros r w' (-> & Hst & Hi & Hq' & Ht).
    autorewrite with conn in *. repeat split; auto.
    rewrite Hi. unfold Conn.with_store, Conn.tick. simpl. lia.
Qed.

Lemma prior_count_one u c d r : rows_of u c d = [r] -> prior_count u c d = ca_message_count r.
Proof. unfold prior_count. intros ->. simpl. lia. Qed.

Lemma messages_of_cons u c now message rest :
  messages_of u c ((now, message) :: rest) =
  if String.eqb (msg_author_id message) u && String.eqb (msg_channel_id message) c
  then (now, message) :: messages_of u c rest
  else messages_of u c rest.
Proof. reflexivity. Qed.

(** Counts accumulate and the descriptive fields are those of the last
    message of the identity. *)
Lemma record_all_identity u c msgs : forall d,
  NoDup (map activity_key (channel_activity d)) ->
  NoDup (map activity_key (channel_activity (record_all msgs d))) /\
  (messages_of u c msgs = [] -> rows_of u c (record_all msgs d) = rows_of u c d) /\
  (forall last_now last_message,
     last (messages_of u c msgs) = Some (last_now, last_message) ->
     exists r,
       rows_of u c (record_all msgs d) = [r] /\
       ca_message_count r = prior_count u c d + Z.of_nat (length (messages_of u c msgs)) /\
       ca_username r = msg_author_tag last_message /\
       ca_roles r = getUserRoles (resolved_member last_message) /\
       ca_channel_name r = msg_channel_name last_message /\
       ca_last_message r = Sql.current_timestamp last_now).
Proof.
  induction msgs as [|[now message] rest IH]; intros d Hnd.
  - simpl. split; [done|]. split; [done|]. intros ? ? [=].
  - simpl record_all. rewrite messages_of_cons.
    pose proof (upsert_keys (msg_author_id message) (msg_author_tag message)
                  (getUserRoles (resolved_member message)) (msg_channel_id message)
                  (msg_channel_name message) now d Hnd) as Hnd1.
    fold (upsert_of now message d) in Hnd1.
    destruct (IH (upsert_of now message d) Hnd1) as (Hnd' & Hnone & Hlast).
    split; [exact Hnd'|].
    destruct (String.eqb (msg_author_id message) u && String.eqb (msg_channel_id message) c)
      eqn:Hmine.
    + apply andb_true_iff in Hmine as [Hu%String.eqb_eq Hc%String.eqb_eq].
      destruct (upsert_same u (msg_author_tag message)
                  (getUserRoles (resolved_member message)) c
                  (msg_channel_name message) now d Hnd)
        as (r1 & Hr1 & Hcount & Hun & Hro & Hcn & Hlm).
      assert (rows_of u c (upsert_of now message d) = [r1]) as Hr1'
        by (unfold upsert_of; by rewrite Hu, Hc).
      split; [done|].
      intros last_now last_message Hl.
      destruct (messages_of u c rest) as [|tm mine] eqn:Hrest.
      * simpl in Hl. injection Hl as <- <-.
        exists r1. rewrite Hnone by done. simpl. repeat split; auto; lia.
      * rewrite last_cons_cons in Hl.
        destruct (Hlast _ _ Hl) as (r & Hr & Hcount' & Hfields).
        exists r. split; [done|]. split; [|done].
        rewrite Hcount', (prior_count_one _ _ _ _ Hr1'), Hcount.
        simpl length. lia.
    + assert ((msg_author_id message, msg_channel_id message) <> (u, c)) as Hne.
      { intros [= Hu Hc]. rewrite Hu, Hc, !String.eqb_refl in Hmine. discriminate. }
      pose proof (upsert_other u c (msg_author_id message) (msg_author_tag message)
                    (getUserRoles (resolved_member message)) (msg_channel_id message)
                    (msg_channel_name message) now d Hne) as Hsame.
      fold (upsert_of now message d) in Hsame.
      split.
      * intros Hn. by rewrite Hnone, Hsame.
      * intros last_now last_message Hl.
        destruct (Hlast _ _ Hl) as (r & Hr & Hcount' & Hfields).
        exists r. split; [done|]. split; [|done].
        rewrite Hcount'. unfold prior_count. by rewrite Hsame.
Qed.

(** C2.  Messages that count are processed one after the other on a
    connection without storage errors, the store holding at most one row
    per identity.  Then every message costs exactly one call on the
    connection (its upsert), and for every identity with at least one
    message among them there is exactly one row afterwards: its count is
    the count recorded before plus the number of these messages (that
    number itself when the identity had no row), and its username, roles,
    channel name and timestamp are those of the last of these messages. *)
Theorem processMessage_counts_per_identity
    (msgs : list (Z * Message)) (userId channelId : string) (w : World) :
  quiet w ->
  NoDup (map activity_key (channel_activity (store w))) ->
  Forall (fun tm => qualifies (snd tm) = true) msgs ->
  messages_of userId channelId msgs <> [] ->
  wp (process_all msgs)
     (fun r w' =>
        r = Returned tt /\
        issued w' = (issued w + length msgs)%nat /\
        exists record last_now last_message,
          rows_of userId channelId (store w') = [record] /\
          last (messages_of userId channelId msgs) = Some (last_now, last_message) /\
          ca_message_count record =
            prior_count userId channelId (store w)
            + Z.of_nat (length (messages_of userId channelId msgs)) /\
          (rows_of userId channelId (store w) = [] ->
           ca_message_count record
           = Z.of_nat (length (messages_of userId channelId msgs))) /\
          ca_username record = msg_author_tag last_message /\
          ca_roles record = getUserRoles (resolved_member last_message) /\
          ca_channel_name record = msg_channel_name last_message /\
          ca_last_message record = Sql.current_timestamp last_now) w.
Proof.
  intros Hq Hnd Hall Hmine.
  eapply wp_mono; [apply (process_all_quiet msgs w Hq Hall)|].
  cbv beta. intros r w' (-> & Hst & Hi & _ & _).
  split; [done|]. split; [done|].
  destruct (last (messages_of userId channelId msgs)) as [[last_now last_message]|] eqn:Hl.
  2: { apply last_None in Hl. done. }
  destruct (record_all_identity userId channelId msgs (store w) Hnd) as (_ & _ & Hlast).
  destruct (Hlast _ _ Hl) as (record & Hr & Hcount & Hun & Hro & Hcn & Hlm).
  exists record, last_now, last_message. rewrite Hst.
  repeat split; auto.
  intros Hnone. rewrite Hcount. unfold prior_count. rewrite Hnone. simpl. lia.
Qed.

Lemma processMessage_counts_per_identity_witness :
  wp (process_all sample_messages)
     (fun r w' =>
        r = Returned tt /\
        issued w' = 4%nat /\
        exists record,
          rows_of "11" "c1" (store w') = [record] /\
          ca_message_count record = 2 /\
          ca_username record = "ann#3"%string /\
          ca_channel_name record = "lobby"%string) (Conn.open empty_db []).
Proof.
  eapply wp_mono.
  - apply (processMessage_counts_per_identity sample_messages "11" "c1"
             (Conn.open empty_db [])).
    + reflexivity.
    + constructor.
    + repeat constructor.
    + vm_compute. discriminate.
  - cbv beta. intros r w' (-> & Hi & record & last_now & last_message & Hrows & Hl & _ & Hcount
                           & Hun & _ & Hcn & _).
    split; [reflexivity|]. split; [exact Hi|].
    vm_compute in Hl. injection Hl as <- <-.
    exists record. split; [exact Hrows|]. split; [exact (Hcount eq_refl)|].
    split; [exact Hun|exact Hcn].
Defined.

(** The sample messages: two rows for member 11, one for member 22; the
    row of (11, c1) counts 2 and carries the tag and channel name of the
    later message. *)
Example sample_activity_rows :
  map (fun r => (ca_user_id r, ca_channel_id r, ca_username r, ca_channel_name r,
                 ca_message_count r))
      (channel_activity sample_activity)
  = [ ("11", "c1", "ann#3", "lobby", 2);
      ("11", "c2", "ann#2", "random", 1);
      ("22", "c1", "bob#1", "general", 1) ]%string.
Proof. vm_compute. reflexivity. Qed.

(** A message of a bot, or of a member without a monitored role, is not
    counted. *)
Example bot_message_not_counted :
  let message := {| msg_author_bot := true; msg_author_id := "11";
                    msg_author_tag := "ann#1";
                    msg_member := Some {| member_roles := Some ["Prover"]%string |};
                    msg_guild_fetch := None;
                    msg_channel_id := "c1"; msg_channel_name := "general" |} in
  db_after (processMessage sample_instant message) empty_db = empty_db.
Proof. reflexivity. Qed.

(** ** Retention *)

(** C5.  For a keep count [keepCount >= 0], [n] snapshots with distinct
    ids, no storage error: if [n <= keepCount] nothing is deleted; if
    [n > keepCount] the snapshots beyond the first [keepCount] in the order
    of descending [created_at] are deleted, with their [snapshot_data]
    rows.  Exactly [keepCount] snapshots are left, [n - keepCount] are
    deleted, every snapshot left is at least as recent as every deleted
    one, and the other tables are untouched. *)
Theorem cleanup_keeps_the_newest (keepCount : Z) (w : World) :
  txn w = None -> quiet w ->
  NoDup (map s_id (snapshots (store w))) ->
  0 <= keepCount ->
  let n := Z.of_nat (length (snapshots (store w))) in
  let newest := Sql.order_by Stmt.newest_first (snapshots (store w)) in
  let kept := take (Z.to_nat keepCount) newest in
  let deleted := drop (Z.to_nat keepCount) newest in
  wp (cleanupOldSnapshots (Some keepCount))
     (fun r w' =>
        r = Returned tt /\
        (n <= keepCount -> store w' = store w) /\
        (keepCount < n ->
         Permutation (snapshots (store w')) kept /\
         snapshots (store w') =
           List.filter (fun s => negb (bool_decide (s_id s ∈ map s_id deleted)))
                       (snapshots (store w)) /\
         snapshot_data (store w') =
           List.filter (fun r => negb (bool_decide (sd_snapshot_id r ∈ map s_id deleted)))
                       (snapshot_data (store w)) /\
         Z.of_nat (length (snapshots (store w'))) = keepCount /\
         Z.of_nat (length deleted) = n - keepCount /\
         (forall k x, k ∈ kept -> x ∈ deleted -> s_created_at x <= s_created_at k) /\
         channel_activity (store w') = channel_activity (store w) /\
         sqlite_sequence (store w') = sqlite_sequence (store w))) w.
Proof.
  intros Htxn Hquiet Hnd Hkeep n newest kept deleted.
  eapply wp_mono; [apply (cleanupOldSnapshots_spec (Some keepCount) w Htxn)|].
  cbv beta. intros r w' (-> & _ & _ & _ & _ & Hst). specialize (Hst Hquiet).
  simpl in Hst. rewrite Hst.
  split; [done|]. apply pruned_spec; assumption.
Qed.

Lemma sample_five_ids :
  map (fun s => (s_id s, s_created_at s)) (snapshots sample_five)
  = [ (1, 1794637246); (2, 1794637247); (3, 1794637248);
      (4, 1794637249); (5, 1794637250) ].
Proof. vm_compute. reflexivity. Qed.

(** Pruning five snapshots with a keep count of 2 leaves two. *)
Lemma cleanup_keeps_the_newest_witness :
  wp (cleanupOldSnapshots (Some 2))
     (fun r w' =>
        r = Returned tt /\
        Z.of_nat (length (snapshots (store w'))) = 2 /\
        Permutation (snapshots (store w'))
          (take 2 (Sql.order_by Stmt.newest_first (snapshots sample_five))))
     (Conn.open sample_five []).
Proof.
  eapply wp_mono.
  - apply (cleanup_keeps_the_newest 2 (Conn.open sample_five [])).
    + reflexivity.
    + reflexivity.
    + apply (bool_decide_unpack _). vm_compute. reflexivity.
    + lia.
  - cbv beta. intros r w' (-> & _ & Hprune).
    destruct Hprune as (Hperm & _ & _ & Hlen & _); [vm_compute; reflexivity|].
    split; [reflexivity|]. split; [exact Hlen|exact Hperm].
Defined.

(** With five snapshots and a keep count of 2, the snapshots 4 and 5 --
    the two created last -- are left, with their rows only. *)
Example cleanup_five_keep_two :
  let d' := db_after (cleanupOldSnapshots (Some 2)) sample_five in
  map s_id (snapshots d') = [4; 5] /\
  map sd_snapshot_id (snapshot_data d') = [4; 4; 4; 5; 5; 5] /\
  sqlite_sequence d' = Some 5.
Proof. vm_compute. auto. Qed.

(** With a keep count of 5 or more nothing is deleted. *)
Example cleanup_five_keep_five :
  db_after (cleanupOldSnapshots (Some 5)) sample_five = sample_five /\
  db_after (cleanupOldSnapshots None) sample_five = sample_five.
Proof. vm_compute. auto. Qed.

(** ** The scheduler at start-up *)

(** C7.  At start-up with at least one snapshot in the table and no storage
    error: with [last] the newest [created_at] (whole seconds, read as UTC,
    in milliseconds) and [elapsed = (now - 1 hour) - last], the task makes
    one call, the query, takes no snapshot and arms one timer, with delay
    0 when [elapsed >= 4 hours] and with delay [4 hours - elapsed]
    otherwise; a last snapshot created five hours ago (or more) gives the
    delay 0.  The callback of that timer is the first firing: it arms the
    interval timer, takes the snapshot of its instant and prunes -- on a
    well-formed database with a non-empty activity store and a free name
    the table of snapshots gains the row of that instant before the
    pruning. *)
Theorem startup_delay_with_snapshot (now : Z) (w : World) :
  quiet w ->
  snapshots (store w) <> [] ->
  wp (setupAutomaticSnapshots now)
     (fun r w' =>
        exists newest,
          newest ∈ snapshots (store w) /\
          (forall s, s ∈ snapshots (store w) -> s_created_at s <= s_created_at newest) /\
          let last := s_created_at newest * 1000 in
          let elapsed := (now - 60 * 60 * 1000) - last in
          let delay := if 4 * 60 * 60 * 1000 <=? elapsed then 0
                       else 4 * 60 * 60 * 1000 - elapsed in
          r = Returned tt /\
          trace w' = trace w ++ [ArmedTimeout delay] /\
          store w' = store w /\
          issued w' = S (issued w) /\
          (5 * 60 * 60 * 1000 <= now - last -> delay = 0) /\
          (forall first,
             wp (on_timeout first)
                (fun _ w'' =>
                   trace w'' = trace w' ++
                     [ArmedInterval (4 * 60 * 60 * 1000);
                      CalledCreate first; CalledCleanup 100]) w') /\
          (txn w = None ->
           forall first,
             wp (on_timeout first)
                (fun r'' w'' =>
                   r'' = Returned tt /\
                   store w'' = pruned 100 (snapshot_or_same first (store w)) /\
                   (wf_db (store w) -> channel_activity (store w) <> [] ->
                    snapshot_name first ∉ map s_name (snapshots (store w)) ->
                    snapshots (snapshot_or_same first (store w))
                    = snapshots (store w) ++
                        [ {| s_id := Stmt.next_id (store w);
                             s_name := snapshot_name first;
                             s_created_at := Sql.current_timestamp first |} ])) w')) w.
Proof.
  intros Hq Hne.
  destruct (select_last_created_at_Some (store w) Hne) as (newest & Hin & Hlast & Hmax).
  unfold setupAutomaticSnapshots, getLastSnapshotTime.
  apply wp_bind, wp_try, wp_bind, wp_query; [intros; no_fault|].
  intros _. apply wp_ret. rewrite Hlast. cbn [fmap option_fmap option_map].
  apply wp_bind, wp_ret, wp_note.
  set (w' := Conn.noted _ _).
  assert (store w' = store w /\ txn w' = txn w /\ quiet w' /\
          issued w' = S (issued w) /\
          trace w' = trace w ++
            [ArmedTimeout (initial_delay now (JsDate.parse_utc (s_created_at newest)))])
    as (Hst & Ht & Hq' & Hcalls & Htr).
  { unfold w'. autorewrite with conn.
    rewrite issued_noted, issued_with_store, issued_tick. auto 10 with conn. }
  clearbody w'.
  exists newest. split; [done|]. split; [done|]. cbv zeta.
  split; [done|]. split.
  { rewrite Htr. unfold initial_delay, JsDate.parse_utc, JsDate.msPerSecond,
      SNAPSHOT_INTERVAL. do 3 f_equal.
    destruct (Z.ltb_spec (now - 1 * 60 * 60 * 1000 - s_created_at newest * 1000)
                (1000 * 4 * 60 * 60));
      destruct (Z.leb_spec (4 * 60 * 60 * 1000)
                  (now - 60 * 60 * 1000 - s_created_at newest * 1000)); lia. }
  split; [done|]. split; [done|]. split.
  { intros Hfive.
    destruct (Z.leb_spec (4 * 60 * 60 * 1000)
                (now - 60 * 60 * 1000 - s_created_at newest * 1000)); lia. }
  split.
  { intros first. eapply wp_mono; [apply on_timeout_trace|].
    cbv beta. by intros _ w'' (_ & -> & _). }
  intros Htxn first. rewrite <- Ht in Htxn.
  eapply wp_mono; [apply (on_timeout_quiet first w' Htxn Hq')|].
  cbv beta. intros r'' w'' (-> & Hst'' & _).
  split; [done|]. split; [by rewrite Hst'', Hst|].
  intros Hwf Hact Hfresh. by rewrite (snapshot_or_same_taken first (store w)).
Qed.

(** The sample database, five hours after its last snapshot was taken
    (at [sample_instant + 3000]): the timer is armed with delay 0, and its
    callback takes the fourth snapshot. *)
Lemma startup_delay_with_snapshot_witness :
  wp (setupAutomaticSnapshots (sample_instant + 3000 + 5 * 60 * 60 * 1000))
     (fun r w' =>
        trace w' = [ArmedTimeout 0] /\ store w' = sample_three /\
        wp (on_timeout (sample_instant + 3000 + 5 * 60 * 60 * 1000 + 1))
           (fun r'' w'' =>
              map (fun s => (s_id s, s_name s)) (snapshots (store w''))
              = [ (1, "2026-11-14T06-20-46-678Z"); (2, "2026-11-14T06-20-47-678Z");
                  (3, "2026-11-14T06-20-48-678Z");
                  (4, "2026-11-14T11-20-48-679Z") ]%string) w')
     (Conn.open sample_three []).
Proof.
  eapply wp_mono.
  - apply (startup_delay_with_snapshot (sample_instant + 3000 + 5 * 60 * 60 * 1000)
             (Conn.open sample_three [])).
    + reflexivity.
    + vm_compute. discriminate.
  - cbv beta. intros r w' (newest & Hin & _ & _ & Htr & Hst & _ & Hfive & _ & Hfirst).
    split; [|split; [exact Hst|]].
    + rewrite Htr. simpl. do 2 f_equal. apply Hfive.
      assert (s_created_at newest <= 1794637248) as Hle.
      { clear -Hin. vm_compute in Hin.
        repeat (apply elem_of_cons in Hin as [->|Hin]; [vm_compute; discriminate|]).
        by apply elem_of_nil in Hin. }
      unfold sample_instant. lia.
    + eapply wp_mono; [apply (Hfirst eq_refl)|].
      cbv beta. intros r'' w'' (_ & -> & _). vm_compute. reflexivity.
Defined.

(** Four and a half hours after the last snapshot the first firing waits
    half an hour (less the fraction of a second that [created_at] drops). *)
Example startup_delay_half_hour :
  let (_, w') := setupAutomaticSnapshots (sample_instant + 3000 + 16200000)
                   (Conn.open sample_three []) in
  trace w' = [ArmedTimeout (1800000 - 678)].
Proof. vm_compute. reflexivity. Qed.

(** Less than an hour after the last snapshot, [elapsed] is negative and
    the delay exceeds the interval. *)
Example startup_delay_after_recent_snapshot :
  let (_, w') := setupAutomaticSnapshots (sample_instant + 3000 + 60000)
                   (Conn.open sample_three []) in
  trace w' = [ArmedTimeout (14400000 + 3600000 - 60000 - 678)].
Proof. vm_compute. reflexivity. Qed.

(** C8 as stated fails: the timer that the start-up task arms with delay 0
    has a callback that takes a snapshot of its own.  On the sample store,
    with no snapshot at start-up, the table holds two snapshots, taken a
    millisecond apart, before the interval timer has fired once. *)
Lemma startup_without_snapshot_takes_two :
  let run := (_ ← setupAutomaticSnapshots sample_instant;
              on_timeout (sample_instant + 1)) in
  snapshots sample_activity = [] /\
  trace (snd (run (Conn.open sample_activity [])))
  = [ CalledCreate sample_instant; CalledCleanup 100; ArmedTimeout 0;
      ArmedInterval 14400000;
      CalledCreate (sample_instant + 1); CalledCleanup 100 ] /\
  map (fun s => (s_id s, s_name s)) (snapshots (db_after run sample_activity))
  = [ (1, "2026-11-14T06-20-45-678Z"); (2, "2026-11-14T06-20-45-679Z") ]%string.
Proof. vm_compute. auto. Qed.

(** C8, amended.  With no snapshot in the table at start-up, no
    transaction open and no storage error: the start-up task takes one
    snapshot, prunes once (there is nothing to delete) and arms its timer
    with delay 0; on a well-formed database with a non-empty activity
    store that is one snapshot, named by the instant of the start, made in
    [6 + ceil(n / 1000)] calls.  The callback of that timer arms the
    interval timer with the period of four hours and runs a firing of its
    own, at once: a second snapshot, unless its instant is the millisecond
    of the first, in which case the name is taken and nothing is added.
    That firing and every firing of the interval timer take a snapshot and
    then prune with the keep count 100, the pruning starting from what the
    snapshot has left. *)
Theorem scheduler_without_snapshot (start first : Z) (later : list Z) (w : World) :
  txn w = None -> quiet w ->
  snapshots (store w) = [] ->
  wp (setupAutomaticSnapshots start)
     (fun r1 w1 =>
        r1 = Returned tt /\
        store w1 = fired start (store w) /\
        fired start (store w) = snapshot_or_same start (store w) /\
        trace w1 = trace w ++ [CalledCreate start; CalledCleanup 100; ArmedTimeout 0] /\
        (wf_db (store w) -> channel_activity (store w) <> [] ->
         map s_name (snapshots (store w1)) = [snapshot_name start] /\
         issued w1
         = (issued w + 6 + chunks_of (length (channel_activity (store w))))%nat) /\
        wp (on_timeout first)
           (fun r2 w2 =>
              r2 = Returned tt /\
              store w2 = fired first (store w1) /\
              trace w2 = trace w1 ++
                [ArmedInterval (4 * 60 * 60 * 1000);
                 CalledCreate first; CalledCleanup 100] /\
              (wf_db (store w) -> channel_activity (store w) <> [] ->
               map s_name (snapshots (store w2))
               = if decide (snapshot_name first = snapshot_name start)
                 then [snapshot_name start]
                 else [snapshot_name start; snapshot_name first]) /\
              wp (run_intervals later)
                 (fun r3 w3 =>
                    r3 = Returned tt /\
                    store w3 = fired_all later (store w2) /\
                    trace w3 = trace w2 ++
                      flat_map (fun t => [CalledCreate t; CalledCleanup 100]) later)
                 w2) w1) w /\
  (forall t w0,
     on_interval t w0 = cleanupOldSnapshots None (snd (createSnapshot t w0)) /\
     on_timeout t w0 =
       cleanupOldSnapshots None
         (snd (createSnapshot t (Conn.noted w0 (ArmedInterval (4 * 60 * 60 * 1000)))))).
Proof.
  intros Htxn Hq Hnone. split.
  - assert (fired start (store w) = snapshot_or_same start (store w)) as Hnothing.
    { unfold fired. apply pruned_nothing. unfold snapshot_or_same.
      destruct (snapshot_taken start (store w)) as [[info d1]|] eqn:Htaken.
      - unfold snapshot_taken in Htaken.
        destruct (Stmt.insert_snapshot _ _ _) as [[id d0]|] eqn:Hins; [|done].
        apply insert_snapshot_activity in Hins as (_ & _ & _ & Hsn & _).
        destruct (_ =? _)%nat; [done|].
        destruct (Stmt.insert_rows _ _); [|done].
        injection Htaken as _ <-. simpl. rewrite Hsn, Hnone. simpl. lia.
      - rewrite Hnone. simpl. lia. }
    assert (wf_db (store w) -> channel_activity (store w) <> [] ->
            wf_db (snapshot_or_same start (store w)) /\
            channel_activity (snapshot_or_same start (store w)) <> [] /\
            map s_name (snapshots (snapshot_or_same start (store w)))
            = [snapshot_name start]) as Hone.
    { intros Hwf Hact. split; [by apply snapshot_or_same_wf|].
      rewrite snapshot_or_same_taken; [|done..|].
      - simpl. by rewrite Hnone.
      - rewrite Hnone. apply not_elem_of_nil. }
    pose proof (setup_first_run start w Htxn ltac:(auto with conn) (or_intror Hnone))
      as Hrun.
    pose proof (setup_first_run_calls start w Htxn Hq Hnone) as Hcalls.
    unfold wp in Hrun, Hcalls |- *.
    destruct Hrun as (Hr1 & Hst1 & Ht1 & Hq1 & Htr1).
    set (w1 := (setupAutomaticSnapshots start w).2) in *.
    split; [done|]. split; [done|]. split; [done|]. split; [done|]. split.
    { intros Hwf Hact. split; [|by apply Hcalls].
      rewrite Hst1, Hnothing. by apply Hone. }
    pose proof (on_timeout_quiet first w1 Ht1 Hq1) as Hfirst. unfold wp in Hfirst.
    destruct Hfirst as (Hr2 & Hst2 & Ht2 & Hq2 & Htr2).
    set (w2 := (on_timeout first w1).2) in *.
    split; [done|]. split; [done|]. split; [done|]. split.
    { intros Hwf Hact. destruct (Hone Hwf Hact) as (Hwf1 & Hact1 & Hnames1).
      rewrite <- Hnothing, <- Hst1 in Hwf1, Hact1, Hnames1.
      rewrite Hst2. unfold fired.
      destruct (decide (snapshot_name first = snapshot_name start)) as [Heq|Hne].
      - assert (snapshot_or_same first (store w1) = store w1) as ->.
        { unfold snapshot_or_same. rewrite snapshot_taken_name_taken; [done|].
          rewrite Hnames1, Heq. apply elem_of_cons. by left. }
        rewrite pruned_nothing; [done|].
        rewrite <- (length_map s_name), Hnames1. simpl. lia.
      - rewrite (snapshot_or_same_taken first (store w1)); [|done..|].
        + rewrite pruned_nothing; simpl.
          * by rewrite map_app, Hnames1.
          * rewrite length_app, <- (length_map s_name (snapshots (store w1))), Hnames1.
            simpl. lia.
        + rewrite Hnames1. by intros [?|[]%elem_of_nil]%elem_of_cons. }
    pose proof (run_intervals_quiet later w2 Ht2 Hq2) as Hlater. unfold wp in Hlater.
    by destruct Hlater as (Hr3 & Hst3 & _ & _ & Htr3).
  - assert (forall t w0, scheduled_firing t w0
                         = cleanupOldSnapshots None (snd (createSnapshot t w0))) as Hfiring.
    { intros t w0. unfold scheduled_firing, mbind, Async_bind.
      pose proof (createSnapshot_trace t w0) as Hc. unfold wp in Hc.
      destruct (createSnapshot t w0) as [[res|e] w1]; [done|].
      by destruct Hc as [[res [=]] _]. }
    intros t w0. split; [apply Hfiring|].
    unfold on_timeout, mbind at 1, Async_bind, Conn.note. apply Hfiring.
Qed.

Lemma scheduler_without_snapshot_witness :
  wp (setupAutomaticSnapshots sample_instant)
     (fun r1 w1 =>
        map s_id (snapshots (store w1)) = [1] /\ issued w1 = 7%nat /\
        wp (on_timeout (sample_instant + 1))
           (fun r2 w2 =>
              map s_id (snapshots (store w2)) = [1; 2] /\
              wp (run_intervals [sample_instant + 1 + 14400000;
                                 sample_instant + 1 + 28800000])
                 (fun r3 w3 =>
                    map s_id (snapshots (store w3)) = [1; 2; 3; 4] /\
                    trace w3 =
                      [CalledCreate sample_instant; CalledCleanup 100; ArmedTimeout 0;
                       ArmedInterval 14400000;
                       CalledCreate (sample_instant + 1); CalledCleanup 100;
                       CalledCreate (sample_instant + 1 + 14400000); CalledCleanup 100;
                       CalledCreate (sample_instant + 1 + 28800000); CalledCleanup 100])
                 w2) w1)
     (Conn.open sample_activity []).
Proof.
  eapply wp_mono.
  - apply (scheduler_without_snapshot sample_instant (sample_instant + 1)
             [sample_instant + 1 + 14400000; sample_instant + 1 + 28800000]
             (Conn.open sample_activity [])); reflexivity.
  - cbv beta. intros r1 w1 (_ & Hst1 & _ & Htr1 & Hone & Hfirst).
    split; [by rewrite Hst1|]. split.
    { apply Hone; [apply (bool_decide_unpack _); vm_compute; reflexivity|].
      vm_compute. discriminate. }
    eapply wp_mono; [exact Hfirst|].
    cbv beta. intros r2 w2 (_ & Hst2 & Htr2 & _ & Hlater).
    split; [by rewrite Hst2, Hst1|].
    eapply wp_mono; [exact Hlater|].
    cbv beta. intros r3 w3 (_ & Hst3 & Htr3).
    split; [by rewrite Hst3, Hst2, Hst1|].
    by rewrite Htr3, Htr2, Htr1.
Defined.

(** On the sample store with no snapshot yet, that run leaves four
    snapshots: one from the start-up task, one from the callback of the
    first timer, one from each of the two firings of the interval timer. *)
Example scheduler_without_snapshot_run :
  let d' := db_after (run_scheduler sample_instant (sample_instant + 1)
                        [sample_instant + 1 + 14400000; sample_instant + 1 + 28800000])
                     sample_activity in
  map s_id (snapshots d') = [1; 2; 3; 4].
Proof. vm_compute. reflexivity. Qed.

(** C10.  Every pruning that the scheduler starts -- in the start-up task,
    in the callback of the first timer, in every firing of the interval
    timer -- leaves out the keep count, so the default, 100, is in force.
    On a well-formed database, with no transaction open and no storage
    error: a firing takes its snapshot and then keeps the 100 newest, so it
    leaves at most 100 snapshots, exactly 100 when there were 100 or more,
    and deletes nothing when the snapshot makes no more than 100; the
    start-up task does the same when it finds no snapshot or when its
    query meets a storage error (and no later call does); and after the
    scheduler has run at most 100 snapshots are left. *)
Theorem scheduler_prunes_with_default_keep_count
    (start first now : Z) (later : list Z) (w : World) :
  txn w = None -> tl (faults w) = [] -> wf_db (store w) ->
  (quiet w ->
   wp (run_scheduler start first later)
      (fun r w' =>
         (exists events,
            trace w' = trace w ++ events /\
            forall keepCount, CalledCleanup keepCount ∈ events -> keepCount = 100) /\
         Z.of_nat (length (snapshots (store w'))) <= 100) w) /\
  (quiet w ->
   forall firing, firing = on_interval now \/ firing = on_timeout now ->
     wp firing
        (fun r w' =>
           store w' = pruned 100 (snapshot_or_same now (store w)) /\
           Z.of_nat (length (snapshots (store w'))) <= 100 /\
           (100 <= Z.of_nat (length (snapshots (store w))) ->
            Z.of_nat (length (snapshots (store w'))) = 100) /\
           (Z.of_nat (length (snapshots (snapshot_or_same now (store w)))) <= 100 ->
            store w' = snapshot_or_same now (store w))) w) /\
  (Conn.faulty w = true \/ snapshots (store w) = [] ->
   wp (setupAutomaticSnapshots start)
      (fun r w' =>
         store w' = pruned 100 (snapshot_or_same start (store w)) /\
         Z.of_nat (length (snapshots (store w'))) <= 100 /\
         (100 <= Z.of_nat (length (snapshots (store w))) ->
          Z.of_nat (length (snapshots (store w'))) = 100)) w).
Proof.
  intros Htxn Hrest Hwf.
  pose proof (fired_bound now (store w) Hwf) as (Hle & Heq & Hall).
  split; [|split].
  - intros Hquiet. apply wp_and; [|by apply run_scheduler_bound].
    unfold run_scheduler. apply wp_bind.
    eapply wp_mono; [apply (setup_trace start w)|].
    cbv beta. intros r w1 (-> & _ & Htr1).
    apply wp_bind.
    eapply wp_mono; [apply on_timeout_trace|].
    cbv beta. intros r w2 (-> & Htr2 & _).
    eapply wp_mono; [apply run_intervals_trace|].
    cbv beta. intros r w' (-> & Htr' & _).
    assert (forall keepCount,
              CalledCleanup keepCount ∈
                flat_map (fun t => [CalledCreate t; CalledCleanup 100]) later ->
              keepCount = 100) as Hlater.
    { intros k Hk. apply list_elem_of_In, in_flat_map in Hk as (t & _ & Hk).
      simpl in Hk. destruct Hk as [[=]|[[=]|[]]]. done. }
    destruct Htr1 as [Htr1|[delay Htr1]].
    + eexists. split.
      { rewrite Htr', Htr2, Htr1, <- !app_assoc. reflexivity. }
      intros k Hk. rewrite !elem_of_app in Hk.
      destruct Hk as [Hk|[Hk|Hk]]; [| |by apply Hlater].
      all: repeat (apply elem_of_cons in Hk as [[=]|Hk]; try done).
      all: by apply elem_of_nil in Hk.
    + eexists. split.
      { rewrite Htr', Htr2, Htr1, <- !app_assoc. reflexivity. }
      intros k Hk. rewrite !elem_of_app in Hk.
      destruct Hk as [Hk|[Hk|Hk]]; [| |by apply Hlater].
      all: repeat (apply elem_of_cons in Hk as [[=]|Hk]; try done).
      all: by apply elem_of_nil in Hk.
  - intros Hquiet firing [-> | ->].
    + unfold on_interval.
      eapply wp_mono; [apply (scheduled_firing_quiet now w Htxn Hquiet)|].
      cbv beta. intros r w' (_ & -> & _). auto.
    + eapply wp_mono; [apply (on_timeout_quiet now w Htxn Hquiet)|].
      cbv beta. intros r w' (_ & -> & _). auto.
  - intros Hnull.
    pose proof (fired_bound start (store w) Hwf) as (Hle' & Heq' & _).
    eapply wp_mono; [apply (setup_first_run start w Htxn Hrest Hnull)|].
    cbv beta. intros r w' (_ & -> & _). auto.
Qed.

(** A firing on a table of 100 snapshots: the snapshot is taken, the
    oldest is deleted, 100 are left; and the same at start-up when the
    query for the last snapshot meets a storage error. *)
Lemma scheduler_prunes_with_default_keep_count_witness :
  wp (on_interval (sample_instant + 14400000 * 101))
     (fun r w' =>
        length (snapshots (store w')) = 100%nat /\
        head (map s_id (snapshots (store w'))) = Some 2 /\
        last (map s_id (snapshots (store w'))) = Some 101)
     (Conn.open sample_hundred []) /\
  wp (setupAutomaticSnapshots (sample_instant + 14400000 * 100 + 5000))
     (fun r w' =>
        length (snapshots (store w')) = 100%nat /\
        head (map s_id (snapshots (store w'))) = Some 2 /\
        last (map s_id (snapshots (store w'))) = Some 101)
     (Conn.open sample_hundred [true]).
Proof.
  split.
  - destruct (scheduler_prunes_with_default_keep_count
                (sample_instant + 14400000 * 100 + 5000)
                (sample_instant + 14400000 * 100 + 5001)
                (sample_instant + 14400000 * 101) []
                (Conn.open sample_hundred []))
      as (_ & Hfiring & _).
    + reflexivity.
    + reflexivity.
    + apply (bool_decide_unpack _). vm_compute. reflexivity.
    + eapply wp_mono; [apply (Hfiring eq_refl); left; reflexivity|].
      cbv beta. intros r w' (-> & _). vm_compute. repeat split.
  - destruct (scheduler_prunes_with_default_keep_count
                (sample_instant + 14400000 * 100 + 5000)
                (sample_instant + 14400000 * 100 + 5001)
                (sample_instant + 14400000 * 101) []
                (Conn.open sample_hundred [true]))
      as (_ & _ & Hstart).
    + reflexivity.
    + reflexivity.
    + apply (bool_decide_unpack _). vm_compute. reflexivity.
    + eapply wp_mono; [apply Hstart; left; reflexivity|].
      cbv beta. intros r w' (-> & _). vm_compute. repeat split.
Defined.

(** ** Snapshot fidelity *)

Lemma of_user_snapshot_rows id u data :
  Query.of_user u (map (snapshot_row id) data)
  = map (snapshot_row id) (List.filter (fun r => String.eqb (ca_user_id r) u) data).
Proof.
  unfold Query.of_user. induction data as [|r data IH]; simpl; [done|].
  destruct (String.eqb (ca_user_id r) u); simpl; by rewrite IH.
Qed.

(** What a fresh snapshot shows is the activity store it was taken from. *)
Lemma users_view_of_new_snapshot id d d1 :
  Query.of_snapshot id d1 = map (snapshot_row id) (Stmt.select_activity d) ->
  NoDup (map user_of (users_view id d1)) /\
  (forall u, u ∈ map user_of (users_view id d1) <-> u ∈ map ca_user_id (channel_activity d)) /\
  (forall uv, uv ∈ users_view id d1 ->
     ut_total_messages (uv_user uv)
       = Sql.sum (map ca_message_count (activity_of_user (user_of uv) d)) /\
     Permutation (uv_channels uv) (map activity_view (activity_of_user (user_of uv) d))).
Proof.
  intros Hrows.
  destruct (users_view_spec id d1) as (Hnd & Hin & Hview). rewrite Hrows in Hin, Hview.
  assert (forall u,
            Permutation (List.filter (fun r => String.eqb (ca_user_id r) u)
                                     (Stmt.select_activity d))
                        (activity_of_user u d)) as Hperm
    by (intros u; apply filter_perm_bool, select_activity_perm).
  split; [done|]. split.
  - intros u. rewrite Hin, map_map. simpl.
    change (map (fun x => ca_user_id x) (Stmt.select_activity d))
      with (map ca_user_id (Stmt.select_activity d)).
    by rewrite (Permutation_map ca_user_id (select_activity_perm d)).
  - intros uv Huv. destruct (Hview uv Huv) as [Htotal Hchannels].
    rewrite of_user_snapshot_rows in Htotal, Hchannels.
    rewrite !map_map in Htotal, Hchannels. simpl in Htotal, Hchannels.
    split.
    + rewrite Htotal. apply sum_perm. apply (Permutation_map ca_message_count), Hperm.
    + rewrite Hchannels. apply (Permutation_map activity_view), Hperm.
Qed.

(** C4.  On a well-formed database with a non-empty activity store, no
    storage error and a name not yet taken: [createSnapshot] reports a
    snapshot, and the get route for its id then answers with that snapshot
    and one entry per user of the store, no user twice; each entry carries
    the sum of the user's [message_count] over the user's rows as
    [total_messages], and as [channels] exactly the user's rows as
    [{channel_id, channel_name, message_count}] (in the order of the
    query).  For an id that no snapshot has, the get route answers 404. *)
Theorem snapshot_fidelity (now : Z) (w : World) :
  txn w = None -> quiet w -> wf_db (store w) ->
  channel_activity (store w) <> [] ->
  (snapshot_name now ∉ map s_name (snapshots (store w))) ->
  wp (createSnapshot now)
     (fun r1 w1 =>
        exists info, r1 = Returned (Some info) /\
        wp (get_snapshots_route (Some (info_id info)))
           (fun r2 w2 =>
              exists snapshot users,
                r2 = Returned (GetOne snapshot users) /\
                s_id snapshot = info_id info /\
                s_name snapshot = info_name info /\
                NoDup (map user_of users) /\
                (forall u, u ∈ map user_of users <->
                           u ∈ map ca_user_id (channel_activity (store w))) /\
                (forall uv, uv ∈ users ->
                   ut_total_messages (uv_user uv)
                     = Sql.sum (map ca_message_count
                                    (activity_of_user (user_of uv) (store w))) /\
                   Permutation (uv_channels uv)
                     (map activity_view (activity_of_user (user_of uv) (store w)))))
           w1) w /\
  (forall id, id ∉ map s_id (snapshots (store w)) ->
     wp (get_snapshots_route (Some id)) (fun r _ => r = Returned GetNotFound) w).
Proof.
  intros Htxn Hquiet Hwf Hne Hfresh. split.
  - eapply wp_mono; [apply (createSnapshot_succeeds now w Htxn Hquiet Hwf Hne Hfresh)|].
    cbv beta. intros r1 w1 (-> & Hst & Hwf1 & Htxn1 & Hquiet1 & _).
    eexists. split; [reflexivity|]. simpl.
    eapply wp_mono; [apply (get_snapshots_route_quiet _ w1 Hquiet1)|].
    cbv beta. intros r2 w2 (_ & _ & _ & ->).
    pose proof Hwf as (_ & _ & _ & _ & Hown & _).
    assert (Stmt.select_snapshot (Stmt.next_id (store w)) (store w1)
            = Some {| s_id := Stmt.next_id (store w); s_name := snapshot_name now;
                      s_created_at := Sql.current_timestamp now |}) as Hsel.
    { unfold Stmt.select_snapshot. rewrite Hst. simpl.
      rewrite List.filter_app, (filter_none_bool _ (snapshots (store w))).
      - simpl. by rewrite Z.eqb_refl.
      - intros s Hs. pose proof (next_id_above (store w) s Hs). apply Z.eqb_neq. lia. }
    assert (Query.of_snapshot (Stmt.next_id (store w)) (store w1)
            = map (snapshot_row (Stmt.next_id (store w))) (Stmt.select_activity (store w)))
      as Hrows.
    { unfold Query.of_snapshot. rewrite Hst. simpl.
      rewrite List.filter_app, (filter_none_bool _ (snapshot_data (store w))).
      - simpl. apply filter_all_bool.
        intros r (a & -> & _)%list_elem_of_fmap. simpl. apply Z.eqb_refl.
      - intros r Hr. rewrite Forall_forall in Hown.
        apply Hown, list_elem_of_fmap in Hr as (s & -> & Hs).
        pose proof (next_id_above (store w) s Hs). apply Z.eqb_neq. lia. }
    rewrite Hsel. eexists _, _. split; [reflexivity|].
    split; [reflexivity|]. split; [reflexivity|].
    apply (users_view_of_new_snapshot _ (store w) (store w1) Hrows).
  - intros id Hid.
    eapply wp_mono; [apply (get_snapshots_route_quiet id w Hquiet)|].
    cbv beta. intros r w' (_ & _ & _ & ->).
    by rewrite (select_snapshot_None id (store w) Hid).
Qed.

(** The sample store: member 11 has written 2 + 1 messages in two
    channels, member 22 one message. *)
Lemma snapshot_fidelity_witness :
  wp (createSnapshot (sample_instant + 1000))
     (fun r1 w1 =>
        exists info, r1 = Returned (Some info) /\
        wp (get_snapshots_route (Some (info_id info)))
           (fun r2 w2 =>
              exists snapshot users,
                r2 = Returned (GetOne snapshot users) /\
                forall uv, uv ∈ users ->
                  ut_total_messages (uv_user uv)
                  = Sql.sum (map ca_message_count
                                 (activity_of_user (user_of uv) sample_activity)))
           w1) (Conn.open sample_activity []).
Proof.
  eapply wp_mono.
  - apply (snapshot_fidelity (sample_instant + 1000) (Conn.open sample_activity [])).
    + reflexivity.
    + reflexivity.
    + apply (bool_decide_unpack _). vm_compute. reflexivity.
    + vm_compute. discriminate.
    + apply (bool_decide_unpack _). vm_compute. reflexivity.
  - cbv beta. intros r1 w1 (info & -> & Hget). exists info. split; [reflexivity|].
    eapply wp_mono; [exact Hget|].
    cbv beta. intros r2 w2 (snapshot & users & -> & _ & _ & _ & _ & Hview).
    exists snapshot, users. split; [reflexivity|].
    intros uv Huv. by destruct (Hview uv Huv).
Defined.

Example snapshot_fidelity_sample :
  let run := (s ← createSnapshot (sample_instant + 1000);
              get_snapshots_route (info_id <$> s)) in
  fst (result_of run sample_activity)
  = Returned
      (GetOne {| s_id := 1; s_name := "2026-11-14T06-20-46-678Z";
                 s_created_at := 1794637246 |}
         [ {| uv_user := {| ut_user_id := "11"; ut_username := "ann#3";
                            ut_roles := "Prover"; ut_total_messages := 3 |};
              uv_channels :=
                [ {| cv_channel_id := "c1"; cv_channel_name := "lobby";
                     cv_message_count := 2 |};
                  {| cv_channel_id := "c2"; cv_channel_name := "random";
                     cv_message_count := 1 |} ] |};
           {| uv_user := {| ut_user_id := "22"; ut_username := "bob#1";
                            ut_roles := "Prover"; ut_total_messages := 1 |};
              uv_channels :=
                [ {| cv_channel_id := "c1"; cv_channel_name := "general";
                     cv_message_count := 1 |} ] |} ]).
Proof. vm_compute. reflexivity. Qed.

(** Rows with equal counts: the snapshot stores member 11's channels as
    the activity query lists them -- [c5], and then [c9] before [c1], the
    order of their first messages -- while the get route reads them through
    the primary key: [username] is that of the row of [c1], and [c1] comes
    before [c9]. *)
Example snapshot_of_tied_activity :
  let run := (s ← createSnapshot (sample_instant + 1000);
              get_snapshots_route (info_id <$> s)) in
  map sd_channel_id (snapshot_data (db_after run tied_activity))
  = [ "c5"; "c9"; "c1"; "c1" ]%string /\
  fst (result_of run tied_activity)
  = Returned
      (GetOne {| s_id := 1; s_name := "2026-11-14T06-20-46-678Z";
                 s_created_at := 1794637246 |}
         [ {| uv_user := {| ut_user_id := "11"; ut_username := "ann#4";
                            ut_roles := "Prover"; ut_total_messages := 7 |};
              uv_channels :=
                [ {| cv_channel_id := "c5"; cv_channel_name := "random";
                     cv_message_count := 3 |};
                  {| cv_channel_id := "c1"; cv_channel_name := "general";
                     cv_message_count := 2 |};
                  {| cv_channel_id := "c9"; cv_channel_name := "late";
                     cv_message_count := 2 |} ] |};
           {| uv_user := {| ut_user_id := "22"; ut_username := "bob#1";
                            ut_roles := "Prover"; ut_total_messages := 1 |};
              uv_channels :=
                [ {| cv_channel_id := "c1"; cv_channel_name := "general";
                     cv_message_count := 1 |} ] |} ]).
Proof. vm_compute. auto. Qed.

Example get_unknown_snapshot :
  fst (result_of (get_snapshots_route (Some 7)) sample_three) = Returned GetNotFound.
Proof. vm_compute. reflexivity. Qed.

(** A hundred and one firings, four hours apart, on the sample store: the
    first snapshot has been pruned, a hundred are left. *)
Example hundred_and_one_firings :
  let d' := db_after (run_intervals (every_four_hours 101)) sample_activity in
  length (snapshots d') = 100%nat /\
  head (map s_id (snapshots d')) = Some 2 /\
  last (map s_id (snapshots d')) = Some 101 /\
  length (snapshot_data d') = 300%nat.
Proof. vm_compute. auto. Qed.

(** ** Ids and names of new snapshots *)

(** C9 as stated fails for two calls at the same clock instant: the name is
    the instant to the millisecond, [UNIQUE(name)] rejects the second
    insertion, and the second call resolves to [null] without a new
    snapshot. *)
Lemma second_create_at_same_instant_is_rejected :
  let run := (a ← createSnapshot (sample_instant + 1000);
              b ← createSnapshot (sample_instant + 1000);
              mret (info_id <$> a, info_id <$> b)) in
  channel_activity sample_activity <> [] /\
  fst (result_of run sample_activity) = Returned (Some 1, None) /\
  map s_id (snapshots (db_after run sample_activity)) = [1].
Proof. vm_compute. split; [discriminate|auto]. Qed.

Lemma createSnapshot_name_taken now w :
  txn w = None ->
  (snapshot_name now ∈ map s_name (snapshots (store w))) ->
  wp (createSnapshot now) (fun r w' => r = Returned None /\ store w' = store w) w.
Proof.
  intros Htxn Htaken.
  eapply wp_mono; [apply (createSnapshot_spec now w Htxn)|].
  cbv beta. intros r w' (_ & _ & _ & Hr).
  destruct r as [[info|]|e]; [| |done].
  - destruct Hr as [_ Hr]. unfold snapshot_taken in Hr.
    destruct (Stmt.insert_snapshot _ _ _) as [[id d1]|] eqn:Hins; [|discriminate].
    by apply insert_snapshot_activity in Hins as (_ & _ & _ & _ & _ & Hfresh).
  - by destruct Hr as [-> _].
Qed.

(** C9, amended.  On a well-formed database with a non-empty activity
    store, with no transaction open on the connection and no storage
    error, a call of [createSnapshot] whose name -- the instant to the
    millisecond -- is not yet taken produces a new snapshot with that name
    and an id above every id in the table; a call whose name is taken (a
    second call within the same millisecond) produces nothing and resolves
    to [null].  For instants with four-digit years the names are ordered,
    as strings, the way the instants are, and distinct instants have
    distinct names; so two calls at different instants that run one after
    the other, the names of both not yet taken, produce two snapshots, the
    later with the larger id and the larger name.  A call that starts
    while a transaction is open on the connection -- a call racing with
    one in progress -- is refused its [BEGIN]: it resolves to [null] and
    changes nothing, whatever its instant; and so does a call one of whose
    statements meets a storage error. *)
Theorem createSnapshot_fresh_id_ordered_name (now later : Z) (w : World) :
  txn w = None -> quiet w -> wf_db (store w) ->
  channel_activity (store w) <> [] ->
  four_digit_year now -> four_digit_year later -> now < later ->
  ((snapshot_name now ∉ map s_name (snapshots (store w))) ->
   wp (createSnapshot now)
      (fun r w' =>
         exists info,
           r = Returned (Some info) /\
           info_name info = snapshot_name now /\
           (forall s, s ∈ snapshots (store w) ->
                      s_id s < info_id info /\ s_name s <> info_name info) /\
           snapshots (store w') = snapshots (store w) ++
             [ {| s_id := info_id info; s_name := info_name info;
                  s_created_at := Sql.current_timestamp now |} ]) w) /\
  ((snapshot_name now ∈ map s_name (snapshots (store w))) ->
   wp (createSnapshot now) (fun r w' => r = Returned None /\ store w' = store w) w) /\
  String.ltb (snapshot_name now) (snapshot_name later) = true /\
  snapshot_name now <> snapshot_name later /\
  ((snapshot_name now ∉ map s_name (snapshots (store w))) ->
   (snapshot_name later ∉ map s_name (snapshots (store w))) ->
   wp (createSnapshot now)
      (fun r1 w1 =>
         exists first, r1 = Returned (Some first) /\
         wp (createSnapshot later)
            (fun r2 w2 =>
               exists second, r2 = Returned (Some second) /\
                 info_id first < info_id second /\
                 String.ltb (info_name first) (info_name second) = true /\
                 length (snapshots (store w2)) = S (S (length (snapshots (store w)))))
            w1) w) /\
  (forall (racing : World) (d0 : DB),
     store racing = store w -> txn racing = Some d0 ->
     wp (createSnapshot later)
        (fun r w' => r = Returned None /\ store w' = store w /\ txn w' = Some d0)
        racing) /\
  (forall failing : World,
     store failing = store w -> txn failing = None ->
     wp (createSnapshot later)
        (fun r w' =>
           met_storage_error failing w' -> r = Returned None /\ store w' = store w)
        failing).
Proof.
  intros Htxn Hquiet Hwf Hne Hnow Hlater Hlt.
  assert (String.ltb (snapshot_name now) (snapshot_name later) = true) as Hord.
  { unfold String.ltb. rewrite (compare_snapshot_name now later Hnow Hlater).
    by rewrite (proj2 (Z.compare_lt_iff now later) Hlt). }
  assert (snapshot_name now <> snapshot_name later) as Hdiff.
  { intros Heq. apply (snapshot_name_injective now later Hnow Hlater) in Heq. lia. }
  split; [|split; [|split; [|split; [|split; [|split]]]]]; try done.
  - intros Hfresh.
    eapply wp_mono; [apply (createSnapshot_succeeds now w Htxn Hquiet Hwf Hne Hfresh)|].
    cbv beta. intros r w' (-> & Hst & _).
    eexists. split; [reflexivity|]. simpl. split; [done|]. split; [|by rewrite Hst].
    intros s Hs. split; [by apply next_id_above|].
    intros Heq. apply Hfresh, list_elem_of_fmap. eauto.
  - by apply createSnapshot_name_taken.
  - intros Hfresh Hfresh'.
    eapply wp_mono; [apply (createSnapshot_succeeds now w Htxn Hquiet Hwf Hne Hfresh)|].
    cbv beta. intros r1 w1 (-> & Hst1 & Hwf1 & Htxn1 & Hquiet1 & _).
    eexists. split; [reflexivity|].
    assert (channel_activity (store w1) <> []) as Hne1 by (by rewrite Hst1).
    assert (snapshot_name later ∉ map s_name (snapshots (store w1))) as Hfresh1.
    { rewrite Hst1. simpl. rewrite map_app, elem_of_app. simpl.
      intros [Hin|Hin%list_elem_of_singleton]; [done|]. by apply Hdiff. }
    eapply wp_mono; [apply (createSnapshot_succeeds later w1 Htxn1 Hquiet1 Hwf1 Hne1 Hfresh1)|].
    cbv beta. intros r2 w2 (-> & Hst2 & _).
    eexists. split; [reflexivity|]. simpl.
    split.
    { apply (next_id_above (store w1)
               {| s_id := Stmt.next_id (store w); s_name := snapshot_name now;
                  s_created_at := Sql.current_timestamp now |}).
      rewrite Hst1. simpl. apply elem_of_app. right. by apply list_elem_of_singleton. }
    split; [done|].
    rewrite Hst2. simpl. rewrite length_app, Hst1. simpl. rewrite length_app. simpl. lia.
  - intros racing d0 Hst Hopen.
    eapply wp_mono; [apply (createSnapshot_in_txn later racing d0 Hopen)|].
    cbv beta. intros r w' (-> & -> & -> & _). auto.
  - intros failing Hst Hclosed.
    eapply wp_mono; [apply (createSnapshot_spec later failing Hclosed)|].
    cbv beta. intros r w' (_ & _ & _ & Hr) Hmet.
    destruct r as [[info|]|e]; [| |done].
    + destruct Hr as [Hcalm _]. destruct (calm_no_storage_error _ _ Hcalm Hmet).
    + destruct Hr as [-> _]. auto.
Qed.

(** On the sample store: two calls a millisecond apart give two snapshots
    in order; a call while a transaction is open gives none. *)
Lemma createSnapshot_fresh_id_ordered_name_witness :
  wp (createSnapshot (sample_instant + 1000))
     (fun r1 w1 =>
        exists first, r1 = Returned (Some first) /\
        wp (createSnapshot (sample_instant + 1001))
           (fun r2 w2 =>
              exists second, r2 = Returned (Some second) /\
                info_id first < info_id second /\
                String.ltb (info_name first) (info_name second) = true)
           w1) (Conn.open sample_activity []) /\
  wp (createSnapshot (sample_instant + 1001))
     (fun r w' => r = Returned None /\ store w' = sample_activity)
     (Conn.with_txn (Conn.open sample_activity []) sample_activity (Some sample_activity)).
Proof.
  destruct (createSnapshot_fresh_id_ordered_name (sample_instant + 1000)
              (sample_instant + 1001) (Conn.open sample_activity []))
    as (_ & _ & _ & _ & Htwo & Hracing & _).
  - reflexivity.
  - reflexivity.
  - apply (bool_decide_unpack _). vm_compute. reflexivity.
  - vm_compute. discriminate.
  - unfold four_digit_year, sample_instant. lia.
  - unfold four_digit_year, sample_instant. lia.
  - lia.
  - split.
    + eapply wp_mono.
      * apply Htwo; apply (bool_decide_unpack _); vm_compute; reflexivity.
      * cbv beta. intros r1 w1 (first & -> & Hnext). exists first. split; [reflexivity|].
        eapply wp_mono; [exact Hnext|].
        cbv beta. intros r2 w2 (second & -> & Hid & Hname & _).
        exists second. auto.
    + eapply wp_mono; [apply (Hracing _ sample_activity); reflexivity|].
      cbv beta. intros r w' (-> & -> & _). auto.
Defined.

(** Two calls one millisecond apart: two snapshots, ids 1 and 2, names in
    order. *)
Example create_twice_one_millisecond_apart :
  let run := (_ ← createSnapshot (sample_instant + 1000);
              createSnapshot (sample_instant + 1001)) in
  map (fun s => (s_id s, s_name s)) (snapshots (db_after run sample_activity))
  = [ (1, "2026-11-14T06-20-46-678Z"); (2, "2026-11-14T06-20-46-679Z") ]%string.
Proof. vm_compute. reflexivity. Qed.

(** Beyond the year 9999 the ISO form starts with a sign, and the order of
    the names is no longer that of the instants. *)
Example name_order_breaks_after_year_9999 :
  snapshot_name 253402300800000 = "+010000-01-01T00-00-00-000Z"%string /\
  String.ltb (snapshot_name 253402300800000) (snapshot_name 253402300799999) = true.
Proof. vm_compute. auto. Qed.

(** * Further properties of the code *)

(** ** Messages that do not count, and messages that are lost *)

(** What a run of [processMessage] comes to: nothing for a message that
    does not count; one call for a message that counts, whose upsert is
    lost when that call meets a storage error. *)
Lemma processMessage_run now message w :
  processMessage now message w =
  if qualifies message then
    (Returned tt,
     if Conn.faulty w then Conn.tick w
     else Conn.with_store (Conn.tick w) (upsert_of now message (store w)))
  else (Returned tt, w).
Proof.
  destruct (qualifies message) eqn:Hq; [|by apply processMessage_ignores].
  revert Hq. unfold qualifies, processMessage, upsert_of.
  intros [Hbot Hrole]%andb_true_iff.
  apply negb_true_iff in Hbot. rewrite Hbot.
  assert (forall stmt, try_catch (Conn.exec stmt) (fun _ => mret tt) w
          = (Returned tt,
             if Conn.faulty w then Conn.tick w
             else Conn.with_store (Conn.tick w) (stmt (store w)))) as Hexec.
  { intros stmt. unfold try_catch, Conn.exec, Conn.run.
    by destruct (Conn.faulty w). }
  unfold resolved_member in *.
  destruct (msg_member message) as [m|].
  - rewrite <- Hexec.
    unfold try_catch, mbind, Async_bind, mret, Async_ret.
    cbn -[hasTargetRole getUserRoles Conn.exec Stmt.upsert_activity].
    rewrite Hrole. reflexivity.
  - destruct (msg_guild_fetch message) as [[m|]|]; try discriminate.
    rewrite <- Hexec.
    unfold try_catch, mbind, Async_bind, mret, Async_ret.
    cbn -[hasTargetRole getUserRoles Conn.exec Stmt.upsert_activity].
    rewrite Hrole. reflexivity.
Qed.

Lemma process_all_cons now message rest w :
  process_all ((now, message) :: rest) w
  = process_all rest (processMessage now message w).2.
Proof.
  simpl. unfold mbind, Async_bind.
  rewrite processMessage_run. by destruct (qualifies message).
Qed.

(** X1.  Messages of bots, of members without a monitored role, of authors
    whose member record cannot be fetched, and messages outside a guild
    leave no mark at all: they make no call on the connection, so a stream
    of messages has the same outcome and leaves the same connection -- the
    tables, the call count, the storage errors still to come -- as the
    stream of its messages that count. *)
Theorem process_all_skips_what_does_not_count (msgs : list (Z * Message)) (w : World) :
  process_all msgs w
  = process_all (List.filter (fun tm => qualifies (snd tm)) msgs) w.
Proof.
  revert w. induction msgs as [|[now message] rest IH]; intros w; [done|].
  cbn [List.filter snd]. destruct (qualifies message) eqn:Hq.
  - by rewrite !process_all_cons, IH.
  - by rewrite process_all_cons, processMessage_ignores, IH.
Qed.

(** X2.  [processMessage] never throws and leaves the transaction state
    alone.  It makes one call on the connection for a message that counts
    and none otherwise; the message is counted exactly when it counts and
    that call meets no storage error -- a storage error is swallowed, and
    the message is lost without a trace in the tables. *)
Theorem processMessage_counts_unless_storage_error
    (now : Z) (message : Message) (w : World) :
  wp (processMessage now message)
     (fun r w' =>
        r = Returned tt /\ txn w' = txn w /\ trace w' = trace w /\
        issued w' = (issued w + (if qualifies message then 1 else 0))%nat /\
        store w' = (if qualifies message && negb (Conn.faulty w)
                    then upsert_of now message (store w)
                    else store w)) w.
Proof.
  unfold wp. rewrite processMessage_run.
  destruct (qualifies message); simpl.
  - destruct (Conn.faulty w); simpl; repeat split; auto; lia.
  - repeat split; auto; lia.
Qed.

(** ** The sum of all counts *)

Lemma sum_app l1 l2 : Sql.sum (l1 ++ l2) = Sql.sum l1 + Sql.sum l2.
Proof. unfold Sql.sum. induction l1 as [|x l1 IH]; simpl; lia. Qed.

Lemma upsert_total u un ro c cn now d :
  NoDup (map activity_key (channel_activity d)) ->
  total_messages (Stmt.upsert_activity u un ro c cn now d) = total_messages d + 1.
Proof.
  intros Hnd. unfold total_messages, Stmt.upsert_activity. cbn [channel_activity].
  destruct (existsb (Stmt.same_identity u c) (channel_activity d)) eqn:Hex.
  - assert (length (rows_of u c d) = 1%nat) as Hone.
    { destruct (rows_of_unique u c d Hnd) as [Hnone | [r Hr]]; [|by rewrite Hr].
      exfalso. apply existsb_exists in Hex as (r & Hr & Hsame).
      assert (r ∈ rows_of u c d) as Hin
        by (apply elem_of_filter_bool; split; [by apply list_elem_of_In|done]).
      rewrite Hnone in Hin. by apply elem_of_nil in Hin. }
    unfold rows_of in Hone. clear Hex Hnd.
    assert (forall rows,
              Sql.sum (map ca_message_count
                 (map (fun r => if Stmt.same_identity u c r then
                    {| ca_user_id := ca_user_id r; ca_username := un; ca_roles := ro;
                       ca_channel_id := ca_channel_id r; ca_channel_name := cn;
                       ca_message_count := ca_message_count r + 1;
                       ca_last_message := Sql.current_timestamp now |}
                    else r) rows))
              = Sql.sum (map ca_message_count rows)
                + Z.of_nat (length (List.filter (Stmt.same_identity u c) rows))) as Hsum.
    { induction rows as [|r rows IH]; [done|].
      cbn [map List.filter]. unfold Sql.sum in *. cbn [foldr]. rewrite IH.
      destruct (Stmt.same_identity u c r); simpl; lia. }
    rewrite Hsum, Hone. lia.
  - rewrite map_app, sum_app. unfold Sql.sum. simpl. lia.
Qed.

(** X3.  With at most one row per identity in the store, a stream of
    messages adds to the sum of all counts one for every message that
    counts when no storage error occurs; with storage errors the sum still
    never decreases and never grows by more than that -- an error loses a
    message, it never counts one twice. *)
Theorem process_all_total (msgs : list (Z * Message)) : forall w : World,
  NoDup (map activity_key (channel_activity (store w))) ->
  wp (process_all msgs)
     (fun r w' =>
        let counted := Z.of_nat (length (List.filter (fun tm => qualifies (snd tm)) msgs)) in
        r = Returned tt /\
        total_messages (store w) <= total_messages (store w') /\
        total_messages (store w') <= total_messages (store w) + counted /\
        (quiet w -> total_messages (store w') = total_messages (store w) + counted)) w.
Proof.
  induction msgs as [|[now message] rest IH]; intros w Hnd.
  - cbv zeta. unfold wp. simpl. repeat split; auto; lia.
  - unfold wp. rewrite process_all_cons.
    rewrite processMessage_run.
    cbn [List.filter snd].
    destruct (qualifies message) eqn:Hq; cbn [snd].
    + destruct (Conn.faulty w) eqn:Hf.
      * specialize (IH (Conn.tick w)). autorewrite with conn in IH.
        specialize (IH Hnd). unfold wp in IH. cbv zeta in IH |- *.
        destruct IH as (Hr & Hlo & Hhi & Hquiet).
        cbn [length]. repeat split; auto; try lia.
        intros Hqw. exfalso. by apply (quiet_not_faulty w).
      * pose proof (upsert_keys (msg_author_id message) (msg_author_tag message)
                      (getUserRoles (resolved_member message)) (msg_channel_id message)
                      (msg_channel_name message) now (store w) Hnd) as Hnd1.
        pose proof (upsert_total (msg_author_id message) (msg_author_tag message)
                      (getUserRoles (resolved_member message)) (msg_channel_id message)
                      (msg_channel_name message) now (store w) Hnd) as Htot.
        fold (upsert_of now message (store w)) in Hnd1, Htot.
        specialize (IH (Conn.with_store (Conn.tick w) (upsert_of now message (store w)))).
        autorewrite with conn in IH. specialize (IH Hnd1).
        unfold wp in IH. cbv zeta in IH |- *.
        destruct IH as (Hr & Hlo & Hhi & Hquiet).
        cbn [length]. repeat split; auto; try lia.
        intros Hqw. rewrite Hquiet by auto with conn. lia.
    + specialize (IH w Hnd). unfold wp in IH. cbv zeta in IH |- *. exact IH.
Qed.

Lemma process_all_total_witness :
  wp (process_all sample_messages)
     (fun r w' =>
        let counted :=
          Z.of_nat (length (List.filter (fun tm => qualifies (snd tm)) sample_messages)) in
        r = Returned tt /\
        total_messages (store (Conn.open empty_db [false; true])) <= total_messages (store w') /\
        total_messages (store w')
          <= total_messages (store (Conn.open empty_db [false; true])) + counted /\
        (quiet (Conn.open empty_db [false; true]) ->
         total_messages (store w')
         = total_messages (store (Conn.open empty_db [false; true])) + counted))
     (Conn.open empty_db [false; true]).
Proof.
  apply (process_all_total sample_messages (Conn.open empty_db [false; true])).
  simpl. apply NoDup_nil. exact I.
Defined.

(** With a storage error at the second of the four sample messages the
    store counts three messages, not four. *)
Example process_all_loses_one :
  total_messages (store (process_all sample_messages (Conn.open empty_db [false; true])).2) = 3
  /\ total_messages (store (process_all sample_messages (Conn.open empty_db [])).2) = 4.
Proof. vm_compute. auto. Qed.

(** ** The order of the messages *)

Lemma record_all_count u c msgs d :
  NoDup (map activity_key (channel_activity d)) ->
  prior_count u c (record_all msgs d)
  = prior_count u c d + Z.of_nat (length (messages_of u c msgs)).
Proof.
  intros Hnd. destruct (record_all_identity u c msgs d Hnd) as (_ & Hnone & Hlast).
  destruct (last (messages_of u c msgs)) as [[last_now last_message]|] eqn:Hl.
  - destruct (Hlast _ _ eq_refl) as (r & Hr & Hcount & _).
    by rewrite (prior_count_one _ _ _ _ Hr).
  - apply last_None in Hl. unfold prior_count. rewrite Hnone, Hl by done. simpl. lia.
Qed.

Lemma process_all_records msgs : forall w,
  quiet w ->
  store (process_all msgs w).2
  = record_all (List.filter (fun tm => qualifies (snd tm)) msgs) (store w).
Proof.
  induction msgs as [|[now message] rest IH]; intros w Hq; [done|].
  rewrite process_all_cons, processMessage_run. cbn [List.filter snd].
  destruct (qualifies message); cbn [snd]; [|by apply IH].
  destruct (Conn.faulty w) eqn:Hf; [destruct (quiet_not_faulty w Hq Hf)|].
  rewrite IH by auto with conn. by autorewrite with conn.
Qed.

Lemma messages_of_filter u c p (msgs : list (Z * Message)) :
  messages_of u c (List.filter p msgs) = List.filter p (messages_of u c msgs).
Proof.
  unfold messages_of. rewrite !filter_filter_bool.
  apply filter_ext_bool. intros x. apply andb_comm.
Qed.

(** X4.  Without storage errors, with at most one row per identity in the
    store, the count of every identity after a stream of messages is the
    count before plus the number of the identity's messages that count;
    so it does not depend on the order in which the messages arrive: two
    streams that are rearrangements of each other leave the same count
    for every identity. *)
Theorem counts_do_not_depend_on_order
    (msgs msgs' : list (Z * Message)) (userId channelId : string) (w : World) :
  quiet w ->
  NoDup (map activity_key (channel_activity (store w))) ->
  Permutation msgs msgs' ->
  prior_count userId channelId (store (process_all msgs w).2)
  = prior_count userId channelId (store w)
    + Z.of_nat (length (List.filter (fun tm => qualifies (snd tm))
                                    (messages_of userId channelId msgs))) /\
  prior_count userId channelId (store (process_all msgs w).2)
  = prior_count userId channelId (store (process_all msgs' w).2).
Proof.
  intros Hq Hnd Hperm.
  rewrite !process_all_records, !record_all_count, !messages_of_filter by done.
  split; [done|].
  f_equal. f_equal. apply Permutation_length, filter_perm_bool.
  unfold messages_of. by apply filter_perm_bool.
Qed.

Lemma counts_do_not_depend_on_order_witness :
  prior_count "11" "c1" (store (process_all sample_messages (Conn.open empty_db [])).2)
  = prior_count "11" "c1" (store (Conn.open empty_db []))
    + Z.of_nat (length (List.filter (fun tm => qualifies (snd tm))
                                    (messages_of "11" "c1" sample_messages))) /\
  prior_count "11" "c1" (store (process_all sample_messages (Conn.open empty_db [])).2)
  = prior_count "11" "c1"
      (store (process_all (rev sample_messages) (Conn.open empty_db [])).2).
Proof.
  apply (counts_do_not_depend_on_order sample_messages (rev sample_messages)
           "11" "c1" (Conn.open empty_db [])).
  - reflexivity.
  - simpl. apply NoDup_nil. exact I.
  - apply Permutation_rev.
Defined.

(** ** Reading a snapshot *)

(** The first storage error after calls that met none. *)
Lemma calm_then_fault w0 w :
  calm w0 w -> Conn.faulty w = true -> met_storage_error w0 (Conn.tick w).
Proof.
  intros (n & Hi & Hfs & _) Hf. exists n. rewrite issued_tick, Hi. split; [lia|].
  unfold Conn.faulty in Hf. rewrite Hfs in Hf.
  destruct (drop n (faults w0)) as [|b rest] eqn:Hd; [discriminate|].
  simpl in Hf. subst b.
  rewrite <- (Nat.add_0_r n), <- lookup_drop, Hd. reflexivity.
Qed.

(** The get route only reads: the tables, the transaction state and the
    log are as before; it answers what [get_reply] gives when its calls
    meet no storage error, and 500 from the first storage error on. *)
Lemma get_snapshots_route_spec sid w :
  wp (get_snapshots_route sid)
     (fun r w' =>
        store w' = store w /\ txn w' = txn w /\ trace w' = trace w /\
        (quiet w -> quiet w') /\
        (r = Returned (get_reply sid (store w)) /\ calm w w' \/
         r = Returned GetFailed /\ met_storage_error w w')) w.
Proof.
  unfold get_snapshots_route, get_reply, users_view.
  apply wp_try. destruct sid as [id|].
  - apply wp_bind, wp_query.
    { intros Hf. apply wp_ret. autorewrite with conn.
      repeat (split; [solve [auto with conn]|]).
      right. split; [done|]. apply calm_then_fault; auto with conn. }
    intros Hf0.
    assert (calm w (Conn.with_store (Conn.tick w) (store w))) as Hc0
      by auto with conn.
    set (w1 := Conn.with_store (Conn.tick w) (store w)) in *.
    assert (store w1 = store w /\ txn w1 = txn w /\ trace w1 = trace w /\
            (quiet w -> quiet w1)) as (Hs1 & Ht1 & Htr1 & Hq1)
      by (unfold w1; autorewrite with conn; auto 10 with conn).
    clearbody w1.
    destruct (Stmt.select_snapshot id (store w)) as [snapshot|].
    2: { apply wp_ret. auto 10. }
    apply wp_bind, wp_query.
    { intros Hf. apply wp_ret. autorewrite with conn.
      repeat (split; [solve [auto with conn]|]).
      right. split; [done|]. apply calm_then_fault; auto with conn. }
    intros Hf1.
    assert (calm w (Conn.with_store (Conn.tick w1) (store w1))) as Hc1
      by auto with conn.
    set (w2 := Conn.with_store (Conn.tick w1) (store w1)) in *.
    assert (store w2 = store w /\ txn w2 = txn w /\ trace w2 = trace w /\
            (quiet w -> quiet w2)) as (Hs2 & Ht2 & Htr2 & Hq2)
      by (unfold w2; autorewrite with conn; auto 10 with conn).
    clearbody w2.
    apply wp_bind, wp_query.
    { intros Hf. apply wp_ret. autorewrite with conn.
      repeat (split; [solve [auto with conn]|]).
      right. split; [done|]. apply calm_then_fault; auto with conn. }
    intros Hf2. apply wp_ret. autorewrite with conn.
    repeat (split; [solve [auto with conn]|]).
    left. rewrite Hs2, Hs1. split; [done|]. auto with conn.
  - apply wp_bind, wp_query.
    { intros Hf. apply wp_ret. autorewrite with conn.
      repeat (split; [solve [auto with conn]|]).
      right. split; [done|]. apply calm_then_fault; auto with conn. }
    intros Hf0. apply wp_ret. autorewrite with conn.
    repeat (split; [solve [auto with conn]|]).
    left. split; [done|]. auto with conn.
Qed.

Lemma get_reply_not_failed sid d : get_reply sid d <> GetFailed.
Proof.
  unfold get_reply. destruct sid as [id|]; [|done].
  by destruct (Stmt.select_snapshot id d).
Qed.

Lemma get_snapshots_route_quiet_reply sid w :
  quiet w -> (get_snapshots_route sid w).1 = Returned (get_reply sid (store w)).
Proof.
  intros Hq. pose proof (get_snapshots_route_spec sid w) as Hspec. unfold wp in Hspec.
  destruct Hspec as (_ & _ & _ & _ & [[Hr _] | [_ (k & _ & Hk)]]); [done|].
  unfold quiet in Hq. rewrite Hq in Hk. discriminate.
Qed.

(** X5.  [GET /api/snapshots/:id?] never writes: whatever the path and
    whatever storage errors occur, the tables, the transaction state and
    the scheduler's log are as before, and the route never throws.  A
    storage error in one of its calls gives 500.  Without one it answers
    from the tables: the listing for a path without id, 404 for an id that
    no snapshot has, and the snapshot with its users otherwise -- provided
    that no user id of the snapshot names a property that the object
    [userChannels] inherits; with such an id the grouping fails in the
    source, which answers 500 then as well (ids of that kind, which
    Discord does not issue, are outside the embedding of [push_channel]).
    A reply with a snapshot always carries the row of that id and the
    users as the two queries give them. *)
Theorem get_route_only_reads (snapshotId : option Z) (w : World) :
  wp (get_snapshots_route snapshotId)
     (fun r w' =>
        store w' = store w /\ txn w' = txn w /\ trace w' = trace w /\
        (exists reply, r = Returned reply) /\
        (met_storage_error w w' -> r = Returned GetFailed) /\
        (r = Returned GetFailed ->
         met_storage_error w w' \/
         exists id, snapshotId = Some id /\
                    id ∈ map s_id (snapshots (store w)) /\
                    ~ plain_user_ids id (store w)) /\
        (~ met_storage_error w w' ->
         match snapshotId with
         | None => r = Returned (GetList (Query.select_listing (store w)))
         | Some id =>
             match Stmt.select_snapshot id (store w) with
             | None => r = Returned GetNotFound
             | Some snapshot =>
                 plain_user_ids id (store w) ->
                 r = Returned (GetOne snapshot (users_view id (store w)))
             end
         end) /\
        (forall snapshot users,
           r = Returned (GetOne snapshot users) ->
           exists id, snapshotId = Some id /\
                      Stmt.select_snapshot id (store w) = Some snapshot /\
                      users = users_view id (store w))) w.
Proof.
  eapply wp_mono; [apply get_snapshots_route_spec|].
  cbv beta. intros r w' (Hs & Ht & Htr & _ & Hr).
  split; [done|]. split; [done|]. split; [done|].
  destruct Hr as [[-> Hc] | [-> Hmet]].
  - split; [eauto|]. split.
    { intros Hmet. destruct (calm_no_storage_error _ _ Hc Hmet). }
    split.
    { intros [= Hbad]. by destruct (get_reply_not_failed snapshotId (store w)). }
    split.
    + intros _. unfold get_reply. destruct snapshotId as [id|]; [|done].
      by destruct (Stmt.select_snapshot id (store w)).
    + intros snapshot users [= Hreply]. unfold get_reply in Hreply.
      destruct snapshotId as [id|]; [|done].
      destruct (Stmt.select_snapshot id (store w)) as [found|] eqn:Hsel; [|done].
      injection Hreply as -> <-. eauto.
  - split; [eauto|]. split; [done|]. split; [auto|].
    split; [intros Hno; by destruct Hno|done].
Qed.

(** A storage error at the second call of the route: the snapshot was
    found, the summary query failed. *)
Example get_route_fails_at_second_call :
  let (r, w') := get_snapshots_route (Some 2) (Conn.open sample_three [false; true]) in
  r = Returned GetFailed /\ store w' = sample_three /\ issued w' = 2%nat.
Proof. vm_compute. auto. Qed.

(** ** Snapshots are frozen *)

Lemma upsert_keeps_snapshots u un ro c cn now d :
  snapshots (Stmt.upsert_activity u un ro c cn now d) = snapshots d /\
  snapshot_data (Stmt.upsert_activity u un ro c cn now d) = snapshot_data d /\
  sqlite_sequence (Stmt.upsert_activity u un ro c cn now d) = sqlite_sequence d.
Proof. done. Qed.

(** What the get route answers depends on [snapshots] and
    [snapshot_data] alone. *)
Lemma get_reply_ext sid d d' :
  snapshots d' = snapshots d -> snapshot_data d' = snapshot_data d ->
  get_reply sid d' = get_reply sid d.
Proof.
  intros Hs Hd.
  unfold get_reply, Query.select_listing, Stmt.select_snapshot, users_view,
    Query.select_channel_activity, Query.select_user_totals, Query.index_scan,
    Query.of_snapshot.
  by rewrite Hs, Hd.
Qed.

Lemma process_all_keeps_snapshots msgs : forall w,
  snapshots (store (process_all msgs w).2) = snapshots (store w) /\
  snapshot_data (store (process_all msgs w).2) = snapshot_data (store w) /\
  sqlite_sequence (store (process_all msgs w).2) = sqlite_sequence (store w) /\
  (quiet w -> quiet (process_all msgs w).2).
Proof.
  induction msgs as [|[now message] rest IH]; intros w; [done|].
  rewrite process_all_cons, processMessage_run.
  destruct (qualifies message); cbn [snd]; [|apply IH].
  destruct (Conn.faulty w).
  - destruct (IH (Conn.tick w)) as (-> & -> & -> & Hq).
    autorewrite with conn. auto 10 with conn.
  - destruct (IH (Conn.with_store (Conn.tick w) (upsert_of now message (store w))))
      as (-> & -> & -> & Hq).
    autorewrite with conn. auto 10 with conn.
Qed.

(** X6.  A snapshot is a frozen copy: messages processed after it was
    taken -- any number, with or without storage errors -- change neither
    [snapshots] nor [snapshot_data] nor the id sequence, and so the get
    route answers after them, for every path, what it answered before
    (compared on connections without storage errors). *)
Theorem messages_do_not_change_snapshots
    (msgs : list (Z * Message)) (snapshotId : option Z) (w : World) :
  let w' := (process_all msgs w).2 in
  snapshots (store w') = snapshots (store w) /\
  snapshot_data (store w') = snapshot_data (store w) /\
  sqlite_sequence (store w') = sqlite_sequence (store w) /\
  (quiet w ->
   (get_snapshots_route snapshotId w').1 = (get_snapshots_route snapshotId w).1).
Proof.
  cbv zeta.
  destruct (process_all_keeps_snapshots msgs w) as (Hs & Hd & Hseq & Hq).
  split; [done|]. split; [done|]. split; [done|].
  intros Hqw. rewrite !get_snapshots_route_quiet_reply by auto.
  f_equal. by apply get_reply_ext.
Qed.

(** Two more messages after the third snapshot: the activity store has
    moved on, the answer for snapshot 3 has not. *)
Example snapshot_three_is_frozen :
  let w := Conn.open sample_three [] in
  let w' := (process_all sample_messages w).2 in
  total_messages (store w') = total_messages (store w) + 4 /\
  (get_snapshots_route (Some 3) w').1 = (get_snapshots_route (Some 3) w).1.
Proof. vm_compute. auto. Qed.

(** ** The listing *)

Lemma sum_map_add {X} (f g : X -> Z) (l : list X) :
  Sql.sum (map (fun x => f x + g x) l) = Sql.sum (map f l) + Sql.sum (map g l).
Proof. unfold Sql.sum. induction l as [|x l IH]; simpl; lia. Qed.

Lemma sum_map_zero {X} (l : list X) : Sql.sum (map (fun _ => 0) l) = 0.
Proof. unfold Sql.sum. induction l as [|x l IH]; simpl; lia. Qed.

(** Among snapshots with distinct ids, one owns a given row. *)
Lemma owners_of_row (x : Z) (snaps : list Snapshot) :
  NoDup (map s_id snaps) -> x ∈ map s_id snaps ->
  Sql.sum (map (fun s => if x =? s_id s then 1 else 0) snaps) = 1.
Proof.
  induction snaps as [|s snaps IH]; simpl; [by intros _ ?%elem_of_nil|].
  intros [Hnew Hnd]%NoDup_cons Hin. unfold Sql.sum in *. simpl.
  destruct (Z.eqb_spec x (s_id s)) as [->|Hne].
  - assert (foldr Z.add 0 (map (fun s0 => if s_id s =? s_id s0 then 1 else 0) snaps) = 0)
      as ->; [|lia].
    clear IH Hin Hnd. induction snaps as [|s' snaps IH]; simpl; [done|].
    apply not_elem_of_cons in Hnew as [Hne Hnew].
    destruct (Z.eqb_spec (s_id s) (s_id s')) as [|_]; [done|]. rewrite IH by done. lia.
  - apply elem_of_cons in Hin as [|Hin]; [done|]. rewrite IH by done. lia.
Qed.

(** Every row is counted for one snapshot. *)
Lemma rows_by_owner (snaps : list Snapshot) (data : list SnapshotRecord) :
  NoDup (map s_id snaps) ->
  Forall (fun r => sd_snapshot_id r ∈ map s_id snaps) data ->
  Sql.sum (map (fun s => Z.of_nat (length (List.filter
                            (fun r => sd_snapshot_id r =? s_id s) data))) snaps)
  = Z.of_nat (length data).
Proof.
  intros Hnd. induction data as [|r data IH]; intros Hown.
  - simpl. apply sum_map_zero.
  - inversion Hown as [|? ? Hr Hrest]; subst.
    cbn [length]. rewrite Nat2Z.inj_succ, <- Z.add_1_l, <- IH by done.
    rewrite <- (owners_of_row (sd_snapshot_id r) snaps Hnd Hr).
    rewrite <- sum_map_add. f_equal. apply map_ext. intros s. simpl.
    destruct (sd_snapshot_id r =? s_id s); simpl; lia.
Qed.

Lemma newest_first_total a b :
  Stmt.newest_first a b = false -> Stmt.newest_first b a = true.
Proof. unfold Stmt.newest_first. rewrite Z.leb_gt, Z.leb_le. lia. Qed.

Lemma newest_first_trans a b c :
  Stmt.newest_first a b = true -> Stmt.newest_first b c = true ->
  Stmt.newest_first a c = true.
Proof. unfold Stmt.newest_first. rewrite !Z.leb_le. lia. Qed.

Lemma StronglySorted_weaken {X} (R R' : X -> X -> Prop) (l : list X) :
  (forall a b, R a b -> R' a b) -> StronglySorted R l -> StronglySorted R' l.
Proof.
  intros HR. induction 1 as [|x l Hl IH Hx]; constructor; [done|].
  eapply Forall_impl; [exact Hx|]. auto.
Qed.

(** X7.  The listing ([GET /api/snapshots]) of a well-formed database,
    without storage error: one entry per snapshot, the entries in the
    order of descending [created_at]; each [record_count] is the number of
    [snapshot_data] rows of its snapshot, and the counts add up to the
    size of [snapshot_data] -- no row is counted twice or left out. *)
Theorem listing_counts_every_row (w : World) :
  quiet w -> wf_db (store w) ->
  wp (get_snapshots_route None)
     (fun r w' =>
        exists listing,
          r = Returned (GetList listing) /\
          Permutation (map sl_snapshot listing) (snapshots (store w)) /\
          StronglySorted (fun a b => s_created_at b <= s_created_at a)
                         (map sl_snapshot listing) /\
          (forall e, e ∈ listing ->
             sl_record_count e
             = Z.of_nat (length (List.filter
                           (fun r => sd_snapshot_id r =? s_id (sl_snapshot e))
                           (snapshot_data (store w))))) /\
          Sql.sum (map sl_record_count listing)
          = Z.of_nat (length (snapshot_data (store w)))) w.
Proof.
  intros Hq (_ & Hid & _ & _ & Hown & _).
  unfold wp. rewrite get_snapshots_route_quiet_reply by done.
  exists (Query.select_listing (store w)). split; [done|].
  unfold Query.select_listing, Query.of_snapshot.
  rewrite !map_map. cbn [sl_snapshot sl_record_count].
  rewrite map_id.
  split; [apply order_by_perm|]. split; [|split].
  - eapply StronglySorted_weaken; [|apply (order_by_sorted Stmt.newest_first)].
    + intros a b Hab. unfold Stmt.newest_first in Hab. by apply Z.leb_le.
    + apply newest_first_total.
    + apply newest_first_trans.
  - by intros e (s & -> & _)%list_elem_of_fmap.
  - rewrite <- (rows_by_owner (snapshots (store w)) (snapshot_data (store w)) Hid Hown).
    apply sum_perm, Permutation_map, order_by_perm.
Qed.

Lemma listing_counts_every_row_witness :
  wp (get_snapshots_route None)
     (fun r w' =>
        exists listing,
          r = Returned (GetList listing) /\
          Permutation (map sl_snapshot listing) (snapshots (store (Conn.open sample_three []))) /\
          StronglySorted (fun a b => s_created_at b <= s_created_at a)
                         (map sl_snapshot listing) /\
          (forall e, e ∈ listing ->
             sl_record_count e
             = Z.of_nat (length (List.filter
                           (fun r => sd_snapshot_id r =? s_id (sl_snapshot e))
                           (snapshot_data (store (Conn.open sample_three [])))))) /\
          Sql.sum (map sl_record_count listing)
          = Z.of_nat (length (snapshot_data (store (Conn.open sample_three [])))))
     (Conn.open sample_three []).
Proof.
  apply (listing_counts_every_row (Conn.open sample_three [])).
  - reflexivity.
  - apply (bool_decide_unpack _). vm_compute. reflexivity.
Defined.

(** The sample database lists its snapshots 3, 2, 1, three rows each. *)
Example listing_of_sample_three :
  match (get_snapshots_route None (Conn.open sample_three [])).1 with
  | Returned (GetList listing) =>
      map (fun e => (s_id (sl_snapshot e), sl_record_count e)) listing
      = [(3, 3); (2, 3); (1, 3)]
  | _ => False
  end.
Proof. vm_compute. reflexivity. Qed.

(** ** Deleting a snapshot that is not there *)

Lemma select_snapshot_id_absent id d :
  id ∉ map s_id (snapshots d) -> Stmt.select_snapshot_id id d = None.
Proof.
  intros Hno. destruct (Stmt.select_snapshot_id id d) as [x|] eqn:Hsel; [|done].
  destruct Hno. by eapply select_snapshot_id_in.
Qed.

(** X8.  [DELETE /api/snapshots/:id] for an id that no snapshot has makes
    one call, the lookup, and stops: it opens no transaction and changes
    nothing, and answers 404 -- or 500 when the lookup meets a storage
    error.  This holds in every state of the connection. *)
Theorem delete_unknown_snapshot (id : Z) (w : World) :
  id ∉ map s_id (snapshots (store w)) ->
  wp (delete_snapshot_route id)
     (fun r w' =>
        r = Returned (if Conn.faulty w then DeleteFailed else DeleteNotFound) /\
        store w' = store w /\ txn w' = txn w /\ trace w' = trace w /\
        issued w' = S (issued w)) w.
Proof.
  intros Hno. unfold delete_snapshot_route.
  apply wp_try, wp_bind, wp_query.
  - intros ->. apply wp_ret. by autorewrite with conn.
  - intros ->. autorewrite with conn.
    rewrite (select_snapshot_id_absent id (store w) Hno).
    apply wp_ret. by autorewrite with conn.
Qed.

Lemma delete_unknown_snapshot_witness :
  wp (delete_snapshot_route 7)
     (fun r w' =>
        r = Returned (if Conn.faulty (Conn.open sample_three [])
                      then DeleteFailed else DeleteNotFound) /\
        store w' = store (Conn.open sample_three []) /\
        txn w' = txn (Conn.open sample_three []) /\
        trace w' = trace (Conn.open sample_three []) /\
        issued w' = S (issued (Conn.open sample_three [])))
     (Conn.open sample_three []).
Proof.
  apply (delete_unknown_snapshot 7 (Conn.open sample_three [])).
  vm_compute. intros Hin. repeat (apply elem_of_cons in Hin as [Hin|Hin]; [discriminate|]).
  by apply elem_of_nil in Hin.
Defined.

(** ** Deleting one snapshot among others *)

(** The delete route for a snapshot that exists, without storage error:
    what is left in each table. *)
Lemma delete_snapshot_route_tables id w :
  txn w = None -> quiet w -> wf_db (store w) ->
  id ∈ map s_id (snapshots (store w)) ->
  wp (delete_snapshot_route id)
     (fun r w' =>
        r = Returned (DeleteOk (is_max_id id (Sql.max_opt (map s_id (snapshots (store w)))))) /\
        channel_activity (store w') = channel_activity (store w) /\
        snapshots (store w') =
          List.filter (fun s => negb (s_id s =? id)) (snapshots (store w)) /\
        snapshot_data (store w') =
          List.filter (fun r => negb (sd_snapshot_id r =? id)) (snapshot_data (store w)) /\
        sqlite_sequence (store w') =
          (if is_max_id id (Sql.max_opt (map s_id (snapshots (store w))))
           then Some (default 0 (Sql.max_opt
                        (List.filter (fun x => negb (x =? id))
                                     (map s_id (snapshots (store w))))))
           else sqlite_sequence (store w)) /\
        wf_db (store w') /\ txn w' = None /\ quiet w' /\ trace w' = trace w) w.
Proof.
  intros Htxn Hquiet Hwf Hin.
  destruct (snapshot_deleted_wf id (store w) Hwf Hin)
    as (d' & Hdel & Hact & Hsn & Hdata & Hseq & _).
  eapply wp_mono; [apply (delete_snapshot_route_succeeds id w Htxn Hquiet Hwf Hin)|].
  cbv beta. intros r w' (-> & Hr & Hrest).
  rewrite Hdel in Hr. injection Hr as Hd. subst d'.
  destruct Hrest as (Hwf' & Ht & Hq & Htr). auto 10.
Qed.






(** ** A snapshot taken and deleted again *)

Lemma max_opt_snoc l x :
  (forall y, y ∈ l -> y < x) -> Sql.max_opt (l ++ [x]) = Some x.
Proof.
  intros Hlt.
  destruct (max_opt_upper (l ++ [x]) x) as (m & Hm & Hle);
    [apply elem_of_app; right; apply list_elem_of_singleton; done|].
  rewrite Hm. f_equal.
  apply max_opt_elem, elem_of_app in Hm as [Hm|Hm%list_elem_of_singleton]; [|done].
  specialize (Hlt m Hm). lia.
Qed.

(** X10.  Taking a snapshot and deleting it again through the delete route
    (well-formed database, non-empty activity store, free name, no storage
    error) puts the three tables back exactly as they were.  The new
    snapshot holds the largest id, so the deletion reports a reset of the
    id sequence: the sequence ends at the largest id in the table (zero
    for an empty table), and the next snapshot will receive the id that
    the deleted one had or a smaller one. *)
Theorem create_then_delete_restores_tables (now : Z) (w : World) :
  txn w = None -> quiet w -> wf_db (store w) ->
  channel_activity (store w) <> [] ->
  snapshot_name now ∉ map s_name (snapshots (store w)) ->
  wp (createSnapshot now)
     (fun r1 w1 =>
        exists info, r1 = Returned (Some info) /\
        wp (delete_snapshot_route (info_id info))
           (fun r2 w2 =>
              r2 = Returned (DeleteOk true) /\
              channel_activity (store w2) = channel_activity (store w) /\
              snapshots (store w2) = snapshots (store w) /\
              snapshot_data (store w2) = snapshot_data (store w) /\
              sqlite_sequence (store w2)
              = Some (default 0 (Sql.max_opt (map s_id (snapshots (store w))))) /\
              Stmt.next_id (store w2) <= info_id info) w1) w.
Proof.
  intros Htxn Hquiet Hwf Hne Hfresh.
  eapply wp_mono; [apply (createSnapshot_succeeds now w Htxn Hquiet Hwf Hne Hfresh)|].
  cbv beta. intros r1 w1 (-> & Hst & Hwf1 & Htxn1 & Hquiet1 & _).
  eexists. split; [reflexivity|]. cbn [info_id].
  set (newId := Stmt.next_id (store w)) in *.
  pose proof Hwf as (_ & _ & _ & _ & Hown & _).
  assert (forall y, y ∈ map s_id (snapshots (store w)) -> y < newId) as Habove.
  { intros y (s & -> & Hs)%list_elem_of_fmap. by apply next_id_above. }
  assert (map s_id (snapshots (store w1)) = map s_id (snapshots (store w)) ++ [newId])
    as Hids by (rewrite Hst; simpl; by rewrite map_app).
  assert (newId ∈ map s_id (snapshots (store w1))) as Hin.
  { rewrite Hids. apply elem_of_app. right. by apply list_elem_of_singleton. }
  eapply wp_mono; [apply (delete_snapshot_route_tables newId w1 Htxn1 Hquiet1 Hwf1 Hin)|].
  cbv beta. intros r2 w2 (-> & Hact & Hsn & Hdata & Hseq & _).
  assert (is_max_id newId (Sql.max_opt (map s_id (snapshots (store w1)))) = true) as Hmax.
  { apply is_max_id_true. rewrite Hids. by apply max_opt_snoc. }
  rewrite Hmax in Hseq |- *.
  assert (snapshots (store w2) = snapshots (store w)) as Hsn'.
  { rewrite Hsn, Hst. simpl. rewrite List.filter_app. simpl.
    rewrite Z.eqb_refl. simpl. rewrite app_nil_r. apply filter_all_bool.
    intros s Hs. apply negb_true_iff, Z.eqb_neq.
    pose proof (next_id_above (store w) s Hs). fold newId in H. lia. }
  assert (List.filter (fun x => negb (x =? newId)) (map s_id (snapshots (store w1)))
          = map s_id (snapshots (store w))) as Hleft.
  { rewrite Hids, List.filter_app. simpl. rewrite Z.eqb_refl. simpl.
    rewrite app_nil_r. apply filter_all_bool.
    intros y Hy. apply negb_true_iff, Z.eqb_neq. specialize (Habove y Hy). lia. }
  rewrite Hleft in Hseq.
  split; [done|]. split; [by rewrite Hact, Hst|]. split; [done|].
  split; [|split; [done|]].
  - rewrite Hdata, Hst. simpl. rewrite List.filter_app.
    rewrite (filter_none_bool _ (map _ _)).
    + rewrite app_nil_r. apply filter_all_bool. intros r Hr.
      rewrite Forall_forall in Hown. specialize (Habove _ (Hown r Hr)).
      apply negb_true_iff, Z.eqb_neq. lia.
    + intros r (a & -> & _)%list_elem_of_fmap. simpl. by rewrite Z.eqb_refl.
  - unfold Stmt.next_id at 1. rewrite Hseq, Hsn'. simpl.
    unfold newId, Stmt.next_id. lia.
Qed.

Lemma create_then_delete_restores_tables_witness :
  wp (createSnapshot (sample_instant + 4000))
     (fun r1 w1 =>
        exists info, r1 = Returned (Some info) /\
        wp (delete_snapshot_route (info_id info))
           (fun r2 w2 =>
              r2 = Returned (DeleteOk true) /\
              channel_activity (store w2)
              = channel_activity (store (Conn.open sample_three [])) /\
              snapshots (store w2) = snapshots (store (Conn.open sample_three [])) /\
              snapshot_data (store w2) = snapshot_data (store (Conn.open sample_three [])) /\
              sqlite_sequence (store w2)
              = Some (default 0 (Sql.max_opt
                        (map s_id (snapshots (store (Conn.open sample_three [])))))) /\
              Stmt.next_id (store w2) <= info_id info) w1)
     (Conn.open sample_three []).
Proof.
  apply (create_then_delete_restores_tables (sample_instant + 4000)
           (Conn.open sample_three [])).
  - reflexivity.
  - reflexivity.
  - apply (bool_decide_unpack _). vm_compute. reflexivity.
  - vm_compute. discriminate.
  - apply (bool_decide_unpack _). vm_compute. reflexivity.
Defined.

(** ** Pruning under storage errors *)

(** The ids that [cleanupOldSnapshots] sets out to delete. *)
Lemma pruned_tables keepCount d :
  let ids := Stmt.select_ids_newest_first d in
  let doomed := if Z.of_nat (length ids) <=? keepCount then []
                else Js.slice_from keepCount ids in
  channel_activity (pruned keepCount d) = channel_activity d /\
  sqlite_sequence (pruned keepCount d) = sqlite_sequence d /\
  snapshots (pruned keepCount d) =
    List.filter (fun s => negb (bool_decide (s_id s ∈ doomed))) (snapshots d) /\
  snapshot_data (pruned keepCount d) =
    List.filter (fun r => negb (bool_decide (sd_snapshot_id r ∈ doomed))) (snapshot_data d).
Proof.
  cbv zeta. unfold pruned.
  destruct (Z.of_nat (length (Stmt.select_ids_newest_first d)) <=? keepCount).
  - split; [done|]. split; [done|].
    split; symmetry; apply filter_all_bool; intros x _;
      apply negb_true_iff, bool_decide_eq_false, not_elem_of_nil.
  - apply (delete_all_tables (Js.slice_from keepCount (Stmt.select_ids_newest_first d)) d).
Qed.

(** X11.  [cleanupOldSnapshots] is all or nothing, whatever storage errors
    occur (no transaction open at the call): it never throws and ends
    with the transaction closed; either the database is exactly as before,
    or every snapshot it set out to delete -- those from position
    [keepCount] on in the order of descending [created_at] -- is gone with
    all its rows and nothing else has changed.  A run in which a call met
    a storage error changes nothing.  In no case does it touch the
    activity store or the id sequence, so pruning never frees an id for
    reuse. *)
Theorem cleanup_all_or_nothing (keepCountArg : option Z) (w : World) :
  txn w = None ->
  let keepCount := default 100 keepCountArg in
  let ids := Stmt.select_ids_newest_first (store w) in
  let doomed := if Z.of_nat (length ids) <=? keepCount then []
                else Js.slice_from keepCount ids in
  wp (cleanupOldSnapshots keepCountArg)
     (fun r w' =>
        r = Returned tt /\ txn w' = None /\
        (store w' = store w \/
         snapshots (store w') =
           List.filter (fun s => negb (bool_decide (s_id s ∈ doomed))) (snapshots (store w)) /\
         snapshot_data (store w') =
           List.filter (fun r => negb (bool_decide (sd_snapshot_id r ∈ doomed)))
                       (snapshot_data (store w))) /\
        (met_storage_error w w' -> store w' = store w) /\
        channel_activity (store w') = channel_activity (store w) /\
        sqlite_sequence (store w') = sqlite_sequence (store w)) w.
Proof.
  intros Htxn keepCount ids doomed.
  destruct (pruned_tables keepCount (store w)) as (Hact & Hseq & Hsn & Hdata).
  cbv zeta in Hact, Hseq, Hsn, Hdata. fold ids in Hsn, Hdata. fold doomed in Hsn, Hdata.
  eapply wp_mono; [apply (cleanupOldSnapshots_spec keepCountArg w Htxn)|].
  cbv beta. intros r w' (-> & Ht & _ & _ & Hst & _).
  split; [done|]. split; [done|].
  destruct Hst as [-> | [Hc ->]].
  - auto 10.
  - split; [right; done|]. split; [|done].
    intros Hmet. destruct (calm_no_storage_error _ _ Hc Hmet).
Qed.

Lemma cleanup_all_or_nothing_witness :
  let w := Conn.open sample_five [false; false; false; false; true] in
  let keepCount := default 100 (Some 2) in
  let ids := Stmt.select_ids_newest_first (store w) in
  let doomed := if Z.of_nat (length ids) <=? keepCount then []
                else Js.slice_from keepCount ids in
  wp (cleanupOldSnapshots (Some 2))
     (fun r w' =>
        r = Returned tt /\ txn w' = None /\
        (store w' = store w \/
         snapshots (store w') =
           List.filter (fun s => negb (bool_decide (s_id s ∈ doomed))) (snapshots (store w)) /\
         snapshot_data (store w') =
           List.filter (fun r => negb (bool_decide (sd_snapshot_id r ∈ doomed)))
                       (snapshot_data (store w))) /\
        (met_storage_error w w' -> store w' = store w) /\
        channel_activity (store w') = channel_activity (store w) /\
        sqlite_sequence (store w') = sqlite_sequence (store w)) w.
Proof.
  apply (cleanup_all_or_nothing (Some 2)
           (Conn.open sample_five [false; false; false; false; true])).
  reflexivity.
Defined.

(** Pruning the five sample snapshots down to two deletes three; a storage
    error at the fifth call -- the first snapshot is gone, the second has
    lost its rows -- undoes it all. *)
Example cleanup_rolls_back :
  let w := Conn.open sample_five [false; false; false; false; true] in
  let (r, w') := cleanupOldSnapshots (Some 2) w in
  r = Returned tt /\ store w' = sample_five /\ txn w' = None /\ issued w' = 6%nat.
Proof. vm_compute. auto. Qed.

(** ** A negative keep count *)

Lemma slice_from_negative {X} (k : Z) (l : list X) :
  k < 0 -> Js.slice_from k l = drop (Z.to_nat (Z.max (Z.of_nat (length l) + k) 0)) l.
Proof.
  intros Hk. unfold Js.slice_from. apply Z.ltb_lt in Hk. by rewrite Hk.
Qed.

(** X12.  A negative keep count [-k] does not keep [k] snapshots nor all
    of them: [slice] then counts from the end of the list, so
    [cleanupOldSnapshots] deletes the [k] oldest snapshots (all of them
    when there are at most [k]) with their rows, and leaves the
    [n - k] newest.  (Snapshots with distinct ids, no storage error.) *)
Theorem cleanup_negative_keep_count (keepCount : Z) (w : World) :
  txn w = None -> quiet w ->
  NoDup (map s_id (snapshots (store w))) ->
  keepCount < 0 ->
  let n := Z.of_nat (length (snapshots (store w))) in
  let newest := Sql.order_by Stmt.newest_first (snapshots (store w)) in
  let left := Z.to_nat (Z.max (n + keepCount) 0) in
  wp (cleanupOldSnapshots (Some keepCount))
     (fun r w' =>
        r = Returned tt /\
        Permutation (snapshots (store w')) (take left newest) /\
        snapshots (store w') =
          List.filter (fun s => negb (bool_decide (s_id s ∈ map s_id (drop left newest))))
                      (snapshots (store w)) /\
        snapshot_data (store w') =
          List.filter (fun r => negb (bool_decide
                                        (sd_snapshot_id r ∈ map s_id (drop left newest))))
                      (snapshot_data (store w)) /\
        Z.of_nat (length (snapshots (store w'))) = Z.max (n + keepCount) 0 /\
        Z.of_nat (length (drop left newest)) = Z.min n (- keepCount) /\
        (forall k x, k ∈ take left newest -> x ∈ drop left newest ->
                     s_created_at x <= s_created_at k)) w.
Proof.
  intros Htxn Hquiet Hnd Hneg n newest left.
  eapply wp_mono; [apply (cleanupOldSnapshots_spec (Some keepCount) w Htxn)|].
  cbv beta. intros r w' (-> & _ & _ & _ & _ & Hst). specialize (Hst Hquiet).
  split; [done|]. simpl in Hst. rewrite Hst. clear Hst.
  unfold pruned, Stmt.select_ids_newest_first.
  rewrite length_map, order_by_length. fold n.
  assert ((n <=? keepCount) = false) as -> by (apply Z.leb_gt; unfold n; lia).
  rewrite slice_from_negative, length_map, order_by_length by done.
  fold n. fold left. rewrite skipn_map. fold newest.
  destruct (delete_all_tables (map s_id (drop left newest)) (store w))
    as (_ & _ & Hsn & Hdata).
  cbv zeta in Hsn, Hdata.
  assert (Permutation
            (snapshots (foldl (fun d' id => delete_one id d') (store w)
                              (map s_id (drop left newest))))
            (take left newest)) as Hperm.
  { rewrite Hsn. apply filter_ids_take_drop; [done|apply order_by_perm]. }
  assert (length newest = length (snapshots (store w))) as Hlen by apply order_by_length.
  split; [done|]. split; [done|]. split; [done|]. split; [|split].
  - rewrite (Permutation_length Hperm), length_take. lia.
  - rewrite length_drop. lia.
  - intros k x. apply newest_first_sorted.
Qed.

Lemma cleanup_negative_keep_count_witness :
  let w := Conn.open sample_five [] in
  let n := Z.of_nat (length (snapshots (store w))) in
  let newest := Sql.order_by Stmt.newest_first (snapshots (store w)) in
  let left := Z.to_nat (Z.max (n + -2) 0) in
  wp (cleanupOldSnapshots (Some (-2)))
     (fun r w' =>
        r = Returned tt /\
        Permutation (snapshots (store w')) (take left newest) /\
        snapshots (store w') =
          List.filter (fun s => negb (bool_decide (s_id s ∈ map s_id (drop left newest))))
                      (snapshots (store w)) /\
        snapshot_data (store w') =
          List.filter (fun r => negb (bool_decide
                                        (sd_snapshot_id r ∈ map s_id (drop left newest))))
                      (snapshot_data (store w)) /\
        Z.of_nat (length (snapshots (store w'))) = Z.max (n + -2) 0 /\
        Z.of_nat (length (drop left newest)) = Z.min n (- -2) /\
        (forall k x, k ∈ take left newest -> x ∈ drop left newest ->
                     s_created_at x <= s_created_at k)) w.
Proof.
  apply (cleanup_negative_keep_count (-2) (Conn.open sample_five [])).
  - reflexivity.
  - reflexivity.
  - apply (bool_decide_unpack _). vm_compute. reflexivity.
  - lia.
Defined.

(** With the keep count -2 the two oldest of the five sample snapshots go. *)
Example cleanup_five_keep_minus_two :
  map s_id (snapshots (db_after (cleanupOldSnapshots (Some (-2))) sample_five)) = [3; 4; 5].
Proof. vm_compute. reflexivity. Qed.

(** ** Start-up when the query for the last snapshot fails *)

(** X13.  When the first call of the start-up task -- the query for the
    newest [created_at] -- meets a storage error, [getLastSnapshotTime]
    swallows it and answers [null], and the scheduler goes on as if the
    table were empty, however recent the last snapshot is: it takes a
    snapshot and prunes at once, and arms its timer with delay 0.  With
    no transaction open and no further storage error the tables are then
    those of a firing: on a well-formed database with a non-empty activity
    store and a free name the snapshot of the instant is added, and the
    100 newest are kept. *)
Theorem startup_query_failure_snapshots_at_once (now : Z) (w : World) :
  Conn.faulty w = true ->
  wp (setupAutomaticSnapshots now)
     (fun r w' =>
        r = Returned tt /\
        trace w' = trace w ++ [CalledCreate now; CalledCleanup 100; ArmedTimeout 0] /\
        txn w' = txn w /\
        (txn w = None -> tl (faults w) = [] ->
         store w' = pruned 100 (snapshot_or_same now (store w)) /\
         (wf_db (store w) -> channel_activity (store w) <> [] ->
          snapshot_name now ∉ map s_name (snapshots (store w)) ->
          snapshots (snapshot_or_same now (store w))
          = snapshots (store w) ++
              [ {| s_id := Stmt.next_id (store w); s_name := snapshot_name now;
                   s_created_at := Sql.current_timestamp now |} ] /\
          Z.of_nat (length (snapshots (store w')))
          = Z.min (Z.of_nat (length (snapshots (store w))) + 1) 100))) w.
Proof.
  intros Hfault.
  assert (wp (setupAutomaticSnapshots now)
            (fun r w' =>
               r = Returned tt /\
               trace w' = trace w ++
                 [CalledCreate now; CalledCleanup 100; ArmedTimeout 0] /\
               txn w' = txn w) w) as Hlog.
  { unfold setupAutomaticSnapshots, getLastSnapshotTime.
    apply wp_bind, wp_try, wp_bind, wp_query; [|by rewrite Hfault].
    intros _. apply wp_ret. cbv beta iota.
    apply wp_bind, wp_bind.
    eapply wp_mono; [apply createSnapshot_trace|].
    cbv beta. intros r w1 ((res & ->) & Htr1 & Ht1).
    apply wp_bind.
    eapply wp_mono; [apply cleanupOldSnapshots_trace|].
    cbv beta. intros r w2 (-> & Htr2 & Ht2).
    apply wp_ret, wp_note. split; [done|].
    autorewrite with conn in *. rewrite Htr2, Htr1, Ht2, Ht1, <- !app_assoc. done. }
  unfold wp in Hlog |- *. destruct Hlog as (Hr & Htr & Ht).
  split; [done|]. split; [done|]. split; [done|].
  intros Htxn Hrest.
  pose proof (setup_first_run now w Htxn Hrest (or_introl Hfault)) as Hrun.
  unfold wp in Hrun. destruct Hrun as (_ & Hst & _).
  split; [done|]. intros Hwf Hact Hfresh.
  pose proof (snapshot_or_same_taken now (store w) Hwf Hact Hfresh) as Htaken.
  split; [by rewrite Htaken|].
  rewrite Hst. unfold fired.
  rewrite pruned_length; [|by apply snapshot_or_same_wf|lia].
  rewrite Htaken. simpl. rewrite length_app. simpl. lia.
Qed.

(** The table of 100 snapshots, five seconds after the last was taken:
    the failed query makes the start-up task take the 101st and delete
    the oldest. *)
Lemma startup_query_failure_snapshots_at_once_witness :
  wp (setupAutomaticSnapshots (sample_instant + 14400000 * 100 + 5000))
     (fun r w' =>
        r = Returned tt /\
        trace w' = [CalledCreate (sample_instant + 14400000 * 100 + 5000);
                    CalledCleanup 100; ArmedTimeout 0] /\
        length (snapshots (store w')) = 100%nat /\
        head (map s_id (snapshots (store w'))) = Some 2 /\
        last (map s_id (snapshots (store w'))) = Some 101)
     (Conn.open sample_hundred [true]).
Proof.
  eapply wp_mono.
  - apply (startup_query_failure_snapshots_at_once
             (sample_instant + 14400000 * 100 + 5000) (Conn.open sample_hundred [true])).
    reflexivity.
  - cbv beta. intros r w' (-> & Htr & _ & Hstore).
    split; [done|]. split; [exact Htr|].
    destruct (Hstore eq_refl eq_refl) as [-> _]. vm_compute. repeat split.
Defined.

(** Less than two seconds after the third sample snapshot: without the
    storage error the task waits (close to five hours); with it, a fourth
    snapshot is taken on the spot. *)
Example startup_with_and_without_error :
  let now := sample_instant + 4000 in
  (let (_, w') := setupAutomaticSnapshots now (Conn.open sample_three []) in
   trace w' = [ArmedTimeout 17998322] /\ length (snapshots (store w')) = 3%nat) /\
  (let (_, w') := setupAutomaticSnapshots now (Conn.open sample_three [true]) in
   trace w' = [CalledCreate now; CalledCleanup 100; ArmedTimeout 0] /\
   length (snapshots (store w')) = 4%nat).
Proof. vm_compute. auto. Qed.

(** ** The statistics queries *)

Lemma foldr_max_init a b l : foldr Z.max (Z.max a b) l = Z.max b (foldr Z.max a l).
Proof. induction l as [|x l IH]; simpl; lia. Qed.

(** The row that [MAX(last_message)] points at is a row of the group and
    has the greatest [last_message]. *)
Lemma latest_spec rest : forall r,
  Report.latest r rest ∈ r :: rest /\
  ca_last_message (Report.latest r rest)
  = foldr Z.max (ca_last_message r) (map ca_last_message rest).
Proof.
  induction rest as [|r' rest IH]; intros r; simpl.
  - split; [apply list_elem_of_singleton; done|done].
  - destruct (IH (if ca_last_message r <? ca_last_message r' then r' else r)) as [Hin Hmax].
    split.
    + apply elem_of_cons in Hin as [-> | Hin].
      * destruct (ca_last_message r <? ca_last_message r').
        -- apply elem_of_cons. right. apply elem_of_cons. by left.
        -- apply elem_of_cons. by left.
      * apply elem_of_cons. right. apply elem_of_cons. by right.
    + rewrite Hmax, <- foldr_max_init. f_equal.
      destruct (Z.ltb_spec (ca_last_message r) (ca_last_message r')); lia.
Qed.

Lemma aggregate_spec user group g :
  Report.aggregate user group = Some g ->
  us_user_id g = user /\
  us_total_messages g = Sql.sum (map ca_message_count group) /\
  (exists row, row ∈ group /\ ca_last_message row = us_last_seen g /\
               ca_username row = us_username g /\ ca_roles row = us_roles g) /\
  (forall row, row ∈ group -> ca_last_message row <= us_last_seen g).
Proof.
  destruct group as [|r rest]; [done|]. intros [= <-]. cbn [us_user_id us_total_messages
    us_last_seen us_username us_roles].
  destruct (latest_spec rest r) as [Hin Hmax].
  split; [done|]. split; [done|]. split.
  - exists (Report.latest r rest). auto.
  - intros row [-> | Hrow]%elem_of_cons.
    + apply foldr_max_ge.
    + apply foldr_max_elem, list_elem_of_fmap. eauto.
Qed.

(** The groups of [GROUP BY user_id]: one per user with a row. *)
Lemma user_groups (rows : list ActivityRecord) (users : list string) :
  (forall u, u ∈ users -> u ∈ map ca_user_id rows) ->
  map us_user_id
      (omap (fun user =>
               Report.aggregate user
                 (List.filter (fun r => String.eqb (ca_user_id r) user) rows)) users)
  = users.
Proof.
  set (f := fun user => Report.aggregate user _).
  induction users as [|u users IH]; intros Hin; [done|].
  change (omap f (u :: users))
    with (match f u with Some g => g :: omap f users | None => omap f users end).
  destruct (f u) as [g|] eqn:Hg; unfold f in Hg.
  - cbn [map]. rewrite IH by (intros; apply Hin, elem_of_cons; right; done).
    by destruct (aggregate_spec _ _ _ Hg) as (-> & _).
  - exfalso.
    assert (u ∈ map ca_user_id rows) as Hu by (apply Hin, elem_of_cons; left; done).
    apply list_elem_of_fmap in Hu as (r & Hu & Hr).
    assert (r ∈ List.filter (fun r => String.eqb (ca_user_id r) u) rows) as Hr'.
    { apply elem_of_filter_bool. split; [done|]. rewrite Hu. apply String.eqb_refl. }
    destruct (List.filter _ rows); [by apply elem_of_nil in Hr'|discriminate].
Qed.

Lemma most_active_first_total a b :
  Report.most_active_first a b = false -> Report.most_active_first b a = true.
Proof. unfold Report.most_active_first. rewrite Z.leb_gt, Z.leb_le. lia. Qed.

Lemma most_active_first_trans a b c :
  Report.most_active_first a b = true -> Report.most_active_first b c = true ->
  Report.most_active_first a c = true.
Proof. unfold Report.most_active_first. rewrite !Z.leb_le. lia. Qed.

Lemma busiest_first_total a b :
  Report.busiest_first a b = false -> Report.busiest_first b a = true.
Proof. unfold Report.busiest_first. rewrite Z.leb_gt, Z.leb_le. lia. Qed.

Lemma busiest_first_trans a b c :
  Report.busiest_first a b = true -> Report.busiest_first b c = true ->
  Report.busiest_first a c = true.
Proof. unfold Report.busiest_first. rewrite !Z.leb_le. lia. Qed.

Lemma StronglySorted_prefix {X} (R : X -> X -> Prop) (l1 l2 : list X) :
  StronglySorted R (l1 ++ l2) -> StronglySorted R l1.
Proof.
  induction l1 as [|x l1 IH]; simpl; [constructor|].
  intros Hs. inversion Hs as [|? ? Hl Hx]; subst. constructor; [auto|].
  apply Forall_app in Hx. tauto.
Qed.

Lemma StronglySorted_fmap {X Y} (f : X -> Y) (R : Y -> Y -> Prop) (l : list X) :
  StronglySorted (fun a b => R (f a) (f b)) l -> StronglySorted R (map f l).
Proof.
  induction 1 as [|x l Hl IH Hx]; simpl; constructor; [done|].
  apply Forall_forall. intros y (x' & -> & Hx')%list_elem_of_fmap.
  rewrite Forall_forall in Hx. auto.
Qed.

Lemma limit_prefix {X} (n : Z) (l : list X) :
  exists rest, l = Report.limit n l ++ rest /\
    (rest <> [] -> 0 <= n /\ Z.of_nat (length (Report.limit n l)) = n).
Proof.
  unfold Report.limit. destruct (Z.ltb_spec n 0) as [Hneg|Hpos].
  - exists []. by rewrite app_nil_r.
  - exists (drop (Z.to_nat n) l). split; [by rewrite take_drop|].
    intros Hrest. split; [done|]. rewrite length_take.
    destruct (Nat.le_gt_cases (length l) (Z.to_nat n)) as [Hle|Hgt]; [|lia].
    by rewrite drop_ge in Hrest.
Qed.

(** What the statistics query yields on the tables [d]. *)
Lemma select_user_stats_spec (n : Z) (d : DB) :
  let users := Report.select_user_stats n d in
  NoDup (map us_user_id users) /\
  (0 <= n -> Z.of_nat (length users) <= n) /\
  StronglySorted (fun a b => us_total_messages b <= us_total_messages a) users /\
  (forall u, u ∈ users ->
     us_total_messages u
     = Sql.sum (map ca_message_count (activity_of_user (us_user_id u) d)) /\
     (exists row, row ∈ activity_of_user (us_user_id u) d /\
                  ca_last_message row = us_last_seen u /\
                  ca_username row = us_username u /\ ca_roles row = us_roles u) /\
     (forall row, row ∈ activity_of_user (us_user_id u) d ->
                  ca_last_message row <= us_last_seen u)) /\
  (forall user, user ∈ map ca_user_id (channel_activity d) ->
     user ∈ map us_user_id users \/
     0 <= n /\ Z.of_nat (length users) = n /\
     forall u, u ∈ users ->
       Sql.sum (map ca_message_count (activity_of_user user d)) <= us_total_messages u).
Proof.
  cbv zeta. unfold Report.select_user_stats.
  set (rows := Sql.order_by Report.by_user (channel_activity d)).
  set (groups := omap _ _).
  set (sorted := Sql.order_by Report.most_active_first groups).
  assert (Permutation rows (channel_activity d)) as Hrows by apply order_by_perm.
  assert (Permutation sorted groups) as Hsorted by apply order_by_perm.
  destruct (distinct_spec (map ca_user_id rows)) as [Hnd Hdist].
  assert (map us_user_id groups = Query.distinct (map ca_user_id rows)) as Hids.
  { apply user_groups. intros u. apply Hdist. }
  assert (forall user, Permutation
            (List.filter (fun r => String.eqb (ca_user_id r) user) rows)
            (activity_of_user user d)) as Hgroup
    by (intros user; apply filter_perm_bool, Hrows).
  assert (forall u, u ∈ groups ->
     us_total_messages u
     = Sql.sum (map ca_message_count (activity_of_user (us_user_id u) d)) /\
     (exists row, row ∈ activity_of_user (us_user_id u) d /\
                  ca_last_message row = us_last_seen u /\
                  ca_username row = us_username u /\ ca_roles row = us_roles u) /\
     (forall row, row ∈ activity_of_user (us_user_id u) d ->
                  ca_last_message row <= us_last_seen u)) as Hrowsof.
  { intros u (user & _ & Hagg)%list_elem_of_omap.
    destruct (aggregate_spec _ _ _ Hagg) as (Hu & Htot & (row & Hrow & Hlatest) & Hmax).
    rewrite <- Hu in Htot, Hrow, Hmax.
    split; [|split].
    - rewrite Htot. apply sum_perm, Permutation_map, Hgroup.
    - exists row. split; [|done]. by rewrite <- (Hgroup (us_user_id u)).
    - intros row' Hrow'. apply Hmax. by rewrite (Hgroup (us_user_id u)). }
  assert (StronglySorted (fun a b => Report.most_active_first a b = true) sorted) as Hord.
  { apply order_by_sorted; [apply most_active_first_total|apply most_active_first_trans]. }
  destruct (limit_prefix n sorted) as (rest & Hsplit & Hfull).
  set (users := Report.limit n sorted) in *.
  assert (forall u, u ∈ users -> u ∈ groups) as Hsub.
  { intros u Hu. rewrite <- Hsorted, Hsplit. apply elem_of_app. by left. }
  split; [|split; [|split; [|split]]].
  - assert (NoDup (map us_user_id sorted)) as Hnds.
    { rewrite (Permutation_map us_user_id Hsorted), Hids. exact Hnd. }
    rewrite Hsplit, map_app in Hnds. by apply NoDup_app in Hnds as [? _].
  - intros Hn. unfold users, Report.limit.
    destruct (Z.ltb_spec n 0); [lia|]. rewrite length_take. lia.
  - rewrite Hsplit in Hord. apply StronglySorted_prefix in Hord.
    eapply StronglySorted_weaken; [|exact Hord].
    intros a b Hab. unfold Report.most_active_first in Hab. by apply Z.leb_le.
  - intros u Hu. apply Hrowsof, Hsub, Hu.
  - intros user Huser.
    assert (user ∈ map us_user_id sorted) as Hlisted.
    { rewrite (Permutation_map us_user_id Hsorted), Hids. apply Hdist.
      by rewrite (Permutation_map ca_user_id Hrows). }
    rewrite Hsplit, map_app in Hlisted. apply elem_of_app in Hlisted as [Hin|Hout].
    + by left.
    + right. apply list_elem_of_fmap in Hout as (b & -> & Hb).
      destruct Hfull as [Hn Hlen]; [by intros ->; apply elem_of_nil in Hb|].
      split; [done|]. split; [done|].
      intros u Hu.
      assert (Report.most_active_first u b = true) as Hub.
      { apply (sorted_app_ordered Report.most_active_first users rest); [|done|done].
        by rewrite <- Hsplit. }
      unfold Report.most_active_first in Hub. apply Z.leb_le in Hub.
      destruct (Hrowsof b) as (<- & _); [|done].
      rewrite <- Hsorted, Hsplit. apply elem_of_app. by right.
Qed.

(** X14.  [getRoleUserStats] only reads and never throws; a storage error
    gives the empty list.  Otherwise it lists users with activity, no user
    twice, in the order of descending totals, at most [limit] of them (20
    when the argument is left out; a negative limit is none).  For each
    user listed, [total_messages] is the sum of the user's counts over the
    user's rows, [last_seen] is the latest [last_message] among them, and
    [username] and [roles] are those of a row with that latest time.  A
    user with activity is left out only when the list is full, and then
    every user listed has at least as many messages. *)
Theorem getRoleUserStats_lists_most_active (limitArg : option Z) (w : World) :
  wp (getRoleUserStats limitArg)
     (fun r w' =>
        let limit := default 20 limitArg in
        let d := store w in
        store w' = store w /\ txn w' = txn w /\
        exists users,
          r = Returned users /\
          (Conn.faulty w = true -> users = []) /\
          NoDup (map us_user_id users) /\
          (0 <= limit -> Z.of_nat (length users) <= limit) /\
          StronglySorted (fun a b => us_total_messages b <= us_total_messages a) users /\
          (forall u, u ∈ users ->
             us_total_messages u
             = Sql.sum (map ca_message_count (activity_of_user (us_user_id u) d)) /\
             (exists row, row ∈ activity_of_user (us_user_id u) d /\
                          ca_last_message row = us_last_seen u /\
                          ca_username row = us_username u /\ ca_roles row = us_roles u) /\
             (forall row, row ∈ activity_of_user (us_user_id u) d ->
                          ca_last_message row <= us_last_seen u)) /\
          (Conn.faulty w = false ->
           forall user, user ∈ map ca_user_id (channel_activity d) ->
             user ∈ map us_user_id users \/
             0 <= limit /\ Z.of_nat (length users) = limit /\
             forall u, u ∈ users ->
               Sql.sum (map ca_message_count (activity_of_user user d))
               <= us_total_messages u)) w.
Proof.
  unfold getRoleUserStats. apply wp_try, wp_bind, wp_query.
  - intros Hf. apply wp_ret. cbv zeta. autorewrite with conn.
    split; [done|]. split; [done|]. exists []. simpl.
    split; [done|]. split; [done|]. split; [apply NoDup_nil; done|].
    split; [lia|]. split; [constructor|]. split; [by intros u ?%elem_of_nil|].
    intros Hf'. congruence.
  - intros Hf. apply wp_ret. cbv zeta. autorewrite with conn.
    split; [done|]. split; [done|].
    destruct (select_user_stats_spec (default 20 limitArg) (store w))
      as (Hnd & Hlen & Hsorted & Hrows & Htop).
    eexists. split; [reflexivity|]. split; [congruence|]. auto 10.
Qed.

(** The two sample members, the more active first; the limit 1 leaves
    the second out; with a storage error the list is empty. *)
Example getRoleUserStats_sample :
  (match (getRoleUserStats None (Conn.open sample_activity [])).1 with
   | Returned users =>
       map (fun u => (us_user_id u, us_username u, us_total_messages u)) users
       = [("11", "ann#3", 3); ("22", "bob#1", 1)]%string
   | _ => False
   end) /\
  (match (getRoleUserStats (Some 1) (Conn.open sample_activity [])).1 with
   | Returned users => map us_user_id users = ["11"]%string
   | _ => False
   end) /\
  (getRoleUserStats None (Conn.open sample_activity [true])).1 = Returned [].
Proof. vm_compute. auto. Qed.

Lemma select_channel_stats_spec (userId : string) (d : DB) :
  let channels := Report.select_channel_stats userId d in
  Permutation channels (map Report.channel_stats (activity_of_user userId d)) /\
  StronglySorted (fun a b => cs_message_count b <= cs_message_count a) channels.
Proof.
  cbv zeta. unfold Report.select_channel_stats. fold (activity_of_user userId d).
  split.
  - apply Permutation_map, order_by_perm.
  - apply (StronglySorted_fmap Report.channel_stats
             (fun a b => cs_message_count b <= cs_message_count a)).
    eapply StronglySorted_weaken;
      [|apply (order_by_sorted Report.busiest_first);
        [apply busiest_first_total|apply busiest_first_trans]].
    intros a b Hab. unfold Report.busiest_first in Hab. simpl. by apply Z.leb_le.
Qed.

(** X15.  [getUserChannelStats] only reads and never throws; a storage
    error gives the empty list, and so does a user without activity.
    Otherwise it yields the user's rows, each once, as
    [{channel_id, channel_name, message_count, last_message}], in the
    order of descending counts; with at most one row per identity in the
    store, no channel occurs twice. *)
Theorem getUserChannelStats_lists_the_users_rows (userId : string) (w : World) :
  wp (getUserChannelStats userId)
     (fun r w' =>
        store w' = store w /\ txn w' = txn w /\
        exists channels,
          r = Returned channels /\
          (Conn.faulty w = true -> channels = []) /\
          (Conn.faulty w = false ->
           Permutation channels
             (map Report.channel_stats (activity_of_user userId (store w)))) /\
          (userId ∉ map ca_user_id (channel_activity (store w)) -> channels = []) /\
          StronglySorted (fun a b => cs_message_count b <= cs_message_count a) channels /\
          (NoDup (map activity_key (channel_activity (store w))) ->
           NoDup (map cs_channel_id channels))) w.
Proof.
  unfold getUserChannelStats. apply wp_try, wp_bind, wp_query.
  - intros Hf. apply wp_ret. autorewrite with conn.
    split; [done|]. split; [done|]. exists [].
    split; [done|]. split; [done|]. split; [congruence|]. split; [done|].
    split; [constructor|]. intros _. apply NoDup_nil. done.
  - intros Hf. apply wp_ret. autorewrite with conn.
    split; [done|]. split; [done|].
    destruct (select_channel_stats_spec userId (store w)) as [Hperm Hsorted].
    eexists. split; [reflexivity|]. split; [congruence|]. split; [done|].
    split; [|split; [done|]].
    + intros Hno. apply Permutation_nil_r. rewrite Hperm.
      unfold activity_of_user. rewrite filter_none_bool; [done|].
      intros row Hrow. apply String.eqb_neq. intros Heq. apply Hno.
      apply list_elem_of_fmap. eauto.
    + intros Hnd. rewrite (Permutation_map cs_channel_id Hperm), map_map. simpl.
      unfold activity_of_user.
      induction (channel_activity (store w)) as [|row rows IH]; simpl;
        [apply NoDup_nil; done|].
      apply NoDup_cons in Hnd as [Hnew Hnd].
      destruct (String.eqb_spec (ca_user_id row) userId) as [Hu|Hu]; [|auto].
      simpl. apply NoDup_cons. split; [|auto].
      intros (row' & Hc & [Hrow' Hu']%elem_of_filter_bool)%list_elem_of_fmap.
      apply Hnew, list_elem_of_fmap. exists row'. split; [|done].
      unfold activity_key. apply String.eqb_eq in Hu'. congruence.
Qed.

(** X16.  The two statistics queries agree: for every user that
    [getRoleUserStats] lists, [getUserChannelStats] yields at least one
    channel, the counts of the user's channels add up to the user's
    [total_messages], and [last_seen] is the latest [last_message] among
    them.  (No storage error.) *)
Theorem channel_stats_add_up_to_user_total (limitArg : option Z) (w : World) :
  quiet w ->
  wp (getRoleUserStats limitArg)
     (fun r1 w1 =>
        exists users, r1 = Returned users /\
        forall u, u ∈ users ->
          wp (getUserChannelStats (us_user_id u))
             (fun r2 _ =>
                exists channels, r2 = Returned channels /\
                  channels <> [] /\
                  Sql.sum (map cs_message_count channels) = us_total_messages u /\
                  (exists c, c ∈ channels /\ cs_last_message c = us_last_seen u) /\
                  (forall c, c ∈ channels -> cs_last_message c <= us_last_seen u)) w1) w.
Proof.
  intros Hq. unfold getRoleUserStats. apply wp_try, wp_bind, wp_query; [intros; no_fault|].
  intros _. apply wp_ret. eexists. split; [reflexivity|].
  intros u Hu.
  destruct (select_user_stats_spec (default 20 limitArg) (store w))
    as (_ & _ & _ & Hrows & _).
  destruct (Hrows u Hu) as (Htot & (row & Hrow & Hseen & _) & Hmax).
  unfold getUserChannelStats. apply wp_try, wp_bind, wp_query; [intros; no_fault|].
  intros _. apply wp_ret. autorewrite with conn.
  destruct (select_channel_stats_spec (us_user_id u) (store w)) as [Hperm _].
  eexists. split; [reflexivity|].
  split; [|split; [|split]].
  - intros Hnil. rewrite Hnil in Hperm. apply Permutation_nil in Hperm.
    apply fmap_nil_inv in Hperm. rewrite Hperm in Hrow. by apply elem_of_nil in Hrow.
  - rewrite (sum_perm _ _ (Permutation_map cs_message_count Hperm)), map_map. by simpl.
  - exists (Report.channel_stats row). split; [|done].
    rewrite Hperm. apply list_elem_of_fmap. eauto.
  - intros c Hc. rewrite Hperm in Hc. apply list_elem_of_fmap in Hc as (row' & -> & Hrow').
    simpl. auto.
Qed.

Lemma channel_stats_add_up_to_user_total_witness :
  wp (getRoleUserStats None)
     (fun r1 w1 =>
        exists users, r1 = Returned users /\
        forall u, u ∈ users ->
          wp (getUserChannelStats (us_user_id u))
             (fun r2 _ =>
                exists channels, r2 = Returned channels /\
                  channels <> [] /\
                  Sql.sum (map cs_message_count channels) = us_total_messages u /\
                  (exists c, c ∈ channels /\ cs_last_message c = us_last_seen u) /\
                  (forall c, c ∈ channels -> cs_last_message c <= us_last_seen u)) w1)
     (Conn.open sample_activity []).
Proof.
  apply (channel_stats_add_up_to_user_total None (Conn.open sample_activity [])).
  reflexivity.
Defined.

(** The channels of the sample member 11, the busier first, and of a
    member that has written nothing. *)
Example getUserChannelStats_sample :
  (match (getUserChannelStats "11" (Conn.open sample_activity [])).1 with
   | Returned channels =>
       map (fun c => (cs_channel_id c, cs_channel_name c, cs_message_count c)) channels
       = [("c1", "lobby", 2); ("c2", "random", 1)]%string
   | _ => False
   end) /\
  (getUserChannelStats "33" (Conn.open sample_activity [])).1 = Returned [].
Proof. vm_compute. auto. Qed.

(** ** The chunks of the bulk insertion *)

(** X17.  A snapshot of [n] activity rows is written in chunks of at most
    1000 rows: the run makes [4 + ceil(n / 1000)] calls on the connection
    ([BEGIN], the insertion into [snapshots], the query, one insertion per
    chunk, [COMMIT]), and the chunks together put the rows of the query
    into [snapshot_data] once each, in the order of the query -- as one
    insertion of all rows would.  (Well-formed database, non-empty
    activity store, free name, no storage error.) *)
Theorem createSnapshot_writes_in_chunks (now : Z) (w : World) :
  txn w = None -> quiet w -> wf_db (store w) ->
  channel_activity (store w) <> [] ->
  snapshot_name now ∉ map s_name (snapshots (store w)) ->
  wp (createSnapshot now)
     (fun r w' =>
        let n := length (channel_activity (store w)) in
        exists info,
          r = Returned (Some info) /\
          info_count info = Z.of_nat n /\
          issued w' = (issued w + 4 + (n + 999) / 1000)%nat /\
          snapshot_data (store w') =
            snapshot_data (store w)
            ++ map (snapshot_row (info_id info)) (Stmt.select_activity (store w)) /\
          Forall (fun i => length (Js.slice i chunkSize (Stmt.select_activity (store w)))
                           <= 1000)%nat
                 (seq 0 n)) w.
Proof.
  intros Htxn Hquiet Hwf Hne Hfresh.
  eapply wp_mono;
    [apply wp_and;
       [apply (createSnapshot_succeeds now w Htxn Hquiet Hwf Hne Hfresh)
       |apply createSnapshot_calls]|].
  cbv beta. intros r w' [(-> & Hst & _) Hcalls]. cbv zeta.
  eexists. split; [reflexivity|]. split; [done|]. split.
  { rewrite Hcalls. unfold chunks_of. change chunkSize with 1000%nat.
    do 2 f_equal. lia. }
  split; [by rewrite Hst|].
  apply Forall_forall. intros i _. unfold Js.slice. rewrite length_take.
  change chunkSize with 1000%nat. lia.
Qed.

Lemma createSnapshot_writes_in_chunks_witness :
  wp (createSnapshot (sample_instant + 4000))
     (fun r w' =>
        let n := length (channel_activity (store (Conn.open sample_three []))) in
        exists info,
          r = Returned (Some info) /\
          info_count info = Z.of_nat n /\
          issued w' = (issued (Conn.open sample_three []) + 4 + (n + 999) / 1000)%nat /\
          snapshot_data (store w') =
            snapshot_data (store (Conn.open sample_three []))
            ++ map (snapshot_row (info_id info))
                   (Stmt.select_activity (store (Conn.open sample_three []))) /\
          Forall (fun i => length (Js.slice i chunkSize
                                     (Stmt.select_activity (store (Conn.open sample_three []))))
                           <= 1000)%nat
                 (seq 0 n))
     (Conn.open sample_three []).
Proof.
  apply (createSnapshot_writes_in_chunks (sample_instant + 4000) (Conn.open sample_three [])).
  - reflexivity.
  - reflexivity.
  - apply (bool_decide_unpack _). vm_compute. reflexivity.
  - vm_compute. discriminate.
  - apply (bool_decide_unpack _). vm_compute. reflexivity.
Defined.

(** 1001 activity rows take two chunks: six calls in all. *)
Example createSnapshot_two_chunks :
  tally (createSnapshot sample_instant (Conn.open (busy_store 1001) []))
  = (Some 1001, 6%nat, 1001%nat).
Proof. vm_compute. reflexivity. Qed.

(** ** A transaction already open on the connection *)

(** X18.  The program has one connection.  A snapshot procedure that is
    called while a transaction is open on it backs off: its [BEGIN] is
    refused, [createSnapshot] resolves to [null], the delete route
    answers 404 or 500, [cleanupOldSnapshots] does nothing -- and none of
    them rolls back or commits the transaction it found: the tables and
    the open transaction are as before.  [processMessage] does not back
    off: the upsert of a message that counts is carried out inside the
    open transaction, which stays open -- the row is there, the sum of the
    counts is one higher -- and it shares the fate of that transaction:
    it is undone when the transaction is rolled back and kept when it is
    committed. *)
Theorem open_transaction_is_left_alone
    (now id : Z) (keepCountArg : option Z) (message : Message) (w : World) (d0 : DB) :
  txn w = Some d0 ->
  wp (createSnapshot now)
     (fun r w' => r = Returned None /\ store w' = store w /\ txn w' = Some d0) w /\
  wp (delete_snapshot_route id)
     (fun r w' =>
        (r = Returned DeleteNotFound \/ r = Returned DeleteFailed) /\
        store w' = store w /\ txn w' = Some d0) w /\
  wp (cleanupOldSnapshots keepCountArg)
     (fun r w' => r = Returned tt /\ store w' = store w /\ txn w' = Some d0) w /\
  wp (_ ← processMessage now message; Conn.rollback)
     (fun r w' => r = Returned tt /\ store w' = d0 /\ txn w' = None) w /\
  wp (processMessage now message)
     (fun r w1 =>
        r = Returned tt /\ txn w1 = Some d0 /\ (quiet w -> quiet w1) /\
        store w1 = (if qualifies message && negb (Conn.faulty w)
                    then upsert_of now message (store w)
                    else store w) /\
        (qualifies message = true -> Conn.faulty w = false ->
         NoDup (map activity_key (channel_activity (store w))) ->
         total_messages (store w1) = total_messages (store w) + 1) /\
        wp Conn.rollback
           (fun r w' => r = Returned tt /\ store w' = d0 /\ txn w' = None) w1 /\
        (Conn.faulty w1 = false ->
         wp Conn.commit
            (fun r w' => r = Returned tt /\ store w' = store w1 /\ txn w' = None) w1)) w.
Proof.
  intros Htxn. split; [|split; [|split; [|split]]].
  - eapply wp_mono; [apply (createSnapshot_in_txn now w d0 Htxn)|].
    cbv beta. intros r w' (-> & -> & -> & _). auto.
  - apply (delete_snapshot_route_in_txn id w d0 Htxn).
  - eapply wp_mono; [apply (cleanupOldSnapshots_in_txn keepCountArg w d0 Htxn)|].
    cbv beta. intros r w' (-> & -> & -> & _). auto.
  - apply wp_bind. eapply wp_mono; [apply processMessage_spec|].
    cbv beta. intros r w' (-> & Ht & _). apply wp_rollback.
    rewrite Ht, Htxn. by autorewrite with conn.
  - unfold wp at 1. rewrite processMessage_run.
    set (w1 := if Conn.faulty w then Conn.tick w
               else Conn.with_store (Conn.tick w) (upsert_of now message (store w))).
    assert (txn w1 = Some d0) as Ht1
      by (unfold w1; destruct (Conn.faulty w); by autorewrite with conn).
    assert (store w1 = if negb (Conn.faulty w)
                       then upsert_of now message (store w) else store w) as Hs1
      by (unfold w1; destruct (Conn.faulty w); by autorewrite with conn).
    assert (forall w2, txn w2 = Some d0 ->
              wp Conn.rollback
                 (fun r w' => r = Returned tt /\ store w' = d0 /\ txn w' = None) w2 /\
              (Conn.faulty w2 = false ->
               wp Conn.commit
                  (fun r w' => r = Returned tt /\ store w' = store w2 /\ txn w' = None)
                  w2)) as Hend.
    { intros w2 Ht2. split.
      - apply wp_rollback. rewrite Ht2. by autorewrite with conn.
      - intros Hf. apply wp_commit; [congruence|].
        intros _. rewrite Ht2. by autorewrite with conn. }
    assert (quiet w -> quiet w1) as Hq1
      by (unfold w1; destruct (Conn.faulty w); auto with conn).
    destruct (qualifies message) eqn:Hcounts; cbn [fst snd andb].
    + split; [done|]. split; [done|]. split; [done|]. split; [done|].
      split; [|by apply Hend].
      intros _ Hf Hnd. rewrite Hs1, Hf. simpl. by apply upsert_total.
    + split; [done|]. split; [done|]. split; [done|]. split; [done|].
      split; [done|]. by apply Hend.
Qed.

(** On the sample database with a transaction open: a message of member 11
    in channel [c1] raises the sum of the counts from 4 to 5 inside the
    transaction; rolled back, the sum is 4 again, committed it stays 5.
    A snapshot called meanwhile resolves to [null]. *)
Lemma open_transaction_is_left_alone_witness :
  let message := prover_message "11" "ann#4" "c1" "general" in
  wp (createSnapshot (sample_instant + 4000))
     (fun r w' => r = Returned None /\ store w' = sample_three) in_transaction /\
  total_messages sample_three = 4 /\
  wp (processMessage (sample_instant + 4000) message)
     (fun r w1 =>
        txn w1 = Some sample_three /\ total_messages (store w1) = 5 /\
        wp Conn.rollback
           (fun r w' => total_messages (store w') = 4 /\ txn w' = None) w1 /\
        wp Conn.commit
           (fun r w' => total_messages (store w') = 5 /\ txn w' = None) w1)
     in_transaction.
Proof.
  destruct (open_transaction_is_left_alone (sample_instant + 4000) 3 (Some 1)
              (prover_message "11" "ann#4" "c1" "general") in_transaction sample_three)
    as (Hcreate & _ & _ & _ & Hmessage).
  - reflexivity.
  - cbv zeta. split; [|split; [vm_compute; reflexivity|]].
    + eapply wp_mono; [exact Hcreate|].
      cbv beta. intros r w' (-> & -> & _). auto.
    + eapply wp_mono; [exact Hmessage|].
      cbv beta. intros r w1 (_ & Ht1 & Hq1 & Hs1 & _ & Hrollback & Hcommit).
      split; [exact Ht1|].
      assert (total_messages (store w1) = 5) as Hfive
        by (rewrite Hs1; vm_compute; reflexivity).
      split; [exact Hfive|]. split.
      * eapply wp_mono; [exact Hrollback|].
        cbv beta. intros r' w' (_ & -> & ->). split; [vm_compute|]; reflexivity.
      * assert (Conn.faulty w1 = false) as Hf.
        { unfold Conn.faulty. by rewrite (Hq1 eq_refl). }
        eapply wp_mono; [exact (Hcommit Hf)|].
        cbv beta. intros r' w' (_ & -> & ->). split; [exact Hfive|reflexivity].
Defined.

(** ** The API key *)

Lemma API_KEY_not_empty env : API_KEY env <> ""%string.
Proof.
  unfold API_KEY. destruct env as [key|]; [|done].
  destruct (String.eqb_spec key ""); done.
Qed.

Lemma apiKeyAuth_iff env providedKey :
  apiKeyAuth (API_KEY env) providedKey = true <-> providedKey = Some (API_KEY env).
Proof.
  unfold apiKeyAuth. destruct providedKey as [key|]; [|done].
  destruct (String.eqb_spec key "") as [->|Hne]; simpl.
  - split; [done|]. intros [= Heq]. by destruct (API_KEY_not_empty env).
  - destruct (String.eqb_spec key (API_KEY env)) as [->|Hne']; simpl; [done|].
    split; [done|]. congruence.
Qed.

(** X19.  The two snapshot routes are behind [apiKeyAuth].  The configured
    key is never empty -- it is ['default-api-key'] when [API_KEY] is not
    set or set to the empty string -- so a request passes exactly when its
    [x-api-key] header is the configured key.  A request that passes is
    answered by the handler of the route; any other request, one without
    the header included, is answered 401 without a single call on the
    connection: the world is as before. *)
Theorem routes_require_the_api_key
    (env providedKey : option string) (id : Z) (snapshotId : option Z) (w : World) :
  API_KEY env <> ""%string /\
  API_KEY None = "default-api-key"%string /\
  API_KEY (Some ""%string) = "default-api-key"%string /\
  (apiKeyAuth (API_KEY env) providedKey = true <-> providedKey = Some (API_KEY env)) /\
  (providedKey <> Some (API_KEY env) ->
   delete_endpoint env providedKey id w = (Returned Unauthorized, w) /\
   get_endpoint env providedKey snapshotId w = (Returned Unauthorized, w)) /\
  (providedKey = Some (API_KEY env) ->
   delete_endpoint env providedKey id w
   = (reply ← delete_snapshot_route id; mret (Handled reply)) w /\
   get_endpoint env providedKey snapshotId w
   = (reply ← get_snapshots_route snapshotId; mret (Handled reply)) w).
Proof.
  split; [apply API_KEY_not_empty|]. split; [done|]. split; [done|].
  split; [apply apiKeyAuth_iff|].
  unfold delete_endpoint, get_endpoint, guarded.
  destruct (apiKeyAuth (API_KEY env) providedKey) eqn:Hauth.
  - apply apiKeyAuth_iff in Hauth. split; [done|]. done.
  - split; [done|]. intros Hkey. apply apiKeyAuth_iff in Hkey. congruence.
Qed.

(** A request with the default key while [API_KEY] is not set deletes
    snapshot 3; with a wrong key, or with the default key while another
    key is configured, nothing happens. *)
Example delete_endpoint_sample :
  let w := Conn.open sample_three [] in
  (let (r, w') := delete_endpoint None (Some "default-api-key"%string) 3 w in
   r = Returned (Handled (DeleteOk true)) /\ map s_id (snapshots (store w')) = [1; 2]) /\
  delete_endpoint None (Some "guess"%string) 3 w = (Returned Unauthorized, w) /\
  delete_endpoint None None 3 w = (Returned Unauthorized, w) /\
  delete_endpoint (Some "s3cret"%string) (Some "default-api-key"%string) 3 w
  = (Returned Unauthorized, w).
Proof. vm_compute. auto. Qed.

(** ** The final snapshot *)



(** ** What every handler keeps *)

Lemma StronglySorted_filter_bool {X} (R : X -> X -> Prop) (p : X -> bool) (l : list X) :
  StronglySorted R l -> StronglySorted R (List.filter p l).
Proof.
  induction 1 as [|x l Hl IH Hx]; simpl; [constructor|].
  destruct (p x); [|done]. constructor; [done|]. by apply Forall_filter_bool.
Qed.

Lemma StronglySorted_snoc {X} (R : X -> X -> Prop) (l : list X) (x : X) :
  StronglySorted R l -> (forall y, y ∈ l -> R y x) -> StronglySorted R (l ++ [x]).
Proof.
  induction 1 as [|y l Hl IH Hy]; simpl; intros Hx.
  - repeat constructor.
  - constructor.
    + apply IH. intros z Hz. apply Hx, elem_of_cons. by right.
    + apply Forall_app. split; [done|].
      constructor; [|constructor]. apply Hx, elem_of_cons. by left.
Qed.

Lemma ids_ascending_filter (p : Z -> bool) d d' :
  snapshots d' = List.filter (fun s => p (s_id s)) (snapshots d) ->
  ids_ascending d -> ids_ascending d'.
Proof.
  unfold ids_ascending. intros ->. rewrite (map_filter_comm s_id p).
  apply StronglySorted_filter_bool.
Qed.

Lemma upsert_in_order now message d : in_order d -> in_order (upsert_of now message d).
Proof.
  intros [Hwf Hasc]. split; [by apply upsert_wf|]. exact Hasc.
Qed.

Lemma snapshot_taken_in_order now d info d' :
  in_order d -> snapshot_taken now d = Some (info, d') -> in_order d'.
Proof.
  intros [Hwf Hasc] Htaken.
  destruct (snapshot_taken_keeps_wf now d info d' Hwf Htaken)
    as (Hwf' & _ & _ & _ & _ & _ & Hsn).
  split; [done|]. unfold ids_ascending. rewrite Hsn, map_app. simpl.
  apply StronglySorted_snoc; [done|].
  intros y (s & -> & Hs)%list_elem_of_fmap. by apply next_id_above.
Qed.

Lemma snapshot_deleted_in_order id d reset d' :
  in_order d -> snapshot_deleted id d = Some (reset, d') -> in_order d'.
Proof.
  intros [Hwf Hasc] Hdel.
  assert (id ∈ map s_id (snapshots d)) as Hin.
  { unfold snapshot_deleted in Hdel.
    destruct (Stmt.select_snapshot_id id d) eqn:Hsel; [|discriminate].
    by eapply select_snapshot_id_in. }
  destruct (snapshot_deleted_wf id d Hwf Hin) as (d'' & Hdel' & _ & Hsn & _ & _ & Hwf').
  rewrite Hdel' in Hdel. injection Hdel as _ Hd. subst d''.
  split; [done|].
  by apply (ids_ascending_filter (fun x => negb (x =? id)) d d').
Qed.

Lemma pruned_in_order keepCount d : in_order d -> in_order (pruned keepCount d).
Proof.
  intros [Hwf Hasc]. split; [by apply pruned_wf|].
  destruct (pruned_tables keepCount d) as (_ & _ & Hsn & _). cbv zeta in Hsn.
  set (doomed := if _ <=? _ then _ else _) in Hsn.
  exact (ids_ascending_filter (fun x => negb (bool_decide (x ∈ doomed))) d _ Hsn Hasc).
Qed.

Section Handlers.
Variable I : DB -> Prop.
Hypothesis I_upsert : forall now message d, I d -> I (upsert_of now message d).
Hypothesis I_taken : forall now d info d',
  I d -> snapshot_taken now d = Some (info, d') -> I d'.
Hypothesis I_deleted : forall id d reset d',
  I d -> snapshot_deleted id d = Some (reset, d') -> I d'.
Hypothesis I_pruned : forall keepCount d, I d -> I (pruned keepCount d).

Lemma settles_ret {A} (a : A) w :
  txn w = None -> I (store w) -> settles I (mret a) w.
Proof. intros Ht Ho. apply wp_ret. eauto. Qed.

Lemma settles_bind {A B} (m : Async A) (k : A -> Async B) w :
  settles I m w ->
  (forall a w1, txn w1 = None -> I (store w1) -> settles I (k a) w1) ->
  settles I (m ≫= k) w.
Proof.
  unfold settles. intros Hm Hk. apply wp_bind. eapply wp_mono; [exact Hm|].
  cbv beta. intros r w1 ((a & ->) & Ht & Ho). by apply Hk.
Qed.

Lemma settles_note e w :
  txn w = None -> I (store w) -> settles I (Conn.note e) w.
Proof. intros Ht Ho. apply wp_note. autorewrite with conn. eauto. Qed.

Lemma processMessage_settles now message w :
  txn w = None -> I (store w) -> settles I (processMessage now message) w.
Proof.
  intros Htxn Hi. eapply wp_mono; [apply processMessage_spec|].
  cbv beta. intros r w' (-> & Ht & Hst). split; [eauto|]. split; [congruence|].
  destruct Hst as [-> | ->]; [done|]. by apply I_upsert.
Qed.

Lemma createSnapshot_settles now w :
  txn w = None -> I (store w) -> settles I (createSnapshot now) w.
Proof.
  intros Htxn Hi. eapply wp_mono; [apply (createSnapshot_spec now w Htxn)|].
  cbv beta. intros r w' (Ht & _ & _ & Hr).
  destruct r as [[info|]|e]; [| |done].
  - destruct Hr as [_ Hr]. split; [eauto|]. split; [done|]. by eapply I_taken.
  - destruct Hr as [-> _]. eauto.
Qed.

Lemma cleanupOldSnapshots_settles keepCountArg w :
  txn w = None -> I (store w) -> settles I (cleanupOldSnapshots keepCountArg) w.
Proof.
  intros Htxn Hi. eapply wp_mono; [apply (cleanupOldSnapshots_spec keepCountArg w Htxn)|].
  cbv beta. intros r w' (-> & Ht & _ & _ & Hst & _). split; [eauto|]. split; [done|].
  destruct Hst as [-> | [_ ->]]; [done|]. by apply I_pruned.
Qed.

Lemma delete_snapshot_route_settles id w :
  txn w = None -> I (store w) -> settles I (delete_snapshot_route id) w.
Proof.
  intros Htxn Hi. eapply wp_mono; [apply (delete_snapshot_route_spec id w Htxn)|].
  cbv beta. intros r w' (Ht & _ & _ & Hr).
  destruct r as [[reset| |]|e]; [| | |done].
  - destruct Hr as [_ Hr]. split; [eauto|]. split; [done|]. by eapply I_deleted.
  - destruct Hr as (_ & -> & _). eauto.
  - destruct Hr as [-> _]. eauto.
Qed.

Lemma get_snapshots_route_settles sid w :
  txn w = None -> I (store w) -> settles I (get_snapshots_route sid) w.
Proof.
  intros Htxn Hi. eapply wp_mono; [apply get_snapshots_route_spec|].
  cbv beta. intros r w' (-> & -> & _ & _ & Hr).
  split; [|done]. destruct Hr as [[-> _] | [-> _]]; eauto.
Qed.

Lemma getLastSnapshotTime_settles w :
  txn w = None -> I (store w) -> settles I getLastSnapshotTime w.
Proof.
  intros Htxn Hi. eapply wp_mono; [apply getLastSnapshotTime_spec|].
  cbv beta. intros r w' (-> & -> & _ & _ & res & -> & _). eauto.
Qed.

Lemma scheduled_firing_settles now w :
  txn w = None -> I (store w) -> settles I (scheduled_firing now) w.
Proof.
  intros Ht Ho. unfold scheduled_firing.
  apply settles_bind; [by apply createSnapshot_settles|].
  intros _ w1 Ht1 Ho1. by apply cleanupOldSnapshots_settles.
Qed.

Lemma guarded_settles {A} env providedKey (handler : Async A) w :
  txn w = None -> I (store w) -> settles I handler w ->
  settles I (guarded env providedKey handler) w.
Proof.
  intros Ht Ho Hh. unfold guarded.
  destruct (apiKeyAuth (API_KEY env) providedKey); [|by apply settles_ret].
  apply settles_bind; [done|]. intros a w1 Ht1 Ho1. by apply settles_ret.
Qed.

Lemma serve_settles env request w :
  txn w = None -> I (store w) -> settles I (serve env request) w.
Proof.
  intros Ht Ho. destruct request as [now message|now|now|now|now|key id|key sid]; simpl.
  - by apply processMessage_settles.
  - unfold setupAutomaticSnapshots.
    apply settles_bind; [by apply getLastSnapshotTime_settles|].
    intros [last|] w1 Ht1 Ho1.
    + apply settles_bind; [by apply settles_ret|].
      intros delay w2 Ht2 Ho2. by apply settles_note.
    + apply settles_bind.
      * apply settles_bind; [by apply createSnapshot_settles|].
        intros _ w2 Ht2 Ho2.
        apply settles_bind; [by apply cleanupOldSnapshots_settles|].
        intros _ w3 Ht3 Ho3. by apply settles_ret.
      * intros delay w2 Ht2 Ho2. by apply settles_note.
  - unfold on_timeout. apply settles_bind; [by apply settles_note|].
    intros _ w1 Ht1 Ho1. by apply scheduled_firing_settles.
  - by apply scheduled_firing_settles.
  - unfold on_sigint. apply settles_bind; [by apply createSnapshot_settles|].
    intros _ w1 Ht1 Ho1. by apply settles_ret.
  - apply settles_bind.
    + apply guarded_settles; [done|done|]. by apply delete_snapshot_route_settles.
    + intros _ w1 Ht1 Ho1. by apply settles_ret.
  - apply settles_bind.
    + apply guarded_settles; [done|done|]. by apply get_snapshots_route_settles.
    + intros _ w1 Ht1 Ho1. by apply settles_ret.
Qed.

Lemma serve_all_settles env requests : forall w,
  txn w = None -> I (store w) -> settles I (serve_all env requests) w.
Proof.
  induction requests as [|request rest IH]; intros w Ht Ho; simpl.
  - by apply settles_ret.
  - apply settles_bind; [by apply serve_settles|].
    intros _ w1 Ht1 Ho1. by apply IH.
Qed.

End Handlers.

Lemma snapshot_taken_wf_db now d info d' :
  wf_db d -> snapshot_taken now d = Some (info, d') -> wf_db d'.
Proof. intros Hwf Htaken. by destruct (snapshot_taken_keeps_wf _ _ _ _ Hwf Htaken). Qed.

Lemma snapshot_deleted_wf_db id d reset d' :
  wf_db d -> snapshot_deleted id d = Some (reset, d') -> wf_db d'.
Proof.
  intros Hwf Hdel.
  assert (id ∈ map s_id (snapshots d)) as Hin.
  { unfold snapshot_deleted in Hdel.
    destruct (Stmt.select_snapshot_id id d) eqn:Hsel; [|discriminate].
    by eapply select_snapshot_id_in. }
  destruct (snapshot_deleted_wf id d Hwf Hin) as (d'' & Hdel' & _ & _ & _ & _ & Hwf').
  rewrite Hdel' in Hdel. by injection Hdel as _ <-.
Qed.

Lemma serve_all_wf env requests w :
  txn w = None -> wf_db (store w) -> settles wf_db (serve_all env requests) w.
Proof.
  apply serve_all_settles.
  - intros now message d. apply upsert_wf.
  - apply snapshot_taken_wf_db.
  - apply snapshot_deleted_wf_db.
  - intros keepCount d. apply pruned_wf.
Qed.

Lemma serve_all_in_order env requests w :
  txn w = None -> in_order (store w) -> settles in_order (serve_all env requests) w.
Proof.
  apply serve_all_settles.
  - apply upsert_in_order.
  - apply snapshot_taken_in_order.
  - apply snapshot_deleted_in_order.
  - apply pruned_in_order.
Qed.

(** X21.  Whatever the process is asked to do, in whatever order --
    messages, the start of the scheduler, firings of its timers, the
    interrupt signal, requests to the two snapshot routes with or without
    the key -- and whatever storage errors occur: no handler throws, none
    leaves a transaction open, and the database stays well formed: one
    row per identity in the activity store, snapshot ids and names
    unique, every row of [snapshot_data] owned by a snapshot and unique
    within it, every id between 1 and the recorded sequence.  (Each
    handler runs to its end before the next starts.) *)
Theorem handlers_keep_the_database_well_formed
    (env : option string) (requests : list Request) (w : World) :
  txn w = None -> wf_db (store w) ->
  wp (serve_all env requests)
     (fun r w' => r = Returned tt /\ txn w' = None /\ wf_db (store w')) w.
Proof.
  intros Ht Hwf.
  eapply wp_mono; [apply (serve_all_wf env requests w Ht Hwf)|].
  cbv beta. intros r w' (([] & ->) & Ht' & Hwf'). auto.
Qed.

Lemma handlers_keep_the_database_well_formed_witness :
  wp (serve_all None sample_requests)
     (fun r w' => r = Returned tt /\ txn w' = None /\ wf_db (store w'))
     (Conn.open sample_three [false; false; true; false; false; false; true]).
Proof.
  apply (handlers_keep_the_database_well_formed None sample_requests
           (Conn.open sample_three [false; false; true; false; false; false; true])).
  - reflexivity.
  - apply (bool_decide_unpack _). vm_compute. reflexivity.
Defined.

(** X22.  The ids in [snapshots] ascend in table order, and every handler
    keeps it so, storage errors or not: among the snapshots in the table a
    snapshot taken later has the larger id.  Resetting the id sequence on
    deletion does not disturb this, since a new snapshot always receives
    an id above every id in the table. *)
Theorem snapshot_ids_stay_ascending
    (env : option string) (requests : list Request) (w : World) :
  txn w = None -> wf_db (store w) -> ids_ascending (store w) ->
  wp (serve_all env requests)
     (fun r w' =>
        ids_ascending (store w') /\
        (forall i j a b, (i < j)%nat ->
           snapshots (store w') !! i = Some a -> snapshots (store w') !! j = Some b ->
           s_id a < s_id b) /\
        (forall s, s ∈ snapshots (store w') -> s_id s < Stmt.next_id (store w'))) w.
Proof.
  intros Ht Hwf Hasc.
  eapply wp_mono; [apply (serve_all_in_order env requests w Ht (conj Hwf Hasc))|].
  cbv beta. intros r w' (_ & _ & _ & Hasc'). split; [done|]. split.
  - unfold ids_ascending in Hasc'. revert Hasc'.
    generalize (snapshots (store w')). intros l Hl i.
    revert l Hl. induction i as [|i IH]; intros l Hl j a b Hij Ha Hb.
    + destruct l as [|x l]; [done|]. destruct j as [|j]; [lia|].
      simpl in Ha, Hb. injection Ha as ->.
      inversion Hl as [|? ? _ Hall]; subst. rewrite Forall_forall in Hall.
      apply Hall, list_elem_of_fmap. exists b. split; [done|].
      by eapply list_elem_of_lookup_2.
    + destruct l as [|x l]; [done|]. destruct j as [|j]; [lia|].
      simpl in Ha, Hb. inversion Hl; subst. apply (IH l ltac:(done) j); [lia|done|done].
  - intros s. apply next_id_above.
Qed.

Lemma snapshot_ids_stay_ascending_witness :
  wp (serve_all None sample_requests)
     (fun r w' =>
        ids_ascending (store w') /\
        (forall i j a b, (i < j)%nat ->
           snapshots (store w') !! i = Some a -> snapshots (store w') !! j = Some b ->
           s_id a < s_id b) /\
        (forall s, s ∈ snapshots (store w') -> s_id s < Stmt.next_id (store w')))
     (Conn.open sample_gap []).
Proof.
  apply (snapshot_ids_stay_ascending None sample_requests (Conn.open sample_gap [])).
  - reflexivity.
  - apply (bool_decide_unpack _). vm_compute. reflexivity.
  - unfold ids_ascending. vm_compute. repeat constructor.
Defined.

(** The sample requests on the sample database, without storage error:
    snapshot 2 is deleted, snapshot 5, the last one then, is deleted and
    its id given out again. *)
Example sample_requests_run :
  let w' := (serve_all None sample_requests (Conn.open sample_three [])).2 in
  map s_id (snapshots (store w')) = [1; 3; 4; 5] /\
  sqlite_sequence (store w') = Some 5 /\
  total_messages (store w') = 5.
Proof. vm_compute. auto. Qed.

(** ** The shape of a snapshot name *)

Lemma length_pad width : forall n rest,
  String.length (JsDate.pad width n rest) = (width + String.length rest)%nat.
Proof.
  induction width as [|width IH]; intros n rest; simpl; [done|].
  rewrite IH. simpl. lia.
Qed.

Lemma length_replace_colon_dot s :
  String.length (JsDate.replace_colon_dot s) = String.length s.
Proof. induction s as [|c s IH]; simpl; [done|]. by rewrite IH. Qed.

Lemma get_replace_colon_dot s : forall k c,
  String.get k (JsDate.replace_colon_dot s) = Some c -> c <> ":"%char /\ c <> "."%char.
Proof.
  induction s as [|c0 s IH]; intros k c; simpl; [done|].
  destruct k as [|k]; [|apply IH].
  intros [= <-].
  destruct (Ascii.eqb_spec c0 ":") as [->|Hcolon]; simpl; [done|].
  destruct (Ascii.eqb_spec c0 ".") as [->|Hdot]; simpl; done.
Qed.

Lemma length_toISOString t :
  String.length (JsDate.toISOString t)
  = if (0 <=? JsDate.YearFromTime t) && (JsDate.YearFromTime t <=? 9999)
    then 24%nat else 27%nat.
Proof.
  unfold JsDate.toISOString, JsDate.year_field.
  destruct ((0 <=? JsDate.YearFromTime t) && (JsDate.YearFromTime t <=? 9999)).
  - repeat (rewrite length_pad; cbn [String.length]). reflexivity.
  - destruct (JsDate.YearFromTime t <? 0); cbn [String.length];
      repeat (rewrite length_pad; cbn [String.length]); reflexivity.
Qed.

(** X23.  The name of a snapshot -- the ISO form of the instant with every
    [:] and [.] replaced by [-] -- contains neither a colon nor a dot, at
    any instant; it is 24 characters long for the instants of the years 0
    to 9999, and 27 characters long otherwise (a sign and six digits for
    the year). *)
Theorem snapshot_name_shape (now : Z) :
  (forall k c, String.get k (snapshot_name now) = Some c ->
               c <> ":"%char /\ c <> "."%char) /\
  String.length (snapshot_name now)
  = (if (0 <=? JsDate.YearFromTime now) && (JsDate.YearFromTime now <=? 9999)
     then 24%nat else 27%nat) /\
  (four_digit_year now -> String.length (snapshot_name now) = 24%nat).
Proof.
  unfold snapshot_name. split; [apply get_replace_colon_dot|].
  rewrite length_replace_colon_dot, length_toISOString. split; [done|].
  intros Hfour. destruct (YearFromTime_range now Hfour) as [Hlo Hhi].
  apply Z.leb_le in Hlo, Hhi. by rewrite Hlo, Hhi.
Qed.

(** The name of the sample instant, and of an instant in the year 10000. *)
Example snapshot_name_sample :
  snapshot_name sample_instant = "2026-11-14T06-20-45-678Z"%string /\
  snapshot_name 253402300800000 = "+010000-01-01T00-00-00-000Z"%string.
Proof. vm_compute. auto. Qed.

(** ** The roles that are stored *)

Lemma string_app_cons c (s1 s2 : string) :
  (String c s1 +:+ s2 = String c (s1 +:+ s2))%string.
Proof. reflexivity. Qed.

Lemma string_app_nil_l (s : string) : ("" +:+ s = s)%string.
Proof. reflexivity. Qed.

Lemma string_app_assoc (s1 s2 s3 : string) :
  ((s1 +:+ s2) +:+ s3 = s1 +:+ (s2 +:+ s3))%string.
Proof.
  induction s1 as [|c s1 IH]; [done|]. by rewrite !string_app_cons, IH.
Qed.

Lemma string_app_nil_r (s : string) : (s +:+ "" = s)%string.
Proof. induction s as [|c s IH]; [done|]. by rewrite string_app_cons, IH. Qed.

(** An element of a joined array is a part of the result. *)
Lemma join_has_element (sep : string) (arr : list string) (x : string) :
  x ∈ arr -> exists before after, Js.join sep arr = (before +:+ x +:+ after)%string.
Proof.
  unfold Js.join. induction arr as [|y arr IH]; [by intros ?%elem_of_nil|].
  intros [-> | Hx]%elem_of_cons.
  - destruct arr as [|z arr].
    + exists ""%string, ""%string. by rewrite string_app_nil_l, string_app_nil_r.
    + exists ""%string, (sep +:+ String.concat sep (z :: arr))%string. reflexivity.
  - destruct arr as [|z arr]; [by apply elem_of_nil in Hx|].
    destruct (IH Hx) as (before & after & Heq).
    exists (y +:+ sep +:+ before)%string, after.
    change (String.concat sep (y :: z :: arr))
      with (y +:+ sep +:+ String.concat sep (z :: arr))%string.
    by rewrite Heq, !string_app_assoc.
Qed.

Lemma includes_elem_of (arr : list string) (x : string) :
  Js.includes arr x = true <-> x ∈ arr.
Proof.
  unfold Js.includes. rewrite existsb_exists. split.
  - intros (y & Hy & ->%String.eqb_eq). by apply list_elem_of_In.
  - intros Hx. exists x. split; [by apply list_elem_of_In|apply String.eqb_refl].
Qed.

(** X24.  A member counts exactly when one of the member's roles is, letter
    for letter, one of the ten monitored names; a member without role
    data never counts.  For a member that counts, the roles text that
    [processMessage] stores -- the role names without ["@everyone"],
    joined by [", "] -- contains that monitored name and so is never
    empty; for a member without role data it is the empty text. *)
Theorem monitored_role_is_stored (member : option Member) :
  (hasTargetRole member = true <->
   exists m cache role,
     member = Some m /\ member_roles m = Some cache /\
     role ∈ cache /\ role ∈ TARGET_ROLES) /\
  (hasTargetRole member = true ->
   exists role before after,
     role ∈ TARGET_ROLES /\
     getUserRoles member = (before +:+ role +:+ after)%string /\
     getUserRoles member <> ""%string) /\
  ((member = None \/ exists m, member = Some m /\ member_roles m = None) ->
   hasTargetRole member = false /\ getUserRoles member = ""%string).
Proof.
  assert (hasTargetRole member = true <->
          exists m cache role,
            member = Some m /\ member_roles m = Some cache /\
            role ∈ cache /\ role ∈ TARGET_ROLES) as Hiff.
  { unfold hasTargetRole. destruct member as [m|].
    - destruct (member_roles m) as [cache|] eqn:Hroles.
      + rewrite existsb_exists. split.
        * intros (role & Hrole%list_elem_of_In & Hinc%includes_elem_of).
          exists m, cache, role. auto.
        * intros (m' & cache' & role & [= <-] & Hc & Hrole & Htarget).
          rewrite Hroles in Hc. injection Hc as <-.
          exists role. split; [by apply list_elem_of_In|by apply includes_elem_of].
      + split; [done|]. intros (m' & cache' & role & [= <-] & Hc & _). congruence.
    - split; [done|]. by intros (m' & cache' & role & [=] & _). }
  split; [exact Hiff|]. split.
  - intros (m & cache & role & -> & Hroles & Hrole & Htarget)%Hiff.
    unfold getUserRoles. rewrite Hroles.
    assert (role <> "@everyone"%string) as Hne.
    { intros ->. revert Htarget. unfold TARGET_ROLES. rewrite !elem_of_cons.
      intros H. repeat (destruct H as [H|H]; [discriminate|]). by apply elem_of_nil in H. }
    assert (role ∈ List.filter (fun role => negb (String.eqb role "@everyone")) cache)
      as Hkept.
    { apply elem_of_filter_bool. split; [done|]. by apply negb_true_iff, String.eqb_neq. }
    destruct (join_has_element ", " _ role Hkept) as (before & after & Heq).
    exists role, before, after. split; [done|]. split; [done|].
    rewrite Heq. intros Hempty.
    assert (role <> ""%string) as Hrole_ne.
    { intros ->. revert Htarget. unfold TARGET_ROLES. rewrite !elem_of_cons.
      intros H. repeat (destruct H as [H|H]; [discriminate|]). by apply elem_of_nil in H. }
    destruct before; [|discriminate]. rewrite string_app_nil_l in Hempty.
    destruct role; [done|discriminate].
  - intros [-> | (m & -> & Hroles)]; [done|].
    unfold hasTargetRole, getUserRoles. by rewrite Hroles.
Qed.

(** The roles stored for the sample member; a role that differs from a
    monitored name in case does not count. *)
Example stored_roles_sample :
  getUserRoles (Some {| member_roles := Some ["@everyone"; "Prover"; "Mod"]%string |})
  = "Prover, Mod"%string /\
  hasTargetRole (Some {| member_roles := Some ["@everyone"; "prover"]%string |}) = false /\
  hasTargetRole (Some {| member_roles := Some ["@everyone"]%string |}) = false.
Proof. vm_compute. auto. Qed.


(** ** The order of what the get route shows *)

Lemma string_compare_refl (s : string) : String.compare s s = Eq.
Proof.
  induction s as [|c s IH]; simpl; [done|].
  unfold Ascii.compare. by rewrite N.compare_refl.
Qed.

Lemma string_compare_lt_trans (s1 s2 s3 : string) :
  String.compare s1 s2 = Lt -> String.compare s2 s3 = Lt -> String.compare s1 s3 = Lt.
Proof.
  intros H12 H23.
  assert (String.le s1 s3) as Hle.
  { transitivity s2; unfold String.le, String.leb; [by rewrite H12|by rewrite H23]. }
  unfold String.le, String.leb in Hle.
  destruct (String.compare s1 s3) eqn:H13; [|done|done].
  apply String.compare_eq_iff in H13 as ->.
  rewrite String.compare_antisym, H23 in H12. discriminate.
Qed.

Lemma by_user_then_count_total u1 c1 u2 c2 :
  Stmt.by_user_then_count u1 c1 u2 c2 = false -> Stmt.by_user_then_count u2 c2 u1 c1 = true.
Proof.
  unfold Stmt.by_user_then_count. rewrite (String.compare_antisym u1 u2).
  destruct (String.compare u2 u1); simpl; [|done|done].
  rewrite Z.leb_gt, Z.leb_le. lia.
Qed.

Lemma by_user_then_count_trans u1 c1 u2 c2 u3 c3 :
  Stmt.by_user_then_count u1 c1 u2 c2 = true ->
  Stmt.by_user_then_count u2 c2 u3 c3 = true ->
  Stmt.by_user_then_count u1 c1 u3 c3 = true.
Proof.
  unfold Stmt.by_user_then_count.
  destruct (String.compare u1 u2) eqn:H12; [|..|done].
  - apply String.compare_eq_iff in H12 as ->.
    destruct (String.compare u2 u3); [|done..]. rewrite !Z.leb_le. lia.
  - destruct (String.compare u2 u3) eqn:H23; [|..|done].
    + apply String.compare_eq_iff in H23 as <-. by rewrite H12.
    + by rewrite (string_compare_lt_trans u1 u2 u3).
Qed.

(** The channels of one user, as the get route builds them, are in the
    order of descending counts. *)
Lemma channels_of_user_sorted id d u :
  StronglySorted (fun a b => cv_message_count b <= cv_message_count a)
    (default [] (group_channels (Query.select_channel_activity id d) !! u)).
Proof.
  rewrite group_channels_lookup.
  apply (StronglySorted_fmap channel_view
           (fun a b => cv_message_count b <= cv_message_count a)).
  unfold Query.of_user, Query.select_channel_activity.
  set (cmp := fun r1 r2 : SnapshotRecord =>
                Stmt.by_user_then_count (sd_user_id r1) (sd_message_count r1)
                                        (sd_user_id r2) (sd_message_count r2)).
  assert (StronglySorted (fun a b => cmp a b = true)
            (Sql.order_by cmp (Query.index_scan id d))) as Hsorted.
  { apply order_by_sorted; unfold cmp; intros *.
    - apply by_user_then_count_total.
    - apply by_user_then_count_trans. }
  generalize dependent (Sql.order_by cmp (Query.index_scan id d)). intros l Hsorted.
  induction Hsorted as [|r l Hl IH Hr]; simpl; [constructor|].
  destruct (String.eqb_spec (sd_user_id r) u) as [Hu|Hu]; [|done].
  constructor; [done|].
  apply Forall_forall. intros r' [Hr' Hu']%elem_of_filter_bool.
  rewrite Forall_forall in Hr. specialize (Hr r' Hr').
  apply String.eqb_eq in Hu'. unfold cmp, Stmt.by_user_then_count in Hr.
  rewrite Hu, Hu', string_compare_refl in Hr. simpl. by apply Z.leb_le.
Qed.

(** X25.  What [GET /api/snapshots/:id] shows comes in a fixed order: the
    users by descending [total_messages], and the channels of every user
    by descending [message_count]; the snapshot shown is the row of the
    table with the id asked for.  Without storage error the route answers
    404 exactly for the ids that no snapshot has; for the id of a snapshot
    it answers with the snapshot, provided no user id in it names a
    property that the object [userChannels] inherits (with such an id the
    source answers 500) -- and never with a listing. *)
Theorem get_route_orders_users_and_channels (id : Z) (w : World) :
  quiet w ->
  wp (get_snapshots_route (Some id))
     (fun r _ =>
        (id ∉ map s_id (snapshots (store w)) <-> r = Returned GetNotFound) /\
        (id ∈ map s_id (snapshots (store w)) -> plain_user_ids id (store w) ->
         exists snapshot users, r = Returned (GetOne snapshot users)) /\
        match r with
        | Returned (GetOne snapshot users) =>
            s_id snapshot = id /\
            snapshot ∈ snapshots (store w) /\
            StronglySorted (fun a b => ut_total_messages (uv_user b)
                                       <= ut_total_messages (uv_user a)) users /\
            Forall (fun uv =>
                      StronglySorted (fun a b => cv_message_count b <= cv_message_count a)
                                     (uv_channels uv)) users
        | Returned (GetList _) => False
        | Returned GetNotFound => True
        | Returned GetFailed => ~ plain_user_ids id (store w)
        | Thrown _ => False
        end) w.
Proof.
  intros Hq. unfold wp. rewrite get_snapshots_route_quiet_reply by done.
  unfold get_reply.
  destruct (Stmt.select_snapshot id (store w)) as [snapshot|] eqn:Hsel.
  - assert (snapshot ∈ snapshots (store w) /\ s_id snapshot = id) as [Hin Hid].
    { unfold Stmt.select_snapshot in Hsel.
      destruct (List.filter _ _) as [|s l] eqn:Hf; [done|]. injection Hsel as ->.
      assert (snapshot ∈ List.filter (fun s => s_id s =? id) (snapshots (store w))) as Hin
        by (rewrite Hf; apply elem_of_cons; by left).
      apply elem_of_filter_bool in Hin as [Hin Hid]. by apply Z.eqb_eq in Hid. }
    split; [|split; [eauto|]].
    { split; [|done]. intros Hno. destruct Hno. apply list_elem_of_fmap. eauto. }
    split; [done|]. split; [done|]. split.
    + unfold users_view.
      apply (StronglySorted_fmap _
               (fun a b => ut_total_messages (uv_user b) <= ut_total_messages (uv_user a))).
      simpl. unfold Query.select_user_totals.
      eapply StronglySorted_weaken; [|apply order_by_sorted].
      * intros a b Hab. simpl in Hab. by apply Z.leb_le.
      * intros a b. rewrite Z.leb_gt, Z.leb_le. lia.
      * intros a b c. rewrite !Z.leb_le. lia.
    + unfold users_view. apply Forall_forall.
      intros uv (user & -> & _)%list_elem_of_fmap. simpl.
      apply channels_of_user_sorted.
  - assert (id ∉ map s_id (snapshots (store w))) as Hno.
    { intros Hin. apply list_elem_of_fmap in Hin as (s & -> & Hs).
      unfold Stmt.select_snapshot in Hsel.
      assert (s ∈ List.filter (fun s0 => s_id s0 =? s_id s) (snapshots (store w))) as Hf
        by (apply elem_of_filter_bool; split; [done|apply Z.eqb_refl]).
      destruct (List.filter _ _); [by apply elem_of_nil in Hf|discriminate]. }
    split; [done|]. split; [|done]. intros Hin. by destruct Hno.
Qed.

(** The third sample snapshot is shown, in order; the id 7, which no sample
    snapshot has, is answered 404. *)
Lemma get_route_orders_users_and_channels_witness :
  wp (get_snapshots_route (Some 3))
     (fun r _ =>
        exists snapshot users,
          r = Returned (GetOne snapshot users) /\
          s_id snapshot = 3 /\
          StronglySorted (fun a b => ut_total_messages (uv_user b)
                                     <= ut_total_messages (uv_user a)) users /\
          Forall (fun uv =>
                    StronglySorted (fun a b => cv_message_count b <= cv_message_count a)
                                   (uv_channels uv)) users)
     (Conn.open sample_three []) /\
  wp (get_snapshots_route (Some 7)) (fun r _ => r = Returned GetNotFound)
     (Conn.open sample_three []).
Proof.
  split.
  - eapply wp_mono.
    + apply (get_route_orders_users_and_channels 3 (Conn.open sample_three [])).
      reflexivity.
    + cbv beta. intros r w' (_ & Hone & Horder).
      destruct Hone as (snapshot & users & ->).
      * apply (bool_decide_unpack _). vm_compute. reflexivity.
      * apply Forall_forall. intros row Hrow. vm_compute in Hrow.
        repeat (apply elem_of_cons in Hrow as [->|Hrow]; [vm_compute; reflexivity|]).
        by apply elem_of_nil in Hrow.
      * destruct Horder as (Hid & _ & Husers & Hchannels). eauto 10.
  - eapply wp_mono.
    + apply (get_route_orders_users_and_channels 7 (Conn.open sample_three [])).
      reflexivity.
    + cbv beta. intros r w' (Hunknown & _). apply Hunknown.
      apply (bool_decide_unpack _). vm_compute. reflexivity.
Defined.

(** ** When the first firing is due *)

(** X26.  At start-up with a snapshot in the table and no storage error,
    the timer is armed so that the first firing is due five hours after
    the newest snapshot was taken (its time read to the second), or at once
    when that moment has passed: the interval of four hours plus the hour
    that the task deducts from the clock.  The delay is never negative,
    and at most five hours unless the newest snapshot lies in the
    future. *)
Theorem first_firing_five_hours_after_newest (now : Z) (w : World) :
  quiet w ->
  snapshots (store w) <> [] ->
  wp (setupAutomaticSnapshots now)
     (fun r w' =>
        exists newest delay,
          newest ∈ snapshots (store w) /\
          (forall s, s ∈ snapshots (store w) -> s_created_at s <= s_created_at newest) /\
          r = Returned tt /\
          trace w' = trace w ++ [ArmedTimeout delay] /\
          now + delay = Z.max now (s_created_at newest * 1000 + 5 * 60 * 60 * 1000) /\
          0 <= delay /\
          (s_created_at newest * 1000 <= now -> delay <= 5 * 60 * 60 * 1000)) w.
Proof.
  intros Hq Hne.
  destruct (select_last_created_at_Some (store w) Hne) as (newest & Hin & Hlast & Hmax).
  eapply wp_mono; [apply (setup_with_snapshot now w _ Hq Hlast)|].
  cbv beta. intros r w' (-> & Htr & _).
  exists newest, (initial_delay now (JsDate.parse_utc (s_created_at newest))).
  split; [done|]. split; [done|]. split; [done|]. split; [done|].
  unfold initial_delay, SNAPSHOT_INTERVAL, JsDate.parse_utc, JsDate.msPerSecond.
  destruct (Z.ltb_spec (now - 1 * 60 * 60 * 1000 - s_created_at newest * 1000)
                       (1000 * 4 * 60 * 60)); lia.
Qed.

Lemma first_firing_five_hours_after_newest_witness :
  wp (setupAutomaticSnapshots (sample_instant + 4000))
     (fun r w' =>
        exists newest delay,
          newest ∈ snapshots (store (Conn.open sample_three [])) /\
          (forall s, s ∈ snapshots (store (Conn.open sample_three [])) ->
                     s_created_at s <= s_created_at newest) /\
          r = Returned tt /\
          trace w' = trace (Conn.open sample_three []) ++ [ArmedTimeout delay] /\
          sample_instant + 4000 + delay
          = Z.max (sample_instant + 4000)
                  (s_created_at newest * 1000 + 5 * 60 * 60 * 1000) /\
          0 <= delay /\
          (s_created_at newest * 1000 <= sample_instant + 4000 ->
           delay <= 5 * 60 * 60 * 1000))
     (Conn.open sample_three []).
Proof.
  apply (first_firing_five_hours_after_newest (sample_instant + 4000)
           (Conn.open sample_three [])).
  - reflexivity.
  - vm_compute. discriminate.
Defined.

(** ** The statistics and a fresh snapshot *)

(** What the get route answers for a snapshot just taken. *)
Lemma get_reply_of_new_snapshot now d d1 :
  wf_db d ->
  d1 = {| channel_activity := channel_activity d;
          snapshots := snapshots d ++
            [ {| s_id := Stmt.next_id d; s_name := snapshot_name now;
                 s_created_at := Sql.current_timestamp now |} ];
          snapshot_data := snapshot_data d ++
            map (snapshot_row (Stmt.next_id d)) (Stmt.select_activity d);
          sqlite_sequence := Some (Stmt.next_id d) |} ->
  get_reply (Some (Stmt.next_id d)) d1
  = GetOne {| s_id := Stmt.next_id d; s_name := snapshot_name now;
              s_created_at := Sql.current_timestamp now |}
           (users_view (Stmt.next_id d) d1) /\
  Query.of_snapshot (Stmt.next_id d) d1
  = map (snapshot_row (Stmt.next_id d)) (Stmt.select_activity d).
Proof.
  intros (_ & _ & _ & _ & Hown & _) ->. split.
  - unfold get_reply, Stmt.select_snapshot. simpl.
    rewrite List.filter_app, (filter_none_bool _ (snapshots d)).
    + simpl. by rewrite Z.eqb_refl.
    + intros s Hs. pose proof (next_id_above d s Hs). apply Z.eqb_neq. lia.
  - unfold Query.of_snapshot. simpl.
    rewrite List.filter_app, (filter_none_bool _ (snapshot_data d)).
    + simpl. apply filter_all_bool.
      intros r (a & -> & _)%list_elem_of_fmap. simpl. apply Z.eqb_refl.
    + intros r Hr. rewrite Forall_forall in Hown.
      apply Hown, list_elem_of_fmap in Hr as (s & -> & Hs).
      pose proof (next_id_above d s Hs). apply Z.eqb_neq. lia.
Qed.

(** X27.  The statistics and the snapshots agree: every user that
    [getRoleUserStats] lists appears in a snapshot taken right after, and
    the get route shows for that user the [total_messages] of the
    statistics, which is also the sum of the counts of the user's channels
    in the snapshot.  (Well-formed database, non-empty activity store, free
    name, no storage error.) *)
Theorem fresh_snapshot_agrees_with_statistics
    (now : Z) (limitArg : option Z) (w : World) :
  txn w = None -> quiet w -> wf_db (store w) ->
  channel_activity (store w) <> [] ->
  snapshot_name now ∉ map s_name (snapshots (store w)) ->
  wp (getRoleUserStats limitArg)
     (fun r0 w0 =>
        exists stats, r0 = Returned stats /\
        wp (createSnapshot now)
           (fun r1 w1 =>
              exists info, r1 = Returned (Some info) /\
              wp (get_snapshots_route (Some (info_id info)))
                 (fun r2 _ =>
                    exists snapshot users,
                      r2 = Returned (GetOne snapshot users) /\
                      forall u, u ∈ stats ->
                        exists uv, uv ∈ users /\
                          user_of uv = us_user_id u /\
                          ut_total_messages (uv_user uv) = us_total_messages u /\
                          Sql.sum (map cv_message_count (uv_channels uv))
                          = us_total_messages u) w1) w0) w.
Proof.
  intros Htxn Hquiet Hwf Hne Hfresh.
  unfold getRoleUserStats. apply wp_try, wp_bind, wp_query; [intros; no_fault|].
  intros Hf. apply wp_ret. eexists. split; [reflexivity|].
  set (w0 := Conn.with_store (Conn.tick w) (store w)).
  assert (store w0 = store w) as Hs0 by reflexivity.
  assert (txn w0 = None) as Ht0 by (unfold w0; by autorewrite with conn).
  assert (quiet w0) as Hq0 by (unfold w0; auto with conn).
  rewrite <- Hs0 in Hwf, Hne, Hfresh.
  eapply wp_mono; [apply (createSnapshot_succeeds now w0 Ht0 Hq0 Hwf Hne Hfresh)|].
  cbv beta. intros r1 w1 (-> & Hst & _ & _ & Hq1 & _).
  eexists. split; [reflexivity|]. cbn [info_id].
  unfold wp. rewrite get_snapshots_route_quiet_reply by done.
  destruct (get_reply_of_new_snapshot now (store w0) (store w1) Hwf Hst) as [-> Hrows].
  eexists _, _. split; [reflexivity|].
  destruct (users_view_of_new_snapshot _ (store w0) (store w1) Hrows)
    as (_ & Hin & Hview).
  destruct (select_user_stats_spec (default 20 limitArg) (store w))
    as (_ & _ & _ & Hstats & _).
  intros u Hu. destruct (Hstats u Hu) as (Htotal & (row & Hrow & _) & _).
  assert (us_user_id u ∈ map user_of (users_view (Stmt.next_id (store w0)) (store w1)))
    as Hlisted.
  { apply Hin. rewrite Hs0. apply list_elem_of_fmap. exists row.
    apply elem_of_filter_bool in Hrow as [Hrow Hu'].
    apply String.eqb_eq in Hu'. auto. }
  apply list_elem_of_fmap in Hlisted as (uv & Huv & Hmem).
  exists uv. split; [done|]. split; [done|].
  destruct (Hview uv Hmem) as [Htot Hchan].
  rewrite <- Huv, Hs0 in Htot, Hchan. split; [by rewrite Htot, Htotal|].
  rewrite (sum_perm _ _ (Permutation_map cv_message_count Hchan)), map_map. simpl.
  by rewrite Htotal.
Qed.

Lemma fresh_snapshot_agrees_with_statistics_witness :
  wp (getRoleUserStats None)
     (fun r0 w0 =>
        exists stats, r0 = Returned stats /\
        wp (createSnapshot (sample_instant + 4000))
           (fun r1 w1 =>
              exists info, r1 = Returned (Some info) /\
              wp (get_snapshots_route (Some (info_id info)))
                 (fun r2 _ =>
                    exists snapshot users,
                      r2 = Returned (GetOne snapshot users) /\
                      forall u, u ∈ stats ->
                        exists uv, uv ∈ users /\
                          user_of uv = us_user_id u /\
                          ut_total_messages (uv_user uv) = us_total_messages u /\
                          Sql.sum (map cv_message_count (uv_channels uv))
                          = us_total_messages u) w1) w0)
     (Conn.open sample_three []).
Proof.
  apply (fresh_snapshot_agrees_with_statistics (sample_instant + 4000) None
           (Conn.open sample_three [])).
  - reflexivity.
  - reflexivity.
  - apply (bool_decide_unpack _). vm_compute. reflexivity.
  - vm_compute. discriminate.
  - apply (bool_decide_unpack _). vm_compute. reflexivity.
Defined.

(** ** No count below one *)

Lemma upsert_counts_positive now message d :
  counts_positive d -> counts_positive (upsert_of now message d).
Proof.
  intros [Hact Hdata]. split; [|done].
  unfold upsert_of, Stmt.upsert_activity. cbn [channel_activity].
  destruct (existsb _ _).
  - apply Forall_forall. intros r (r0 & -> & Hr0)%list_elem_of_fmap.
    rewrite Forall_forall in Hact. specialize (Hact r0 Hr0).
    destruct (Stmt.same_identity _ _ r0); simpl; lia.
  - apply Forall_app. split; [done|]. constructor; [simpl; lia|constructor].
Qed.

Lemma snapshot_taken_counts_positive now d info d' :
  counts_positive d -> snapshot_taken now d = Some (info, d') -> counts_positive d'.
Proof.
  intros [Hact Hdata]. unfold snapshot_taken.
  destruct (Stmt.insert_snapshot _ now d) as [[id d1]|] eqn:Hins; [|done].
  destruct (insert_snapshot_activity _ _ _ _ _ Hins) as (Hact1 & Hdata1 & _).
  destruct (length (Stmt.select_activity d1) =? 0)%nat; [done|].
  destruct (Stmt.insert_rows _ (snapshot_data d1)) as [rows|] eqn:Hrows; [|done].
  intros [= _ <-]. apply insert_rows_Some in Hrows as ->.
  split; simpl; [by rewrite Hact1|].
  rewrite Hdata1. apply Forall_app. split; [done|].
  apply Forall_forall. intros r (a & -> & Ha)%list_elem_of_fmap. simpl.
  rewrite (select_activity_perm d1), Hact1 in Ha.
  rewrite Forall_forall in Hact. auto.
Qed.

Lemma snapshot_deleted_counts_positive id d reset d' :
  counts_positive d -> snapshot_deleted id d = Some (reset, d') -> counts_positive d'.
Proof.
  intros [Hact Hdata]. unfold snapshot_deleted.
  destruct (Stmt.select_snapshot_id id d); [|done].
  intros [= _ <-].
  destruct (is_max_id id (Stmt.select_max_id d)); split; simpl; try done;
    by apply Forall_filter_bool.
Qed.

Lemma pruned_counts_positive keepCount d :
  counts_positive d -> counts_positive (pruned keepCount d).
Proof.
  intros [Hact Hdata].
  destruct (pruned_tables keepCount d) as (Hact' & _ & _ & Hdata'). cbv zeta in Hdata'.
  split; [by rewrite Hact'|]. rewrite Hdata'. by apply Forall_filter_bool.
Qed.

(** X28.  No count below one is ever stored: a row of the activity store
    starts at 1 and only grows, and a snapshot copies the counts as they
    are.  Every handler keeps this, storage errors or not; so the sum of
    all counts is at least the number of rows, and every user that the
    statistics list has written at least one message. *)
Theorem counts_stay_positive
    (env : option string) (requests : list Request) (w : World) :
  txn w = None ->
  Forall (fun r => 1 <= ca_message_count r) (channel_activity (store w)) ->
  Forall (fun r => 1 <= sd_message_count r) (snapshot_data (store w)) ->
  wp (serve_all env requests)
     (fun r w' =>
        Forall (fun r => 1 <= ca_message_count r) (channel_activity (store w')) /\
        Forall (fun r => 1 <= sd_message_count r) (snapshot_data (store w')) /\
        Z.of_nat (length (channel_activity (store w'))) <= total_messages (store w') /\
        forall limit u, u ∈ Report.select_user_stats limit (store w') ->
                        1 <= us_total_messages u) w.
Proof.
  intros Ht Hact Hdata.
  eapply wp_mono.
  { apply (serve_all_settles counts_positive); [..|exact Ht|exact (conj Hact Hdata)].
    - apply upsert_counts_positive.
    - apply snapshot_taken_counts_positive.
    - apply snapshot_deleted_counts_positive.
    - apply pruned_counts_positive. }
  cbv beta. intros r w' (_ & _ & Hact' & Hdata').
  split; [done|]. split; [done|].
  assert (forall rows, Forall (fun r => 1 <= ca_message_count r) rows ->
            Z.of_nat (length rows) <= Sql.sum (map ca_message_count rows)) as Hsum.
  { induction 1 as [|row rows Hrow Hrows IH]; [done|].
    unfold Sql.sum in *. cbn [length map foldr]. lia. }
  split; [by apply Hsum|].
  intros limit u Hu.
  destruct (select_user_stats_spec limit (store w')) as (_ & _ & _ & Hstats & _).
  destruct (Hstats u Hu) as (-> & (row & Hrow & _) & _).
  assert (Forall (fun r => 1 <= ca_message_count r)
            (activity_of_user (us_user_id u) (store w'))) as Hpos
    by (by apply Forall_filter_bool).
  specialize (Hsum _ Hpos).
  destruct (activity_of_user (us_user_id u) (store w')); [by apply elem_of_nil in Hrow|].
  cbn [length] in Hsum. lia.
Qed.

Lemma counts_stay_positive_witness :
  let w := Conn.open sample_three [false; true; false; false; true] in
  wp (serve_all None sample_requests)
     (fun r w' =>
        Forall (fun r => 1 <= ca_message_count r) (channel_activity (store w')) /\
        Forall (fun r => 1 <= sd_message_count r) (snapshot_data (store w')) /\
        Z.of_nat (length (channel_activity (store w'))) <= total_messages (store w') /\
        forall limit u, u ∈ Report.select_user_stats limit (store w') ->
                        1 <= us_total_messages u) w.
Proof.
  apply (counts_stay_positive None sample_requests
           (Conn.open sample_three [false; true; false; false; true])).
  - reflexivity.
  - apply (bool_decide_unpack _). vm_compute. reflexivity.
  - apply (bool_decide_unpack _). vm_compute. reflexivity.
Defined.
